(** * Capsicum for Linux: the capability LSM of security/capsicum.c

    A shallow embedding of the capability object, the per-thread pending
    syscall record, the syscall interceptor, the fget()/fd_install() hooks,
    the path hook and the two system calls, followed by the properties the
    specification states about them.

    Conventions.
    - A [struct file *] is a [fileptr]: [NULL], the address of an object in
      the kernel's object store, or an [ERR_PTR].
    - [u64] values are integers in [0, 2^64); [(u64)-1] is [u64_max].
    - A C function that can hit BUG_ON(), panic() or a bad dereference
      returns an [outcome]; a function returning int returns a [sysret]. *)

From Stdlib Require Import ZArith Lia Bool Ascii String.
From stdpp Require Import base option list gmap.

Open Scope Z_scope.

(** ** Results *)

Inductive errno :=
  EBADF | ENOMEM | EFAULT | EINVAL | EMFILE | ENOSYS | ECAPMODE | ENOTCAPABLE.

(** An [int] result: a non-negative value, or [-errno]. *)
Inductive sysret :=
| Val (v : Z)
| Neg (e : errno).

Inductive halt := BUG | PANIC | OOPS.

Inductive outcome (A : Type) :=
| Done (a : A)
| Halt (h : halt).
Arguments Done {A} a.
Arguments Halt {A} h.

Definition obind {A B} (m : outcome A) (f : A -> outcome B) : outcome B :=
  match m with
  | Done a => f a
  | Halt h => Halt h
  end.

Notation "'do' x <- m ; k" := (obind m (fun x => k))
  (at level 10, x name, m at level 100, k at level 200).
Notation "'do' ' p <- m ; k" := (obind m (fun x => match x with p => k end))
  (at level 10, p pattern, m at level 100, k at level 200).

Global Instance errno_eq_dec : EqDecision errno.
Proof. solve_decision. Defined.

(** ** Data model *)

Definition u64_max : Z := 2 ^ 64 - 1.

(** [AT_FDCWD] is -100; compared with an [unsigned long] it is 2^64 - 100. *)
Definition AT_FDCWD : Z := 2 ^ 64 - 100.

(** Conversion of an [unsigned long] to [unsigned int]. *)
Definition to_uint (x : Z) : Z := x mod 2 ^ 32.

Inductive fileptr :=
| NULL
| Addr (a : nat)
| ERR_PTR (e : errno).

Global Instance fileptr_eq_dec : EqDecision fileptr.
Proof. solve_decision. Defined.

Definition IS_ERR (p : fileptr) : bool :=
  match p with ERR_PTR _ => true | _ => false end.

Definition is_NULL (p : fileptr) : bool :=
  match p with NULL => true | _ => false end.

(** What [file->f_op] points to: the Capsicum table or some host table. *)
Inductive fops := capsicum_file_ops | host_file_ops.

Global Instance fops_eq_dec : EqDecision fops.
Proof. solve_decision. Defined.

Record capsicum_capability := mkCap {
  rights : Z;
  underlying : fileptr
}.

Record file := mkFile {
  f_op : fops;
  private_data : option capsicum_capability;
  f_count : Z
}.

Record capsicum_pending_syscall := mkPending {
  fds : list Z;
  files : list fileptr;
  next_free : Z;
  fd_count : Z;
  next_new_cap : fileptr;
  new_cap_rights : Z;
  task : nat
}.

(** [pending->fds[i]] and [pending->files[i]]. *)
Definition fds_at (p : capsicum_pending_syscall) (i : nat) : Z :=
  default 0 (fds p !! i).

Definition files_at (p : capsicum_pending_syscall) (i : nat) : fileptr :=
  default NULL (files p !! i).

Inductive seccomp_mode_t :=
  SECCOMP_MODE_DISABLED | SECCOMP_MODE_STRICT | SECCOMP_MODE_FILTER
| SECCOMP_MODE_CAPSICUM.

(** The part of the kernel the module reads and writes, seen from the
    current thread.  [objs] is the store of [struct file] objects, [fdtab]
    is [current->files], [security] is [current->cred->security], [kmem]
    counts the allocations that will still succeed, [nofile] is the
    descriptor limit and [umem] holds the writable user-space u64 cells. *)
Record kernel := mkKernel {
  objs : list file;
  fdtab : list fileptr;
  security : option capsicum_pending_syscall;
  current : nat;
  TIF_SECCOMP : bool;
  seccomp_mode : seccomp_mode_t;
  capsicum_enabled : bool;
  kmem : nat;
  nofile : nat;
  umem : gmap Z Z
}.

Definition set_objs (k : kernel) (o : list file) : kernel :=
  mkKernel o (fdtab k) (security k) (current k) (TIF_SECCOMP k)
    (seccomp_mode k) (capsicum_enabled k) (kmem k) (nofile k) (umem k).

Definition set_fdtab (k : kernel) (t : list fileptr) : kernel :=
  mkKernel (objs k) t (security k) (current k) (TIF_SECCOMP k)
    (seccomp_mode k) (capsicum_enabled k) (kmem k) (nofile k) (umem k).

Definition set_security (k : kernel) (s : option capsicum_pending_syscall)
  : kernel :=
  mkKernel (objs k) (fdtab k) s (current k) (TIF_SECCOMP k)
    (seccomp_mode k) (capsicum_enabled k) (kmem k) (nofile k) (umem k).

Definition set_kmem (k : kernel) (n : nat) : kernel :=
  mkKernel (objs k) (fdtab k) (security k) (current k) (TIF_SECCOMP k)
    (seccomp_mode k) (capsicum_enabled k) n (nofile k) (umem k).

Definition set_umem (k : kernel) (m : gmap Z Z) : kernel :=
  mkKernel (objs k) (fdtab k) (security k) (current k) (TIF_SECCOMP k)
    (seccomp_mode k) (capsicum_enabled k) (kmem k) (nofile k) m.

(** ** Host primitives the module calls *)

(** [*p] for a [struct file *p]. *)
Definition deref (k : kernel) (p : fileptr) : outcome file :=
  match p with
  | Addr a =>
      match objs k !! a with
      | Some f => Done f
      | None => Halt OOPS
      end
  | _ => Halt OOPS
  end.

(** [fcheck(fd)] / [fcheck_files(current->files, fd)]: the argument is an
    [unsigned int]. *)
Definition fcheck (k : kernel) (fd : Z) : fileptr :=
  default NULL (fdtab k !! Z.to_nat (to_uint fd)).

(** [get_unused_fd()]: the lowest free slot, below the descriptor limit. *)
Definition get_unused_fd (k : kernel) : sysret :=
  let fd :=
    match list_find (fun p => p = NULL) (fdtab k) with
    | Some (i, _) => i
    | None => length (fdtab k)
    end in
  if decide (fd < nofile k)%nat then Val (Z.of_nat fd) else Neg EMFILE.

(** [fd_install(fd, file)] on a slot obtained from [get_unused_fd]. *)
Definition fd_install (k : kernel) (fd : Z) (p : fileptr) : kernel :=
  let i := Z.to_nat fd in
  if decide (i < length (fdtab k))%nat
  then set_fdtab k (<[i := p]> (fdtab k))
  else set_fdtab k (fdtab k ++ replicate (i - length (fdtab k)) NULL ++ [p]).

(** [get_file(f)] and [fput(f)]: one reference more, one less. *)
Definition add_ref (k : kernel) (p : fileptr) (d : Z) : outcome kernel :=
  do f <- deref k p;
  match p with
  | Addr a =>
      Done (set_objs k
              (<[a := mkFile (f_op f) (private_data f) (f_count f + d)]>
                 (objs k)))
  | _ => Halt OOPS
  end.

Definition get_file (k : kernel) (p : fileptr) : outcome kernel :=
  add_ref k p 1.

Definition fput (k : kernel) (p : fileptr) : outcome kernel :=
  add_ref k p (-1).

(** [put_user(v, p)]: stores [v] when [p] is writable, else -EFAULT. *)
Definition put_user (k : kernel) (v p : Z) : sysret * kernel :=
  match umem k !! p with
  | Some _ => (Val 0, set_umem k (<[p := v]> (umem k)))
  | None => (Neg EFAULT, k)
  end.

(** ** The module *)

Definition capsicum_in_cap_mode (k : kernel) : bool :=
  TIF_SECCOMP k &&
  match seccomp_mode k with SECCOMP_MODE_CAPSICUM => true | _ => false end.

Definition capsicum_is_cap (f : file) : bool :=
  bool_decide (f_op f = capsicum_file_ops).

(** [capsicum_unwrap(capf, &r)]: the result is the underlying file (NULL
    when [capf] is no capability) and the value of [r] afterwards; [r0] is
    the value of [r] before the call.  With a NULL second argument the
    second component is ignored by the callers. *)
Definition capsicum_unwrap (capf : file) (r0 : Z) : outcome (fileptr * Z) :=
  if negb (capsicum_is_cap capf) then Done (NULL, r0)
  else
    match private_data capf with
    | Some cap => Done (underlying cap, rights cap)
    | None => Halt OOPS
    end.

(** [capsicum_cred_alloc_blank]: a zeroed record with the inline arrays. *)
Definition blank_pending (t : nat) : capsicum_pending_syscall :=
  mkPending (replicate 6 0) (replicate 6 NULL) 0 6 NULL 0 t.

Definition capsicum_cred_alloc_blank (k : kernel)
  : sysret * option capsicum_pending_syscall * kernel :=
  match kmem k with
  | O => (Neg ENOMEM, None, k)
  | S n => (Val 0, Some (blank_pending (current k)), set_kmem k n)
  end.

(** [capsicum_cred_prepare(new, old, gfp)]: the second component is
    [new->security] afterwards. *)
Definition capsicum_cred_prepare (k : kernel)
    (old : option capsicum_pending_syscall)
  : sysret * option capsicum_pending_syscall * kernel :=
  match old with
  | Some old_pending =>
      if decide (task old_pending = current k)
      then capsicum_cred_alloc_blank k
      else (Val 0, None, k)
  | None => (Val 0, None, k)
  end.

(** [prepare_creds()]: allocates the new cred and runs the prepare hook;
    the result is [cred->security] of the new cred, or the failure. *)
Definition prepare_creds (k : kernel)
  : option (option capsicum_pending_syscall) * kernel :=
  match kmem k with
  | O => (None, k)
  | S n =>
      match capsicum_cred_prepare (set_kmem k n) (security k) with
      | (Val _, sec, k') => (Some sec, k')
      | (Neg _, _, _) => (None, k)
      end
  end.

(** The branch of [capsicum_alloc_pending_syscall()] taken when there
    is no record or the record belongs to another thread: new credentials
    with a record of the current thread.  The record of a fresh kmalloc
    is taken zero-filled. *)
Definition replace_pending_syscall (k : kernel)
  : (errno + capsicum_pending_syscall) * kernel :=
  match prepare_creds k with
  | (None, _) => (inl ENOMEM, k)
  | (Some sec, k1) =>
      let alloc :=
        match sec with
        | Some p => Some (p, k1)
        | None =>
            match kmem k1 with
            | O => None
            | S n =>
                Some (mkPending (replicate 6 0) (replicate 6 NULL)
                        0 6 NULL 0 0, set_kmem k1 n)
            end
        end in
      match alloc with
      | None => (inl ENOMEM, k)
      | Some (p, k2) =>
          let p' := mkPending (fds p) (files p) 0 (fd_count p) NULL
                      u64_max (current k2) in
          (inr p', set_security k2 (Some p'))
      end
  end.

(** [capsicum_alloc_pending_syscall()].  On success the record is also
    [security] of the resulting kernel. *)
Definition capsicum_alloc_pending_syscall (k : kernel)
  : (errno + capsicum_pending_syscall) * kernel :=
  match security k with
  | Some pending =>
      if decide (task pending = current k) then (inr pending, k)
      else replace_pending_syscall k
  | None => replace_pending_syscall k
  end.

Definition capsicum_get_pending_syscall (k : kernel)
  : option capsicum_pending_syscall :=
  match security k with
  | Some pending =>
      if decide (task pending = current k) then Some pending else None
  | None => None
  end.

(** [capsicum_cap_alloc()]: kzalloc of the capability, then the anonymous
    inode file; the capability is freed again when the file cannot be had. *)
Definition capsicum_cap_alloc (k : kernel) : fileptr * kernel :=
  match kmem k with
  | O => (ERR_PTR ENOMEM, k)
  | S O => (ERR_PTR ENOMEM, k)
  | S (S n) =>
      (Addr (length (objs k)),
       set_kmem
         (set_objs k
            (objs k ++ [mkFile capsicum_file_ops (Some (mkCap 0 NULL)) 1]))
         n)
  end.

Definition capsicum_cap_set (k : kernel) (capf under : fileptr) (r : Z)
  : outcome kernel :=
  do f <- deref k capf;
  if negb (capsicum_is_cap f) then Halt BUG
  else
    match private_data f, capf with
    | Some _, Addr a =>
        Done (set_objs k
                (<[a := mkFile (f_op f) (Some (mkCap r under)) (f_count f)]>
                   (objs k)))
    | _, _ => Halt BUG
    end.

(** [capsicum_install_fd(orig, rights)]. *)
Definition capsicum_install_fd (k : kernel) (orig : fileptr) (r : Z)
  : outcome (sysret * kernel) :=
  match get_unused_fd k with
  | Neg e => Done (Neg e, k)
  | Val fd =>
      let '(file, k1) := capsicum_cap_alloc k in
      match file with
      | ERR_PTR e => Done (Neg e, k1)
      | _ =>
          do o <- deref k1 orig;
          do orig' <-
            (if capsicum_is_cap o
             then do '(u, _) <- capsicum_unwrap o 0; Done u
             else Done orig);
          do k2 <- get_file k1 orig';
          do k3 <- capsicum_cap_set k2 file orig' r;
          Done (Val fd, fd_install k3 fd file)
      end
  end.

(** [capsicum_require_rights(pending, fd, required_rights)]: the result and
    the record afterwards. *)
Definition capsicum_require_rights (k : kernel)
    (pending : capsicum_pending_syscall) (fd required_rights : Z)
  : outcome (sysret * capsicum_pending_syscall) :=
  if decide (fd = AT_FDCWD) then Done (Neg ECAPMODE, pending)
  else
    let file := fcheck k fd in
    if is_NULL file then Done (Neg EBADF, pending)
    else
      do f <- deref k file;
      do '(_, actual_rights) <- capsicum_unwrap f u64_max;
      if decide (fd_count pending <= next_free pending)
      then Done (Neg ENOMEM, pending)
      else
        let i := Z.to_nat (next_free pending) in
        let pending' :=
          mkPending (<[i := to_uint fd]> (fds pending))
            (<[i := file]> (files pending))
            (next_free pending + 1) (fd_count pending)
            (next_new_cap pending) (new_cap_rights pending)
            (task pending) in
        if decide (Z.land actual_rights required_rights = required_rights)
        then Done (Val 0, pending')
        else Done (Neg ENOTCAPABLE, pending').

(** [do_sys_cap_new(orig_fd, new_rights)]. *)
Definition do_sys_cap_new (k : kernel) (orig_fd new_rights : Z)
  : outcome (sysret * kernel) :=
  let file := fcheck k orig_fd in
  if is_NULL file then Done (Neg EBADF, k)
  else
    do f <- deref k file;
    do '(file', existing_rights) <-
      (if capsicum_is_cap f
       then capsicum_unwrap f u64_max
       else Done (file, u64_max));
    if is_NULL file' then Done (Neg EBADF, k)
    else
      do g <- deref k file';
      (* atomic_long_inc_not_zero(&file->f_count) *)
      if decide (f_count g = 0) then Done (Neg EBADF, k)
      else
        do k1 <- get_file k file';
        capsicum_install_fd k1 file' (Z.land new_rights existing_rights).

Definition sys_cap_new (k : kernel) (orig_fd new_rights : Z)
  : outcome (sysret * kernel) :=
  if negb (capsicum_enabled k) then Done (Neg ENOSYS, k)
  else do_sys_cap_new k orig_fd new_rights.

(** [cap_getrights(fd, rightsp)]: the value of [put_user] is not looked
    at. *)
Definition sys_cap_getrights (k : kernel) (fd rightsp : Z)
  : outcome (sysret * kernel) :=
  let file := fcheck k fd in
  if is_NULL file then Done (Neg EBADF, k)
  else
    do f <- deref k file;
    if negb (capsicum_is_cap f) then Done (Neg EINVAL, k)
    else
      do '(_, r) <- capsicum_unwrap f u64_max;
      let '(_, k') := put_user k r rightsp in
      Done (Val 0, k').

(** ** File operations of a capability *)

Definition capsicum_release (k : kernel) (capf : fileptr)
  : outcome (sysret * kernel) :=
  do f <- deref k capf;
  if negb (capsicum_is_cap f) then Done (Neg EINVAL, k)
  else
    match private_data f, capf with
    | Some cap, Addr a =>
        do k1 <-
          (if is_NULL (underlying cap) then Done k
           else fput k (underlying cap));
        do f1 <- deref k1 capf;
        (* cap->underlying = NULL; kfree(cap) *)
        Done (Val 0,
              set_kmem
                (set_objs k1
                   (<[a := mkFile (f_op f1) None (f_count f1)]> (objs k1)))
                (S (kmem k1)))
    | _, _ => Halt BUG
    end.

(** [capsicum_show_fdinfo(m, capf)]: the result and the rights value
    printed into [m], if any. *)
Definition capsicum_show_fdinfo (k : kernel) (capf : fileptr)
  : outcome (sysret * option Z) :=
  do f <- deref k capf;
  if negb (capsicum_is_cap f) then Done (Neg EINVAL, None)
  else
    match private_data f with
    | Some cap => Done (Val 0, Some (rights cap))
    | None => Halt BUG
    end.

Definition capsicum_panic_not_unwrapped {A} : outcome A := Halt PANIC.

(** The members of [struct file_operations] that [capsicum_file_ops]
    names. *)
Inductive file_operation :=
  op_llseek | op_read | op_write | op_aio_read | op_aio_write | op_iterate
| op_poll | op_unlocked_ioctl | op_compat_ioctl | op_mmap | op_open
| op_flush | op_release | op_fsync | op_aio_fsync | op_fasync | op_lock
| op_sendpage | op_get_unmapped_area | op_check_flags | op_flock
| op_splice_write | op_splice_read | op_setlease | op_fallocate
| op_show_fdinfo.

Global Instance file_operation_eq_dec : EqDecision file_operation.
Proof. solve_decision. Defined.

Inductive handler :=
  panic_ptr | null_handler | release_handler | show_fdinfo_handler.

(** The initialiser of [capsicum_file_ops], member by member. *)
Definition capsicum_file_ops_member (m : file_operation) : handler :=
  match m with
  | op_llseek => panic_ptr
  | op_read => panic_ptr
  | op_write => panic_ptr
  | op_aio_read => panic_ptr
  | op_aio_write => panic_ptr
  | op_iterate => panic_ptr
  | op_poll => panic_ptr
  | op_unlocked_ioctl => panic_ptr
  | op_compat_ioctl => panic_ptr
  | op_mmap => panic_ptr
  | op_open => panic_ptr
  | op_flush => null_handler
  | op_release => release_handler
  | op_fsync => panic_ptr
  | op_aio_fsync => panic_ptr
  | op_fasync => panic_ptr
  | op_lock => panic_ptr
  | op_sendpage => panic_ptr
  | op_get_unmapped_area => panic_ptr
  | op_check_flags => panic_ptr
  | op_flock => panic_ptr
  | op_splice_write => panic_ptr
  | op_splice_read => panic_ptr
  | op_setlease => panic_ptr
  | op_fallocate => panic_ptr
  | op_show_fdinfo => show_fdinfo_handler
  end.

(** Calling member [m] of the table on the capability [capf]; a member
    left NULL is skipped by the host. *)
Definition call_file_op (k : kernel) (m : file_operation) (capf : fileptr)
  : outcome (sysret * kernel) :=
  match capsicum_file_ops_member m with
  | panic_ptr => capsicum_panic_not_unwrapped
  | null_handler => Done (Val 0, k)
  | release_handler => capsicum_release k capf
  | show_fdinfo_handler =>
      do '(r, _) <- capsicum_show_fdinfo k capf; Done (r, k)
  end.

(** ** LSM hooks *)

(** The loop of [capsicum_file_lookup], from index [i] for [n] more
    rounds: [None] is the [return NULL] inside the loop, [Some b] is the
    value of [found_fd] after it. *)
Fixpoint lookup_loop (pending : capsicum_pending_syscall) (fd : Z)
    (file : fileptr) (i n : nat) (found_fd : bool) : option bool :=
  match n with
  | O => Some found_fd
  | S n' =>
      if decide (fds_at pending i = fd) then
        if decide (files_at pending i = file)
        then lookup_loop pending fd file (S i) n' true
        else None
      else lookup_loop pending fd file (S i) n' found_fd
  end.

Definition capsicum_file_lookup (k : kernel) (file : fileptr) (fd : Z)
  : outcome fileptr :=
  do f <- deref k file;
  do '(under, _) <- capsicum_unwrap f 0;
  if is_NULL under then Done file
  else
    match capsicum_get_pending_syscall k with
    | Some pending =>
        if capsicum_in_cap_mode k then
          match lookup_loop pending fd file 0
                  (Z.to_nat (next_free pending)) false with
          | None => Done NULL
          | Some found_fd =>
              if found_fd then Done under else Halt BUG
          end
        else Done under
    | None => Done under
    end.

Definition capsicum_file_install (k : kernel) (file : fileptr) (fd : Z)
  : outcome (fileptr * kernel) :=
  do f <- deref k file;
  if capsicum_is_cap f then Done (file, k)
  else
    match capsicum_get_pending_syscall k with
    | None => Done (file, k)
    | Some pending =>
        if bool_decide (new_cap_rights pending = u64_max)
           || is_NULL (next_new_cap pending)
        then Done (file, k)
        else
          let capf := next_new_cap pending in
          do k1 <- capsicum_cap_set k capf file (new_cap_rights pending);
          Done (capf,
                set_security k1
                  (Some (mkPending (fds pending) (files pending)
                           (next_free pending) (fd_count pending)
                           NULL 0 (task pending))))
    end.

(** [name[i]] of a NUL-terminated string. *)
Definition char_at (name : string) (i : nat) : ascii :=
  default "000"%char (String.get i name).

Definition capsicum_path_lookup (k : kernel) (name : string) : sysret :=
  if negb (capsicum_in_cap_mode k) then Val 0
  else if Ascii.eqb (char_at name 0) "."
          && Ascii.eqb (char_at name 1) "."
          && (Ascii.eqb (char_at name 2) "000"
              || Ascii.eqb (char_at name 2) "/")
  then Neg ECAPMODE
  else if Ascii.eqb (char_at name 0) "/" then Neg ECAPMODE
  else Val 0.

(** ** The syscall interceptor *)

(** Modelled from the spec: capsicum_syscall_table.h, which defines
    [capsicum_run_syscall_table], is not part of the sources at hand.  A
    table maps (architecture, syscall number) and the argument vector to
    the (fd argument, required rights) pairs to check, in order; [None]
    stands for a syscall that is unknown or not allowed in capability
    mode. *)
Definition syscall_table := Z -> Z -> list Z -> option (list (Z * Z)).

(** The per-argument checks, stopping at the first failure. *)
Fixpoint check_fd_args (k : kernel) (pending : capsicum_pending_syscall)
    (l : list (Z * Z)) : outcome (sysret * capsicum_pending_syscall) :=
  match l with
  | [] => Done (Val 0, pending)
  | (fd, required_rights) :: l' =>
      do '(r, pending') <-
        capsicum_require_rights k pending fd required_rights;
      match r with
      | Val 0 => check_fd_args k pending' l'
      | _ => Done (r, pending')
      end
  end.

Definition capsicum_run_syscall_table (tbl : syscall_table) (k : kernel)
    (pending : capsicum_pending_syscall) (arch callnr : Z) (args : list Z)
  : outcome (sysret * capsicum_pending_syscall) :=
  match tbl arch callnr args with
  | None => Done (Neg ECAPMODE, pending)
  | Some l => check_fd_args k pending l
  end.

Definition is_zero (r : sysret) : bool :=
  match r with Val 0 => true | _ => false end.

(** [capsicum_intercept_syscall(arch, callnr, args)]; [NR_openat] is
    [__NR_openat].  The record is written back into [security] on every
    way out. *)
Definition capsicum_intercept_syscall (tbl : syscall_table) (NR_openat : Z)
    (k : kernel) (arch callnr : Z) (args : list Z)
  : outcome (sysret * kernel) :=
  if negb (capsicum_enabled k) then Done (Val 0, k)
  else
    match capsicum_alloc_pending_syscall k with
    | (inl e, k1) => Done (Neg e, k1)
    | (inr pending, k1) =>
        let pending1 :=
          mkPending (fds pending) (files pending) 0 (fd_count pending)
            (next_new_cap pending) 0 (task pending) in
        do '(result, pending2) <-
          capsicum_run_syscall_table tbl k1 pending1 arch callnr args;
        if is_zero result && bool_decide (callnr = NR_openat) then
          do f0 <- deref k1 (files_at pending2 0);
          do '(under, existing_rights) <- capsicum_unwrap f0 u64_max;
          if is_NULL under
          then Done (result, set_security k1 (Some pending2))
          else
            let with_cap c r :=
              mkPending (fds pending2) (files pending2)
                (next_free pending2) (fd_count pending2) c r
                (task pending2) in
            if is_NULL (next_new_cap pending2) then
              let '(c, k2) := capsicum_cap_alloc k1 in
              match c with
              | ERR_PTR e =>
                  Done (Neg e,
                        set_security k2
                          (Some (with_cap c (new_cap_rights pending2))))
              | _ =>
                  Done (result,
                        set_security k2 (Some (with_cap c existing_rights)))
              end
            else
              Done (result,
                    set_security k1
                      (Some (with_cap (next_new_cap pending2)
                               existing_rights)))
        else Done (result, set_security k1 (Some pending2))
    end.

(** ** The host around the hooks *)

(** Modelled from the spec: the host's descriptor installation is not
    part of the sources at hand; it passes the file through the install
    hook and stores what the hook returns. *)
Definition host_install (k : kernel) (file : fileptr)
  : outcome (sysret * kernel) :=
  match get_unused_fd k with
  | Neg e => Done (Neg e, k)
  | Val fd =>
      do '(file', k1) <- capsicum_file_install k file fd;
      Done (Val fd, fd_install k1 fd file')
  end.

(** What can happen to the state, one event at a time. *)
Inductive event :=
| ev_cap_new (orig_fd new_rights : Z)
| ev_cap_getrights (fd rightsp : Z)
| ev_intercept (arch callnr : Z) (args : list Z)
| ev_open                       (* the host opens a fresh ordinary file *)
| ev_install (file : fileptr)   (* the host installs an existing file *)
| ev_release (capf : fileptr).

Definition step (tbl : syscall_table) (NR_openat : Z) (k : kernel)
    (e : event) : outcome kernel :=
  match e with
  | ev_cap_new fd r => do '(_, k') <- sys_cap_new k fd r; Done k'
  | ev_cap_getrights fd p =>
      do '(_, k') <- sys_cap_getrights k fd p; Done k'
  | ev_intercept arch nr args =>
      do '(_, k') <- capsicum_intercept_syscall tbl NR_openat k arch nr args;
      Done k'
  | ev_open =>
      let k1 := set_objs k (objs k ++ [mkFile host_file_ops None 1]) in
      do '(_, k') <- host_install k1 (Addr (length (objs k)));
      Done k'
  | ev_install file => do '(_, k') <- host_install k file; Done k'
  | ev_release capf => do '(_, k') <- capsicum_release k capf; Done k'
  end.

Fixpoint run (tbl : syscall_table) (NR_openat : Z) (k : kernel)
    (es : list event) : outcome kernel :=
  match es with
  | [] => Done k
  | e :: es' => do k' <- step tbl NR_openat k e; run tbl NR_openat k' es'
  end.

(** ** Predicates used in the statements *)

(** The rights a file stands for in a rights check: those of the
    capability, all ones for any other file. *)
Definition file_rights (f : file) : Z :=
  if capsicum_is_cap f then
    match private_data f with
    | Some cap => rights cap
    | None => u64_max
    end
  else u64_max.

(** [f] is a capability object with the given rights and underlying. *)
Definition is_capability (f : file) (r : Z) (u : fileptr) : Prop :=
  capsicum_is_cap f = true /\ private_data f = Some (mkCap r u).

(** The ordinary file behind the object [f] at address [a]: the object
    itself, or what it wraps when it is a capability. *)
Definition wrapped_file (a : nat) (f : file) : option nat :=
  if capsicum_is_cap f then
    match private_data f with
    | Some cap =>
        match underlying cap with
        | Addr b => Some b
        | _ => None
        end
    | None => None
    end
  else Some a.

(** The object [f] is flat in store [o]: if it is a capability, what it
    wraps is nothing or an object of the store that is no capability. *)
Definition flat_obj (o : list file) (f : file) : bool :=
  if capsicum_is_cap f then
    match private_data f with
    | Some cap =>
        match underlying cap with
        | NULL => true
        | Addr b =>
            match o !! b with
            | Some g => negb (capsicum_is_cap g)
            | None => false
            end
        | ERR_PTR _ => false
        end
    | None => true
    end
  else true.

Definition flat_store (o : list file) : Prop :=
  Forall (fun f => flat_obj o f = true) o.

Definition flat (k : kernel) : Prop := flat_store (objs k).

(** [k'] has the objects, the descriptors and the thread of [k]. *)
Definition frame (k k' : kernel) : Prop :=
  objs k' = objs k /\ fdtab k' = fdtab k /\ current k' = current k.

(** The arrays of the record have the length [fd_count] says. *)
Definition pending_wf (p : capsicum_pending_syscall) : Prop :=
  Z.of_nat (length (fds p)) = fd_count p /\
  Z.of_nat (length (files p)) = fd_count p.

(** The record the hooks will see is well formed, and the wrapper it
    may carry over from an earlier openat is an allocated capability
    object. *)
Definition pending_ok (k : kernel) : Prop :=
  forall p, capsicum_get_pending_syscall k = Some p ->
    pending_wf p /\
    (next_new_cap p = NULL \/
     exists w wc, next_new_cap p = Addr w /\ objs k !! w = Some wc /\
                  capsicum_is_cap wc = true /\ is_Some (private_data wc)).

(** Entry [i] of the record, for [i] below [next_free]. *)
Definition recorded (p : capsicum_pending_syscall) (i : nat) (fd : Z)
    (file : fileptr) : Prop :=
  (Z.of_nat i < next_free p) /\ fds_at p i = fd /\ files_at p i = file.

(** A pathname as the spec reads it: its components between slashes. *)
Fixpoint components (p : string) : list string :=
  match p with
  | EmptyString => [EmptyString]
  | String c p' =>
      if Ascii.eqb c "/" then EmptyString :: components p'
      else
        match components p' with
        | h :: t => String c h :: t
        | [] => [String c EmptyString]
        end
  end.

Definition has_slash_prefix (p : string) : Prop :=
  exists p', p = String "/" p'.

Definition has_dotdot_component (p : string) : Prop :=
  ".."%string ∈ components p.

Definition starts_with_dotdot_component (p : string) : Prop :=
  head (components p) = Some ".."%string.

(** A C string holds no NUL before its end. *)
Fixpoint no_nul (p : string) : Prop :=
  match p with
  | EmptyString => True
  | String c p' => c <> "000"%char /\ no_nul p'
  end.

(** ** The pathname walk that fires the path hook *)

(** Modelled from the spec: the host's pathname walk, which calls the
    [path_lookup] hook and is not part of the sources at hand.  "Fires
    per component of any pathname lookup": the hook is given the pathname
    as the walk starts, and at every further component what is left of
    the pathname from that component on, the slashes between components
    skipped.  [later_components after_slash name] lists the names of the
    further calls, [after_slash] telling whether the character before
    [name] was a slash. *)
Fixpoint later_components (after_slash : bool) (name : string)
  : list string :=
  match name with
  | EmptyString => []
  | String c rest =>
      if Ascii.eqb c "/" then later_components true rest
      else if after_slash then name :: later_components false rest
      else later_components false rest
  end.

(** Modelled from the spec: the names the hook is called with during the
    walk of [name], in the order of the calls. *)
Definition lookup_names (name : string) : list string :=
  name :: later_components false name.

(** Modelled from the spec: the walk stops at the first call of the hook
    that does not return 0 and fails with what the hook returned. *)
Fixpoint fire_path_lookup (k : kernel) (names : list string) : sysret :=
  match names with
  | [] => Val 0
  | name :: names' =>
      match capsicum_path_lookup k name with
      | Neg e => Neg e
      | Val _ => fire_path_lookup k names'
      end
  end.

(** Modelled from the spec: what the hook makes of the lookup of a whole
    pathname. *)
Definition pathname_lookup (k : kernel) (name : string) : sysret :=
  fire_path_lookup k (lookup_names name).

(** ** The rest of the module: growing and freeing the record *)

(** The record does not hold the addresses of its arrays.  [fds] and
    [files] are the inline arrays exactly when [fd_count] is 6, their
    size: every record starts with the inline arrays and that count, and
    only [capsicum_realloc_pending_syscall] changes either, to arrays of
    its own and a larger count. *)
Definition uses_inline_arrays (p : capsicum_pending_syscall) : bool :=
  bool_decide (fd_count p = 6).

(** [capsicum_realloc_pending_syscall(pending, numfds)]: the record and
    the kernel afterwards.  The new arrays are not filled from the old
    ones; as for a fresh record they are taken zero-filled. *)
Definition capsicum_realloc_pending_syscall (k : kernel)
    (pending : capsicum_pending_syscall) (numfds : Z)
  : capsicum_pending_syscall * kernel :=
  if decide (numfds <= fd_count pending) then (pending, k)
  else
    match kmem k with
    | O => (pending, k)
    | S O => (pending, k)
    | S (S n) =>
        let n' := if uses_inline_arrays pending then n else S (S n) in
        (mkPending (replicate (Z.to_nat numfds) 0)
           (replicate (Z.to_nat numfds) NULL)
           (next_free pending) numfds (next_new_cap pending)
           (new_cap_rights pending) (task pending),
         set_kmem k n')
    end.

(** [put_filp(file)]: one reference less, without the release
    operation. *)
Definition put_filp (k : kernel) (p : fileptr) : outcome kernel :=
  add_ref k p (-1).

(** [capsicum_cred_free(cred)] on the credentials of the thread. *)
Definition capsicum_cred_free (k : kernel) : outcome kernel :=
  match security k with
  | None => Done k
  | Some pending =>
      let k0 := set_security k None in
      let k1 :=
        if uses_inline_arrays pending then k0
        else set_kmem k0 (S (S (kmem k0))) in
      do k2 <-
        (if is_NULL (next_new_cap pending) then Done k1
         else put_filp k1 (next_new_cap pending));
      Done (set_kmem k2 (S (kmem k2)))
  end.

(** ** Further predicates *)

(** What [capsicum_cap_alloc] creates. *)
Definition blank_wrapper : file :=
  mkFile capsicum_file_ops (Some (mkCap 0 NULL)) 1.

(** The record a thread without one is given. *)
Definition first_record (t : nat) : capsicum_pending_syscall :=
  mkPending (replicate 6 0) (replicate 6 NULL) 0 6 NULL u64_max t.

(** The record [p] with its entries forgotten and the rights for the
    next installation at 0, as the interceptor starts from. *)
Definition reset_record (p : capsicum_pending_syscall)
  : capsicum_pending_syscall :=
  mkPending (fds p) (files p) 0 (fd_count p) (next_new_cap p) 0 (task p).

(** The entries in use lie within the arrays. *)
Definition record_bounded (p : capsicum_pending_syscall) : Prop :=
  pending_wf p /\ 0 <= next_free p <= fd_count p.

(** [k'] differs from [k] at most in its objects, its record and its
    memory. *)
Definition same_env (k k' : kernel) : Prop :=
  fdtab k' = fdtab k /\ current k' = current k /\
  TIF_SECCOMP k' = TIF_SECCOMP k /\ seccomp_mode k' = seccomp_mode k /\
  capsicum_enabled k' = capsicum_enabled k /\ nofile k' = nofile k /\
  umem k' = umem k.

(** The arrays of the record the hooks will see have the length its
    [fd_count] says. *)
Definition record_arrays_ok (k : kernel) : Prop :=
  forall p, capsicum_get_pending_syscall k = Some p -> pending_wf p.

(** The record [p] with the pair (fd, file) written at [next_free]. *)
Definition record_push (p : capsicum_pending_syscall) (fd : Z)
    (file : fileptr) : capsicum_pending_syscall :=
  mkPending (<[Z.to_nat (next_free p) := fd]> (fds p))
    (<[Z.to_nat (next_free p) := file]> (files p))
    (next_free p + 1) (fd_count p) (next_new_cap p) (new_cap_rights p)
    (task p).

(** Every entry in use holds the file its fd resolves to in [k]. *)
Definition record_matches (k : kernel) (p : capsicum_pending_syscall)
  : Prop :=
  forall i, Z.of_nat i < next_free p -> files_at p i = fcheck k (fds_at p i).

(** The file the descriptor [i] holds, NULL for a free slot. *)
Definition slot (k : kernel) (i : nat) : fileptr :=
  default NULL (fdtab k !! i).

(** ** States used in the examples *)

Definition ordinary_file : file := mkFile host_file_ops None 1.

Definition read_capability : file :=
  mkFile capsicum_file_ops (Some (mkCap 1 (Addr 0%nat))) 1.

(** An ordinary file at fd 3, a capability for it with rights 1 at fd 0,
    no record yet; the thread is in capability mode. *)
Definition confined : kernel :=
  mkKernel [ordinary_file; read_capability]
    [Addr 1%nat; NULL; NULL; Addr 0%nat] None 7%nat true
    SECCOMP_MODE_CAPSICUM true 10%nat 64%nat {[ 1000 := 0 ]}.

(** The same, but the capability at fd 0 carries every right. *)
Definition generous : kernel :=
  set_objs confined
    [ordinary_file;
     mkFile capsicum_file_ops (Some (mkCap u64_max (Addr 0%nat))) 1].

(** The same thread outside capability mode. *)
Definition outside : kernel :=
  mkKernel (objs confined) (fdtab confined) None 7%nat false
    SECCOMP_MODE_DISABLED true 10%nat 64%nat (umem confined).

(** A record owned by thread 7 with the given entries in use. *)
Definition record_of (fs : list Z) (ps : list fileptr) (n : Z)
    (c : fileptr) (r : Z) : capsicum_pending_syscall :=
  mkPending fs ps n 6 c r 7%nat.

Definition empty_record : capsicum_pending_syscall :=
  record_of (replicate 6 0) (replicate 6 NULL) 0 NULL 0.

Definition full_record : capsicum_pending_syscall :=
  record_of (replicate 6 0) (replicate 6 (Addr 1%nat)) 6 NULL 0.

(** The confined thread with a record attached to its credentials. *)
Definition confined_with (p : capsicum_pending_syscall) : kernel :=
  set_security confined (Some p).

(** A table with openat (257) and dup (32), each checking its first
    argument without asking for any right. *)
Definition small_table : syscall_table :=
  fun arch nr args =>
    if decide (nr = 257) then Some [(default 0 (args !! 0%nat), 0)]
    else if decide (nr = 32) then Some [(default 0 (args !! 0%nat), 0)]
    else None.

(** The state an operation leaves behind ([k] if it halts). *)
Definition after (r : outcome (sysret * kernel)) (k : kernel) : kernel :=
  match r with
  | Done (_, k') => k'
  | Halt _ => k
  end.

(** The confined thread after the interception of openat(0, ...). *)
Definition confined_after_openat : kernel :=
  after (capsicum_intercept_syscall small_table 257 confined 0 257 [0; 0; 0])
    confined.

(** That openat has failed before installing anything; the thread now
    calls dup(0), which is intercepted. *)
Definition confined_after_dup : kernel :=
  after (capsicum_intercept_syscall small_table 257 confined_after_openat
           0 32 [0; 0; 0])
    confined_after_openat.

(** The generous state after the interception of openat(0, ...). *)
Definition generous_after_openat : kernel :=
  after (capsicum_intercept_syscall small_table 257 generous
           0 257 [0; 0; 0])
    generous.

(** The confined thread with memory for three allocations only, after
    the interception of openat(0, ...), and then with memory again. *)
Definition starved_after_openat : kernel :=
  after (capsicum_intercept_syscall small_table 257 (set_kmem confined 3)
           0 257 [0; 0; 0])
    confined.

Definition fed_again : kernel := set_kmem starved_after_openat 10.

Definition fed_after_openat : kernel :=
  after (capsicum_intercept_syscall small_table 257 fed_again
           0 257 [0; 0; 0])
    fed_again.

(** cap_new on the capability at fd 0, openat on that capability, the
    host opening the file and installing it, a second cap_new on the
    result, and the release of the first capability. *)
Definition busy_day : list event :=
  [ev_cap_new 0 3; ev_intercept 0 257 [0; 0; 0]; ev_open;
   ev_cap_new 2 1; ev_release (Addr 1%nat)].

(** * Properties *)

(** ** The path hook *)

Lemma components_nonempty p : components p <> [].
Proof.
  destruct p as [|c p]; simpl; [discriminate|].
  destruct (c =? "/")%char; [discriminate|].
  destruct (components p); discriminate.
Qed.

Lemma head_components_cons c p :
  c <> "/"%char ->
  head (components (String c p)) =
  (fun h => String c h) <$> head (components p).
Proof.
  intros Hc. simpl. destruct (Ascii.eqb_spec c "/"); [contradiction|].
  destruct (components p) eqn:E; [|reflexivity].
  exfalso. now apply (components_nonempty p).
Qed.

Lemma head_components_slash p :
  head (components (String "/" p)) = Some EmptyString.
Proof. reflexivity. Qed.

Lemma head_components_nil : head (components EmptyString) = Some EmptyString.
Proof. reflexivity. Qed.

(** The first component is [..] exactly when the name is [..] or begins
    with [../]. *)
Lemma starts_with_dotdot_iff p :
  starts_with_dotdot_component p <->
  p = ".."%string \/ exists q, p = String "." (String "." (String "/" q)).
Proof.
  unfold starts_with_dotdot_component. split.
  - destruct p as [|c0 p]; [discriminate|].
    destruct (Ascii.eqb_spec c0 "/") as [->|H0]; [discriminate|].
    rewrite head_components_cons by assumption.
    destruct p as [|c1 p].
    { simpl. intros [=]. }
    destruct (Ascii.eqb_spec c1 "/") as [->|H1].
    { simpl. intros [=]. }
    rewrite head_components_cons by assumption.
    destruct p as [|c2 p].
    { simpl. intros [= -> ->]. now left. }
    destruct (Ascii.eqb_spec c2 "/") as [->|H2].
    { simpl. intros [= -> ->]. right. now exists p. }
    rewrite head_components_cons by assumption.
    destruct (head (components p)); simpl; intros [=].
  - intros [->|[q ->]]; reflexivity.
Qed.

Lemma char_at_0 c p : char_at (String c p) 0 = c.
Proof. reflexivity. Qed.

Lemma char_at_S c p i : char_at (String c p) (S i) = char_at p i.
Proof. reflexivity. Qed.

(** What the three-character test of the hook says about the name. *)
Lemma dotdot_test_iff p :
  no_nul p ->
  (Ascii.eqb (char_at p 0) "." && Ascii.eqb (char_at p 1) "."
   && (Ascii.eqb (char_at p 2) "000" || Ascii.eqb (char_at p 2) "/")) = true
  <-> starts_with_dotdot_component p.
Proof.
  intros Hn. rewrite starts_with_dotdot_iff.
  rewrite !andb_true_iff, orb_true_iff, !Ascii.eqb_eq.
  split.
  - intros [[H0 H1] H2].
    destruct p as [|c0 [|c1 [|c2 q]]]; cbn in H0, H1, H2;
      try discriminate; subst.
    + now left.
    + destruct H2 as [->| ->].
      * cbn in Hn. exfalso. tauto.
      * right. now exists q.
  - intros [->|[q ->]]; cbn; auto.
Qed.

Lemma slash_test_iff p :
  Ascii.eqb (char_at p 0) "/" = true <-> has_slash_prefix p.
Proof.
  rewrite Ascii.eqb_eq. unfold has_slash_prefix. split.
  - destruct p as [|c q]; cbn; [discriminate|]. intros ->. now exists q.
  - intros [q ->]. reflexivity.
Qed.

(** One call of the hook looks at the beginning of the name it is given:
    outside capability mode it returns 0; in capability mode it returns
    CAPMODE exactly when the name begins with a slash or its first
    component is [..]. *)
Lemma path_lookup_one_call (k : kernel) (p : string) :
  no_nul p ->
  (capsicum_in_cap_mode k = false -> capsicum_path_lookup k p = Val 0) /\
  (capsicum_in_cap_mode k = true ->
   (has_slash_prefix p \/ starts_with_dotdot_component p ->
    capsicum_path_lookup k p = Neg ECAPMODE) /\
   (~ (has_slash_prefix p \/ starts_with_dotdot_component p) ->
    capsicum_path_lookup k p = Val 0)).
Proof.
  intros Hn. unfold capsicum_path_lookup. split; [intros ->; reflexivity|].
  intros ->. cbn [negb].
  pose proof (dotdot_test_iff p Hn) as Hd.
  pose proof (slash_test_iff p) as Hs.
  destruct (_ && _ && _) eqn:Ed; destruct (Ascii.eqb (char_at p 0) "/") eqn:Es;
    split; intros H; try reflexivity; exfalso.
  - apply H. right. now apply Hd.
  - apply H. right. now apply Hd.
  - apply H. left. now apply Hs.
  - destruct H as [H|H].
    + apply Hs in H. discriminate.
    + apply Hd in H. discriminate.
Qed.

Lemma path_lookup_values k p :
  capsicum_path_lookup k p = Val 0 \/
  capsicum_path_lookup k p = Neg ECAPMODE.
Proof.
  unfold capsicum_path_lookup.
  destruct (negb _); [now left|].
  destruct (_ && _ && _); [now right|].
  destruct (Ascii.eqb _ _); [now right | now left].
Qed.

Lemma fire_path_lookup_accepts k names :
  fire_path_lookup k names = Val 0 ->
  Forall (fun name => capsicum_path_lookup k name = Val 0) names.
Proof.
  induction names as [|n ns IH]; intros H; [constructor|].
  cbn in H. destruct (path_lookup_values k n) as [E|E]; rewrite E in H.
  - constructor; [exact E | exact (IH H)].
  - discriminate.
Qed.

Lemma components_slash p :
  components (String "/" p) = EmptyString :: components p.
Proof. reflexivity. Qed.

Lemma components_cons c p :
  c <> "/"%char ->
  exists h t, components p = h :: t /\
              components (String c p) = String c h :: t.
Proof.
  intros Hc. simpl. destruct (Ascii.eqb_spec c "/"); [contradiction|].
  destruct (components p) as [|h t] eqn:E.
  - exfalso. now apply (components_nonempty p).
  - now exists h, t.
Qed.

Lemma fire_path_lookup_outside k names :
  capsicum_in_cap_mode k = false -> fire_path_lookup k names = Val 0.
Proof.
  intros Hm. induction names as [|n ns IH]; [reflexivity|].
  cbn. unfold capsicum_path_lookup at 1. rewrite Hm. exact IH.
Qed.

(** The calls after the first: they fail exactly when [..] is among the
    components they are made at, which are all the components of [p] after
    a slash, and the components after the first otherwise. *)
Lemma later_components_dotdot (k : kernel) (p : string) (b : bool) :
  capsicum_in_cap_mode k = true -> no_nul p ->
  (".."%string ∈ (if b then components p else tail (components p)) ->
   fire_path_lookup k (later_components b p) = Neg ECAPMODE) /\
  (".."%string ∉ (if b then components p else tail (components p)) ->
   fire_path_lookup k (later_components b p) = Val 0).
Proof.
  intros Hm. revert b. induction p as [|c p IH]; intros b Hn.
  - destruct b; cbn; split; trivial; intros H.
    + apply list_elem_of_singleton in H. discriminate.
    + inversion H.
  - destruct Hn as [Hc Hn]. cbn [later_components].
    destruct (Ascii.eqb_spec c "/") as [->|Hs].
    + specialize (IH true Hn).
      assert (Hiff : ".."%string ∈
                       (if b then components (String "/" p)
                        else tail (components (String "/" p)))
                     <-> ".."%string ∈ components p).
      { destruct b; rewrite components_slash; cbn [tail];
          [|reflexivity].
        rewrite elem_of_cons. split; [intros [H|H]|]; auto.
        discriminate. }
      unfold not. rewrite Hiff. exact IH.
    + destruct (components_cons c p Hs) as (h & t & Ep & Ecp).
      specialize (IH false Hn). rewrite Ep in IH.
      cbn [tail] in IH. rewrite Ecp. destruct b; cbn [tail].
      * cbn [fire_path_lookup].
        destruct (path_lookup_one_call k (String c p)
                    (conj Hc Hn)) as [_ Hcall].
        destruct (Hcall Hm) as [Hrej Hacc].
        assert (Hhead : starts_with_dotdot_component (String c p)
                        <-> String c h = ".."%string).
        { unfold starts_with_dotdot_component. rewrite Ecp. cbn.
          split; congruence. }
        assert (Hnoslash : ~ has_slash_prefix (String c p))
          by (intros [q [= -> _]]; now apply Hs).
        split.
        -- intros H. apply elem_of_cons in H.
           destruct H as [H|H].
           ++ rewrite Hrej; [reflexivity|]. right. apply Hhead.
              now symmetry.
           ++ destruct (path_lookup_values k (String c p)) as [E|E];
                rewrite E; [now apply (proj1 IH) | reflexivity].
        -- intros H. rewrite Hacc.
           ++ apply (proj2 IH). intros Ht. apply H.
              apply elem_of_cons. now right.
           ++ intros [Hp|Hp]; [contradiction|]. apply H.
              apply elem_of_cons. left. symmetry. now apply Hhead.
      * exact IH.
Qed.

(** C7. The path hook over the lookup of a pathname, fired at each
    component with what is left of the name: outside capability mode the
    hook rejects no name at all; in capability mode the lookup of [p]
    fails with CAPMODE if [p] begins with a slash or has [..] among its
    components, and no call of the hook rejects otherwise. *)
Theorem pathname_lookup_rejects_slash_and_dotdot (k : kernel) (p : string) :
  no_nul p ->
  (capsicum_in_cap_mode k = false ->
   pathname_lookup k p = Val 0 /\
   forall name, capsicum_path_lookup k name = Val 0) /\
  (capsicum_in_cap_mode k = true ->
   (has_slash_prefix p \/ has_dotdot_component p ->
    pathname_lookup k p = Neg ECAPMODE) /\
   (~ (has_slash_prefix p \/ has_dotdot_component p) ->
    pathname_lookup k p = Val 0 /\
    Forall (fun name => capsicum_path_lookup k name = Val 0)
      (lookup_names p))).
Proof.
  intros Hn. unfold pathname_lookup. split.
  { intros Hm. split; [now apply fire_path_lookup_outside|].
    intros name. unfold capsicum_path_lookup. now rewrite Hm. }
  intros Hm.
  destruct (path_lookup_one_call k p Hn) as [_ Hcall].
  destruct (Hcall Hm) as [Hrej Hacc].
  destruct (later_components_dotdot k p false Hm Hn) as [Hlater Hnone].
  assert (Hsplit : has_dotdot_component p <->
                   starts_with_dotdot_component p \/
                   ".."%string ∈ tail (components p)).
  { unfold has_dotdot_component, starts_with_dotdot_component.
    destruct (components p) as [|h t] eqn:E.
    - exfalso. now apply (components_nonempty p).
    - cbn. rewrite elem_of_cons. split.
      + intros [->|H]; auto.
      + intros [[= ->]|H]; auto. }
  assert (Hreject : has_slash_prefix p \/ has_dotdot_component p ->
                    fire_path_lookup k (lookup_names p) = Neg ECAPMODE).
  { intros H. unfold lookup_names. cbn [fire_path_lookup].
    destruct (path_lookup_values k p) as [E|E]; rewrite E;
      [|reflexivity].
    apply Hlater. destruct H as [H|H].
    - rewrite Hrej in E by now left. discriminate.
    - apply Hsplit in H. destruct H as [H|H]; [|exact H].
      rewrite Hrej in E by now right. discriminate. }
  split; [exact Hreject|].
  intros H.
  assert (Hok : fire_path_lookup k (lookup_names p) = Val 0).
  { unfold lookup_names. cbn [fire_path_lookup]. rewrite Hacc.
    - apply Hnone. intros Ht. apply H. right. apply Hsplit. now right.
    - intros [Hp|Hp]; apply H; [now left|]. right. apply Hsplit.
      now left. }
  split; [exact Hok | now apply fire_path_lookup_accepts].
Qed.

Lemma pathname_lookup_rejects_slash_and_dotdot_witness :
  no_nul "a/.." /\ capsicum_in_cap_mode confined = true /\
  has_dotdot_component "a/.." /\
  pathname_lookup confined "a/.." = Neg ECAPMODE.
Proof.
  assert (Hn : no_nul "a/..") by (cbn; repeat split; discriminate).
  assert (Hd : has_dotdot_component "a/..").
  { unfold has_dotdot_component. cbn. apply list_elem_of_In. cbn. auto. }
  split; [exact Hn|]. split; [reflexivity|]. split; [exact Hd|].
  apply (pathname_lookup_rejects_slash_and_dotdot confined "a/.." Hn).
  - reflexivity.
  - right. exact Hd.
Defined.


(** ** Basic facts about objects and pointers *)

Arguments deref : simpl never.
Arguments capsicum_unwrap : simpl never.

Lemma deref_Addr k a f : objs k !! a = Some f -> deref k (Addr a) = Done f.
Proof. intros H. unfold deref. now rewrite H. Qed.

Lemma deref_Done k p f :
  deref k p = Done f -> exists a, p = Addr a /\ objs k !! a = Some f.
Proof.
  unfold deref. destruct p as [|a|e]; try discriminate.
  destruct (objs k !! a) eqn:E; [|discriminate].
  intros [= ->]. eauto.
Qed.

Lemma unwrap_capability f r u r0 :
  is_capability f r u -> capsicum_unwrap f r0 = Done (u, r).
Proof. intros [Hc Hp]. unfold capsicum_unwrap. now rewrite Hc, Hp. Qed.

Lemma unwrap_ordinary f r0 :
  capsicum_is_cap f = false -> capsicum_unwrap f r0 = Done (NULL, r0).
Proof. intros Hc. unfold capsicum_unwrap. now rewrite Hc. Qed.

Lemma file_rights_capability f r u : is_capability f r u -> file_rights f = r.
Proof. intros [Hc Hp]. unfold file_rights. now rewrite Hc, Hp. Qed.

Lemma file_rights_ordinary f :
  capsicum_is_cap f = false -> file_rights f = u64_max.
Proof. intros Hc. unfold file_rights. now rewrite Hc. Qed.

Lemma is_NULL_false p : p <> NULL -> is_NULL p = false.
Proof. destruct p; [contradiction | reflexivity | reflexivity]. Qed.

(** ** File operations on a capability *)

(** C8. On a capability (a wrapper of an ordinary file) every
    member of the file operations table other than release, show_fdinfo
    and flush is fatal; flush is left unset; show_fdinfo reports the
    rights and returns 0; release returns 0 and drops exactly one
    reference of the underlying file, leaving all other files alone. *)
Theorem file_ops_fatal_except_release_fdinfo
    (k : kernel) (a b : nat) (f g : file) (r : Z) :
  objs k !! a = Some f -> is_capability f r (Addr b) ->
  objs k !! b = Some g -> capsicum_is_cap g = false ->
  (forall m, m <> op_release -> m <> op_show_fdinfo -> m <> op_flush ->
             call_file_op k m (Addr a) = Halt PANIC) /\
  capsicum_file_ops_member op_flush = null_handler /\
  capsicum_show_fdinfo k (Addr a) = Done (Val 0, Some r) /\
  call_file_op k op_show_fdinfo (Addr a) = Done (Val 0, k) /\
  exists k',
    call_file_op k op_release (Addr a) = Done (Val 0, k') /\
    objs k' !! b = Some (mkFile (f_op g) (private_data g) (f_count g - 1)) /\
    (forall c, c <> a -> c <> b -> objs k' !! c = objs k !! c).
Proof.
  intros Ha [Hc Hp] Hb Hg.
  assert (Hab : a <> b).
  { intros ->. rewrite Ha in Hb. injection Hb as ->. congruence. }
  split; [|split; [reflexivity|split; [|split]]].
  - intros m H1 H2 H3. destruct m; try reflexivity; contradiction.
  - unfold capsicum_show_fdinfo. rewrite (deref_Addr _ _ _ Ha). cbn.
    now rewrite Hc, Hp.
  - unfold call_file_op, capsicum_show_fdinfo. cbn.
    rewrite (deref_Addr _ _ _ Ha). cbn. now rewrite Hc, Hp.
  - unfold call_file_op, capsicum_release. cbn.
    rewrite (deref_Addr _ _ _ Ha). cbn. rewrite Hc, Hp. cbn.
    unfold fput, add_ref. rewrite (deref_Addr _ _ _ Hb). cbn.
    erewrite deref_Addr
      by (cbn; rewrite list_lookup_insert_ne by congruence; exact Ha).
    cbn. eexists. split; [reflexivity|]. cbn. split.
    + rewrite list_lookup_insert_ne by congruence.
      apply list_lookup_insert_eq. now apply lookup_lt_Some in Hb.
    + intros c H1 H2. now rewrite !list_lookup_insert_ne by congruence.
Qed.

Lemma file_ops_fatal_except_release_fdinfo_witness :
  call_file_op confined op_read (Addr 1%nat) = Halt PANIC /\
  exists k',
    call_file_op confined op_release (Addr 1%nat) = Done (Val 0, k') /\
    objs k' !! 0%nat = Some (mkFile host_file_ops None 0).
Proof.
  destruct (file_ops_fatal_except_release_fdinfo confined 1 0
              read_capability ordinary_file 1)
    as (Hm & _ & _ & _ & k' & Hr & Hb & _);
    [reflexivity | split; reflexivity | reflexivity | reflexivity |].
  split; [apply Hm; discriminate|].
  exists k'. split; [exact Hr | exact Hb].
Defined.

(** show_fdinfo is not release, yet calling it on a wrapper is not
    fatal. *)
Lemma show_fdinfo_not_fatal :
  objs confined !! 1%nat = Some read_capability /\
  is_capability read_capability 1 (Addr 0%nat) /\
  op_show_fdinfo <> op_release /\
  call_file_op confined op_show_fdinfo (Addr 1%nat) = Done (Val 0, confined) /\
  call_file_op confined op_show_fdinfo (Addr 1%nat) <> Halt PANIC.
Proof.
  split; [reflexivity|]. split; [split; reflexivity|].
  split; [discriminate|]. split; [reflexivity | discriminate].
Qed.

(** ** cap_getrights *)

Lemma cap_getrights_badf k fd rightsp :
  fcheck k fd = NULL -> sys_cap_getrights k fd rightsp = Done (Neg EBADF, k).
Proof. intros H. unfold sys_cap_getrights. now rewrite H. Qed.

Lemma cap_getrights_inval k fd rightsp a f :
  fcheck k fd = Addr a -> objs k !! a = Some f ->
  capsicum_is_cap f = false ->
  sys_cap_getrights k fd rightsp = Done (Neg EINVAL, k).
Proof.
  intros H Ha Hc. unfold sys_cap_getrights. rewrite H. cbn.
  rewrite (deref_Addr _ _ _ Ha). cbn. now rewrite Hc.
Qed.

Lemma cap_getrights_copies k fd rightsp a f r u old :
  fcheck k fd = Addr a -> objs k !! a = Some f -> is_capability f r u ->
  umem k !! rightsp = Some old ->
  sys_cap_getrights k fd rightsp =
  Done (Val 0, set_umem k (<[rightsp := r]> (umem k))).
Proof.
  intros H Ha Hc Hu. unfold sys_cap_getrights. rewrite H. cbn.
  rewrite (deref_Addr _ _ _ Ha). cbn. destruct Hc as [Hc Hp].
  rewrite Hc. cbn. unfold capsicum_unwrap. rewrite Hc, Hp. cbn.
  unfold put_user. now rewrite Hu.
Qed.

(** With a capability at [fd], the call returns 0 whether or not the
    rights could be stored at [rightsp]. *)
Lemma cap_getrights_never_faults k fd rightsp a f r u :
  fcheck k fd = Addr a -> objs k !! a = Some f -> is_capability f r u ->
  exists k', sys_cap_getrights k fd rightsp = Done (Val 0, k').
Proof.
  intros H Ha Hc. unfold sys_cap_getrights. rewrite H. cbn.
  rewrite (deref_Addr _ _ _ Ha). cbn. destruct Hc as [Hc Hp].
  rewrite Hc. cbn. unfold capsicum_unwrap. rewrite Hc, Hp. cbn.
  destruct (put_user k r rightsp). eauto.
Qed.

(** C9. With a capability at fd 0 and address 2000 not writable,
    put_user fails with EFAULT; cap_getrights returns 0 all the same and
    leaves the state as it was. *)
Theorem cap_getrights_ignores_fault :
  fcheck confined 0 = Addr 1%nat /\
  is_capability read_capability 1 (Addr 0%nat) /\
  put_user confined 1 2000 = (Neg EFAULT, confined) /\
  sys_cap_getrights confined 0 2000 = Done (Val 0, confined).
Proof.
  split; [reflexivity|]. split; [split; reflexivity|].
  split; reflexivity.
Qed.

(** ** The descriptor lookup hook *)

Section LookupLoop.
Variables (p : capsicum_pending_syscall) (fd : Z) (file : fileptr).

Lemma lookup_loop_mismatch n : forall i found,
  (exists j, (i <= j < i + n)%nat /\ fds_at p j = fd /\ files_at p j <> file) ->
  lookup_loop p fd file i n found = None.
Proof.
  induction n as [|n IH]; intros i found (j & Hj & Hfd & Hfile); [lia|].
  cbn. destruct (decide (fds_at p i = fd)) as [Hi|Hi].
  - destruct (decide (files_at p i = file)) as [Hf|Hf]; [|reflexivity].
    assert (j <> i) by congruence.
    apply IH. exists j. split; [lia | split; assumption].
  - assert (j <> i) by congruence.
    apply IH. exists j. split; [lia | split; assumption].
Qed.

Lemma lookup_loop_found n : forall i found,
  (forall j, (i <= j < i + n)%nat -> fds_at p j = fd -> files_at p j = file) ->
  found = true \/ (exists j, (i <= j < i + n)%nat /\ fds_at p j = fd) ->
  lookup_loop p fd file i n found = Some true.
Proof.
  induction n as [|n IH]; intros i found Hall Hex.
  - cbn. destruct Hex as [->|(j & Hj & _)]; [reflexivity | lia].
  - cbn. destruct (decide (fds_at p i = fd)) as [Hi|Hi].
    + destruct (decide (files_at p i = file)) as [Hf|Hf].
      * apply IH; [|now left]. intros j Hj. apply Hall. lia.
      * exfalso. apply Hf, Hall; [lia | assumption].
    + apply IH.
      * intros j Hj. apply Hall. lia.
      * destruct Hex as [->|(j & Hj & Hfd)]; [now left|]. right.
        assert (j <> i) by congruence.
        exists j. split; [lia | assumption].
Qed.

Lemma lookup_loop_absent n : forall i found,
  (forall j, (i <= j < i + n)%nat -> fds_at p j <> fd) ->
  lookup_loop p fd file i n found = Some found.
Proof.
  induction n as [|n IH]; intros i found Hall; [reflexivity|].
  cbn. destruct (decide (fds_at p i = fd)) as [Hi|Hi].
  - exfalso. apply (Hall i); [lia | assumption].
  - apply IH. intros j Hj. apply Hall. lia.
Qed.

End LookupLoop.

Lemma recorded_range p i fd file :
  recorded p i fd file <->
  (0 <= i < 0 + Z.to_nat (next_free p))%nat /\
  fds_at p i = fd /\ files_at p i = file.
Proof. unfold recorded. split; intros (H1 & H2 & H3); repeat split; trivial; lia. Qed.

(** The hook on a capability, in capability mode, with a record. *)
Lemma file_lookup_in_cap_mode k pending file fd f r u :
  capsicum_in_cap_mode k = true ->
  capsicum_get_pending_syscall k = Some pending ->
  deref k file = Done f -> is_capability f r u -> u <> NULL ->
  capsicum_file_lookup k file fd =
  match lookup_loop pending fd file 0 (Z.to_nat (next_free pending)) false
  with
  | None => Done NULL
  | Some true => Done u
  | Some false => Halt BUG
  end.
Proof.
  intros Hm Hp Hd Hc Hu. unfold capsicum_file_lookup.
  rewrite Hd. cbn. rewrite (unwrap_capability _ _ _ _ Hc). cbn.
  rewrite (is_NULL_false _ Hu), Hp, Hm. reflexivity.
Qed.

(** C1. In capability mode and with a record of its own, the
    lookup of a capability at [fd] is denied (NULL, so the caller fails
    with BADF) as soon as one entry recording [fd] holds another file, also
    when other entries for [fd] match; it returns the underlying file when
    at least one entry records [fd] and every entry recording [fd] holds
    this file; when no entry records [fd] the hook hits its BUG_ON.  In
    particular, with [fd] recorded twice and swapped afterwards, the
    lookup is denied, every time it is made. *)
Theorem file_lookup_checks_every_entry
    (k : kernel) (pending : capsicum_pending_syscall) (f : file)
    (file : fileptr) (fd : Z) (r : Z) (u : fileptr) :
  capsicum_in_cap_mode k = true ->
  capsicum_get_pending_syscall k = Some pending ->
  deref k file = Done f -> is_capability f r u -> u <> NULL ->
  ((exists i file', recorded pending i fd file' /\ file' <> file) ->
   capsicum_file_lookup k file fd = Done NULL) /\
  ((exists i, recorded pending i fd file) ->
   (forall i file', recorded pending i fd file' -> file' = file) ->
   capsicum_file_lookup k file fd = Done u) /\
  ((forall i file', ~ recorded pending i fd file') ->
   capsicum_file_lookup k file fd = Halt BUG) /\
  (forall i j old, i <> j ->
     recorded pending i fd old -> recorded pending j fd old ->
     old <> file ->
     capsicum_file_lookup k file fd = Done NULL).
Proof.
  intros Hm Hp Hd Hc Hu.
  rewrite (file_lookup_in_cap_mode _ _ _ fd _ _ _ Hm Hp Hd Hc Hu).
  assert (Hdeny : (exists i file', recorded pending i fd file' /\ file' <> file) ->
                  match lookup_loop pending fd file 0
                          (Z.to_nat (next_free pending)) false with
                  | None => Done NULL
                  | Some true => Done u
                  | Some false => Halt BUG
                  end = Done NULL).
  { intros (i & file' & Hr & Hne). apply recorded_range in Hr.
    destruct Hr as (Hi & Hfd & Hfile).
    rewrite lookup_loop_mismatch; [reflexivity|].
    exists i. repeat split; try lia; trivial. congruence. }
  split; [exact Hdeny|]. split; [|split].
  - intros (i & Hr) Hall. apply recorded_range in Hr.
    destruct Hr as (Hi & Hfd & Hfile).
    rewrite lookup_loop_found; [reflexivity| |].
    + intros j Hj Hjfd. apply (Hall j). apply recorded_range.
      repeat split; trivial; lia.
    + right. exists i. split; [lia | assumption].
  - intros Hnone. rewrite lookup_loop_absent; [reflexivity|].
    intros j Hj Hjfd. apply (Hnone j (files_at pending j)).
    apply recorded_range. repeat split; trivial; lia.
  - intros i j old _ Hi _ Hne. apply Hdeny. eauto.
Qed.

Lemma file_lookup_checks_every_entry_witness :
  capsicum_file_lookup
    (confined_with (record_of [0; 0; 5; 0; 0; 0]
                     [Addr 0%nat; Addr 0%nat; NULL; NULL; NULL; NULL]
                     2 NULL 0))
    (Addr 1%nat) 0 = Done NULL /\
  capsicum_file_lookup
    (confined_with (record_of [0; 0; 5; 0; 0; 0]
                     [Addr 1%nat; Addr 1%nat; NULL; NULL; NULL; NULL]
                     2 NULL 0))
    (Addr 1%nat) 0 = Done (Addr 0%nat).
Proof.
  split.
  - pose proof (file_lookup_checks_every_entry
                  (confined_with (record_of [0; 0; 5; 0; 0; 0]
                     [Addr 0%nat; Addr 0%nat; NULL; NULL; NULL; NULL]
                     2 NULL 0))
                  _ read_capability (Addr 1%nat) 0 1 (Addr 0%nat)
                  eq_refl eq_refl eq_refl (conj eq_refl eq_refl)
                  ltac:(discriminate)) as (_ & _ & _ & H).
    apply (H 0%nat 1%nat (Addr 0%nat)).
    + discriminate.
    + split; [reflexivity | split; reflexivity].
    + split; [reflexivity | split; reflexivity].
    + discriminate.
  - pose proof (file_lookup_checks_every_entry
                  (confined_with (record_of [0; 0; 5; 0; 0; 0]
                     [Addr 1%nat; Addr 1%nat; NULL; NULL; NULL; NULL]
                     2 NULL 0))
                  _ read_capability (Addr 1%nat) 0 1 (Addr 0%nat)
                  eq_refl eq_refl eq_refl (conj eq_refl eq_refl)
                  ltac:(discriminate)) as (_ & H & _).
    apply H.
    + exists 0%nat. split; [reflexivity | split; reflexivity].
    + intros i file' (Hi & Hfd & Hfile). cbn in Hi.
      destruct i as [|[|i]]; [now rewrite <- Hfile .. | lia].
Defined.

(** With nothing recorded, every entry recording fd 0 matches (there is
    none), yet the lookup of the capability at fd 0 does not return the
    underlying file: it stops at the BUG_ON. *)
Lemma file_lookup_unrecorded_fd_halts :
  capsicum_in_cap_mode (confined_with empty_record) = true /\
  capsicum_get_pending_syscall (confined_with empty_record)
    = Some empty_record /\
  deref (confined_with empty_record) (Addr 1%nat) = Done read_capability /\
  is_capability read_capability 1 (Addr 0%nat) /\
  (forall i file', recorded empty_record i 0 file' -> file' = Addr 1%nat) /\
  capsicum_file_lookup (confined_with empty_record) (Addr 1%nat) 0
    = Halt BUG /\
  capsicum_file_lookup (confined_with empty_record) (Addr 1%nat) 0
    <> Done (Addr 0%nat).
Proof.
  repeat split; try reflexivity; try discriminate.
  intros i file' (Hi & _). cbn in Hi. lia.
Qed.

(** C10. Outside capability mode, or without a record of its own, the
    lookup of a capability returns its underlying file whatever the rights
    and whatever any record says; when that file is an ordinary file, this
    is also what looking the underlying file up gives. *)
Theorem file_lookup_outside_cap_mode
    (k : kernel) (f : file) (file : fileptr) (fd : Z) (r : Z)
    (u : fileptr) :
  deref k file = Done f -> is_capability f r u -> u <> NULL ->
  capsicum_in_cap_mode k = false \/ capsicum_get_pending_syscall k = None ->
  capsicum_file_lookup k file fd = Done u /\
  (forall g, deref k u = Done g -> capsicum_is_cap g = false ->
             capsicum_file_lookup k u fd = capsicum_file_lookup k file fd).
Proof.
  intros Hd Hc Hu Hmode.
  assert (H : capsicum_file_lookup k file fd = Done u).
  { unfold capsicum_file_lookup. rewrite Hd. cbn.
    rewrite (unwrap_capability _ _ _ _ Hc). cbn.
    rewrite (is_NULL_false _ Hu).
    destruct Hmode as [->| ->]; [|reflexivity].
    destruct (capsicum_get_pending_syscall k); reflexivity. }
  split; [exact H|]. intros g Hg Hgc. rewrite H.
  unfold capsicum_file_lookup. rewrite Hg. cbn.
  now rewrite (unwrap_ordinary _ _ Hgc).
Qed.

Lemma file_lookup_outside_cap_mode_witness :
  capsicum_in_cap_mode outside = false /\
  capsicum_file_lookup outside (Addr 1%nat) 0 = Done (Addr 0%nat).
Proof.
  split; [reflexivity|].
  apply (file_lookup_outside_cap_mode outside read_capability (Addr 1%nat)
           0 1 (Addr 0%nat)).
  - reflexivity.
  - split; reflexivity.
  - discriminate.
  - left. reflexivity.
Defined.

(** ** The rights check of the interceptor *)

(** C6. The current-directory value fails CAPMODE whatever
    else holds; an fd that does not resolve fails BADF; for an fd that
    resolves, a record with no room left fails NOMEM and records nothing;
    otherwise the pair (fd, file) is recorded at position [next_free], the
    entries before it stay, and the check succeeds exactly when the
    file's rights (all ones for an ordinary file) cover the required
    rights, failing NOTCAPABLE if not. *)
Theorem require_rights_cases
    (k : kernel) (p : capsicum_pending_syscall) (fd required : Z) :
  (fd = AT_FDCWD ->
   capsicum_require_rights k p fd required = Done (Neg ECAPMODE, p)) /\
  (fd <> AT_FDCWD -> fcheck k fd = NULL ->
   capsicum_require_rights k p fd required = Done (Neg EBADF, p)) /\
  (forall a f,
     fd <> AT_FDCWD -> fcheck k fd = Addr a -> objs k !! a = Some f ->
     (capsicum_is_cap f = true -> is_Some (private_data f)) ->
     (fd_count p <= next_free p ->
      capsicum_require_rights k p fd required = Done (Neg ENOMEM, p)) /\
     (0 <= next_free p < fd_count p -> pending_wf p ->
      exists p',
        capsicum_require_rights k p fd required =
          Done (if decide (Z.land (file_rights f) required = required)
                then Val 0 else Neg ENOTCAPABLE, p') /\
        next_free p' = next_free p + 1 /\
        recorded p' (Z.to_nat (next_free p)) (to_uint fd) (Addr a) /\
        (forall i fd' file',
           recorded p i fd' file' -> recorded p' i fd' file'))).
Proof.
  unfold capsicum_require_rights. split; [|split].
  - intros ->. reflexivity.
  - intros Hne Hnull. rewrite Hnull.
    destruct (decide (fd = AT_FDCWD)); [contradiction | reflexivity].
  - intros a f Hne Hfd Ha Hpd. rewrite Hfd. cbn [is_NULL].
    destruct (decide (fd = AT_FDCWD)); [contradiction|].
    rewrite (deref_Addr _ _ _ Ha). cbn [obind].
    assert (Hu : exists u, capsicum_unwrap f u64_max = Done (u, file_rights f)).
    { unfold capsicum_unwrap, file_rights.
      destruct (capsicum_is_cap f) eqn:Hc; cbn; [|eauto].
      destruct (Hpd eq_refl) as [c ->]. eauto. }
    destruct Hu as [u ->]. cbn [obind].
    split.
    + intros Hfull. destruct (decide (fd_count p <= next_free p)); [|lia].
      reflexivity.
    + intros Hroom [Hl1 Hl2].
      destruct (decide (fd_count p <= next_free p)); [lia|].
      eexists. split.
      { destruct (decide (Z.land (file_rights f) required = required));
          reflexivity. }
      split; [reflexivity|]. split.
      * unfold recorded, fds_at, files_at. cbn.
        rewrite !list_lookup_insert_eq by lia. cbn.
        repeat split. lia.
      * intros i fd' file' (Hi & Hifd & Hifile).
        unfold recorded, fds_at, files_at in *. cbn.
        rewrite !list_lookup_insert_ne by lia.
        repeat split; trivial. lia.
Qed.

Lemma require_rights_cases_witness :
  capsicum_require_rights confined empty_record AT_FDCWD 1
    = Done (Neg ECAPMODE, empty_record) /\
  capsicum_require_rights confined empty_record 2 1
    = Done (Neg EBADF, empty_record) /\
  capsicum_require_rights confined full_record 0 1
    = Done (Neg ENOMEM, full_record) /\
  exists p',
    capsicum_require_rights confined empty_record 0 3
      = Done (Neg ENOTCAPABLE, p') /\
    recorded p' 0 0 (Addr 1%nat).
Proof.
  split; [apply (require_rights_cases confined empty_record AT_FDCWD 1);
          reflexivity|].
  split; [apply (require_rights_cases confined empty_record 2 1);
          [discriminate | reflexivity]|].
  split.
  - pose proof (proj2 (proj2 (require_rights_cases confined full_record 0 1))
                  1%nat read_capability ltac:(discriminate) eq_refl eq_refl
                  ltac:(intros _; eexists; reflexivity)) as [H _].
    apply H. cbn. lia.
  - pose proof (proj2 (proj2 (require_rights_cases confined empty_record 0 3))
                  1%nat read_capability ltac:(discriminate) eq_refl eq_refl
                  ltac:(intros _; eexists; reflexivity)) as [_ H].
    destruct H as (p' & Hr & _ & Hrec & _);
      [cbn; lia | split; reflexivity |].
    exists p'. split; [exact Hr | exact Hrec].
Defined.

(** An fd that resolves to an ordinary file and asks for no right at all:
    with the record full, the pair is not recorded and the check fails
    NOMEM, though the rights cover what is required. *)
Lemma require_rights_full_record_nomem :
  3 <> AT_FDCWD /\
  fcheck confined 3 = Addr 0%nat /\
  objs confined !! 0%nat = Some ordinary_file /\
  Z.land (file_rights ordinary_file) 0 = 0 /\
  capsicum_require_rights confined full_record 3 0
    = Done (Neg ENOMEM, full_record) /\
  capsicum_require_rights confined full_record 3 0
    <> Done (Val 0, full_record) /\
  (forall i, ~ recorded full_record i 3 (Addr 0%nat)).
Proof.
  repeat split; try reflexivity; try discriminate.
  intros i (_ & Hfd & _).
  destruct i as [|[|[|[|[|[|i]]]]]]; cbn in Hfd; discriminate.
Qed.

(** ** cap_new *)

Lemma get_unused_fd_slot k nfd :
  get_unused_fd k = Val nfd ->
  exists i, nfd = Z.of_nat i /\ (i <= length (fdtab k))%nat /\
            (i < nofile k)%nat.
Proof.
  unfold get_unused_fd.
  destruct (list_find _ (fdtab k)) as [[i x]|] eqn:E.
  - apply list_find_Some in E. destruct E as (Hi & _ & _).
    apply lookup_lt_Some in Hi.
    destruct (decide (i < nofile k)%nat); [|discriminate].
    intros [= <-]. exists i. repeat split; lia.
  - destruct (decide (length (fdtab k) < nofile k)%nat); [|discriminate].
    intros [= <-]. exists (length (fdtab k)). repeat split; lia.
Qed.

Lemma fd_install_lookup k i p :
  (i <= length (fdtab k))%nat ->
  fdtab (fd_install k (Z.of_nat i) p) !! i = Some p.
Proof.
  intros Hi. unfold fd_install. rewrite Nat2Z.id.
  destruct (decide (i < length (fdtab k))%nat).
  - cbn. now apply list_lookup_insert_eq.
  - cbn. replace (i - length (fdtab k))%nat with 0%nat by lia. cbn.
    replace i with (length (fdtab k) + 0)%nat by lia.
    now rewrite lookup_app_r, Nat.add_comm, Nat.add_sub by lia.
Qed.

Lemma get_file_Addr k b g :
  objs k !! b = Some g ->
  get_file k (Addr b) =
  Done (set_objs k
          (<[b := mkFile (f_op g) (private_data g) (f_count g + 1)]>
             (objs k))).
Proof.
  intros H. unfold get_file, add_ref. now rewrite (deref_Addr _ _ _ H).
Qed.

Lemma cap_alloc_ok k :
  (2 <= kmem k)%nat ->
  capsicum_cap_alloc k =
  (Addr (length (objs k)),
   set_kmem
     (set_objs k
        (objs k ++ [mkFile capsicum_file_ops (Some (mkCap 0 NULL)) 1]))
     (kmem k - 2)).
Proof.
  intros H. unfold capsicum_cap_alloc.
  destruct (kmem k) as [|[|n]]; try lia.
  now replace (S (S n) - 2)%nat with n by lia.
Qed.

Lemma cap_set_ok k w c under r :
  objs k !! w = Some c -> capsicum_is_cap c = true ->
  is_Some (private_data c) ->
  capsicum_cap_set k (Addr w) under r =
  Done (set_objs k
          (<[w := mkFile (f_op c) (Some (mkCap r under)) (f_count c)]>
             (objs k))).
Proof.
  intros Hw Hc [d Hd]. unfold capsicum_cap_set.
  rewrite (deref_Addr _ _ _ Hw). cbn. now rewrite Hc, Hd.
Qed.

(** [capsicum_install_fd] on an ordinary file, with a free slot and
    memory at hand. *)
Lemma install_fd_spec k b g r nfd :
  objs k !! b = Some g -> capsicum_is_cap g = false ->
  get_unused_fd k = Val nfd -> (2 <= kmem k)%nat ->
  exists k',
    capsicum_install_fd k (Addr b) r = Done (Val nfd, k') /\
    fdtab k' !! Z.to_nat nfd = Some (Addr (length (objs k))) /\
    objs k' !! length (objs k) =
      Some (mkFile capsicum_file_ops (Some (mkCap r (Addr b))) 1) /\
    objs k' !! b = Some (mkFile (f_op g) (private_data g) (f_count g + 1)).
Proof.
  intros Hb Hg Hfd Hmem.
  destruct (get_unused_fd_slot _ _ Hfd) as (i & -> & Hi & _).
  pose proof (lookup_lt_Some _ _ _ Hb) as Hlt.
  unfold capsicum_install_fd. rewrite Hfd, (cap_alloc_ok _ Hmem).
  erewrite deref_Addr by (cbn; rewrite lookup_app_l by lia; exact Hb).
  cbn [obind]. rewrite Hg. cbn [obind].
  erewrite get_file_Addr by (cbn; rewrite lookup_app_l by lia; exact Hb).
  cbn [obind].
  erewrite cap_set_ok; cycle 1.
  { cbn. rewrite list_lookup_insert_ne by lia.
    rewrite lookup_app_r by lia. rewrite Nat.sub_diag. reflexivity. }
  { reflexivity. }
  { cbn. eauto. }
  cbn [obind]. eexists. split; [reflexivity|]. split; [|split].
  - rewrite Nat2Z.id. now apply fd_install_lookup.
  - unfold fd_install. destruct (decide _); cbn;
      apply list_lookup_insert_eq;
      rewrite length_insert, length_app; cbn; lia.
  - unfold fd_install. destruct (decide _); cbn;
      (rewrite list_lookup_insert_ne by lia);
      apply list_lookup_insert_eq; rewrite length_app; cbn; lia.
Qed.

Lemma land_u64_max r : 0 <= r <= u64_max -> Z.land r u64_max = r.
Proof.
  intros H. unfold u64_max in *.
  change (2 ^ 64 - 1) with (Z.ones 64).
  rewrite Z.land_ones by lia. apply Z.mod_small. lia.
Qed.

Lemma land_narrows r R : Z.land (Z.land r R) R = Z.land r R.
Proof. now rewrite <- Z.land_assoc, Z.land_diag. Qed.

Lemma land_monotone r1 r2 R :
  Z.land r1 r2 = r1 ->
  Z.land (Z.land r1 R) (Z.land r2 R) = Z.land r1 R.
Proof.
  intros H.
  rewrite (Z.land_comm r2 R), Z.land_assoc, <- (Z.land_assoc r1 R R).
  rewrite Z.land_diag, <- Z.land_assoc, (Z.land_comm R r2), Z.land_assoc.
  now rewrite H.
Qed.

(** C4. When [orig_fd] resolves to a file (an ordinary live file, or a
    capability of one) and a descriptor and memory are to be had,
    cap_new(orig_fd, new_rights) returns a new fd holding a capability
    of the ordinary file whose rights are [new_rights] intersected with
    the rights of [orig_fd]; for an ordinary file, whose rights are all
    ones, that is [new_rights] itself.  The new rights never exceed the
    old ones, and a smaller request gives smaller rights. *)
Theorem cap_new_intersects_rights
    (k : kernel) (f g : file) (orig_fd new_rights nfd : Z) (a b : nat) :
  capsicum_enabled k = true ->
  fcheck k orig_fd = Addr a -> objs k !! a = Some f ->
  wrapped_file a f = Some b -> objs k !! b = Some g ->
  capsicum_is_cap g = false -> f_count g <> 0 ->
  get_unused_fd k = Val nfd -> (2 <= kmem k)%nat ->
  exists k' w c,
    sys_cap_new k orig_fd new_rights = Done (Val nfd, k') /\
    fdtab k' !! Z.to_nat nfd = Some (Addr w) /\
    objs k' !! w = Some c /\
    is_capability c (Z.land new_rights (file_rights f)) (Addr b) /\
    file_rights c = Z.land new_rights (file_rights f) /\
    (capsicum_is_cap f = false -> 0 <= new_rights <= u64_max ->
     file_rights c = new_rights) /\
    (Z.land new_rights (file_rights f) = new_rights ->
     file_rights c = new_rights) /\
    Z.land (file_rights c) (file_rights f) = file_rights c /\
    (forall r2, Z.land new_rights r2 = new_rights ->
       Z.land (file_rights c) (Z.land r2 (file_rights f)) = file_rights c).
Proof.
  intros Hen Hfd Ha Hw Hb Hg Hcnt Hslot Hmem.
  unfold sys_cap_new, do_sys_cap_new. rewrite Hen, Hfd. cbn [negb is_NULL].
  rewrite (deref_Addr _ _ _ Ha). cbn [obind].
  assert (Hun : (if capsicum_is_cap f
                 then capsicum_unwrap f u64_max
                 else Done (Addr a, u64_max)) = Done (Addr b, file_rights f)).
  { unfold wrapped_file in Hw. unfold capsicum_unwrap, file_rights.
    destruct (capsicum_is_cap f); cbn [negb].
    - destruct (private_data f) as [[r0 u0]|]; [|discriminate].
      cbn in *. destruct u0; try discriminate. now injection Hw as ->.
    - now injection Hw as ->. }
  rewrite Hun. cbn [obind is_NULL].
  rewrite (deref_Addr _ _ _ Hb). cbn [obind].
  destruct (decide (f_count g = 0)); [contradiction|].
  rewrite (get_file_Addr _ _ _ Hb). cbn [obind].
  pose proof (lookup_lt_Some _ _ _ Hb) as Hlt.
  destruct (install_fd_spec
              (set_objs k
                 (<[b := mkFile (f_op g) (private_data g) (f_count g + 1)]>
                    (objs k)))
              b (mkFile (f_op g) (private_data g) (f_count g + 1))
              (Z.land new_rights (file_rights f)) nfd)
    as (k' & Hr & Htab & Hobj & _).
  { cbn. now apply list_lookup_insert_eq. }
  { exact Hg. }
  { exact Hslot. }
  { exact Hmem. }
  exists k', (length (objs k)),
    (mkFile capsicum_file_ops
       (Some (mkCap (Z.land new_rights (file_rights f)) (Addr b))) 1).
  cbn in Htab, Hobj. rewrite length_insert in Htab, Hobj.
  split; [exact Hr|]. split; [exact Htab|]. split; [exact Hobj|].
  assert (Hcap : is_capability
            (mkFile capsicum_file_ops
               (Some (mkCap (Z.land new_rights (file_rights f)) (Addr b))) 1)
            (Z.land new_rights (file_rights f)) (Addr b))
    by (split; reflexivity).
  split; [exact Hcap|].
  rewrite (file_rights_capability _ _ _ Hcap).
  split; [reflexivity|]. split; [|split; [|split]].
  - intros Hf Hr0. rewrite (file_rights_ordinary _ Hf).
    now apply land_u64_max.
  - trivial.
  - apply land_narrows.
  - intros r2 H2. now apply land_monotone.
Qed.

Lemma cap_new_intersects_rights_witness :
  exists k' w c,
    sys_cap_new confined 0 3 = Done (Val 1, k') /\
    fdtab k' !! 1%nat = Some (Addr w) /\
    objs k' !! w = Some c /\
    is_capability c 1 (Addr 0%nat).
Proof.
  destruct (cap_new_intersects_rights confined read_capability ordinary_file
              0 3 1 1 0)
    as (k' & w & c & H1 & H2 & H3 & H4 & _);
    try reflexivity; try discriminate; [cbn; lia|].
  exists k', w, c. repeat split; try assumption; apply H4.
Defined.

(** ** Flat capabilities *)

Lemma obind_Done {A B} (m : outcome A) (h : A -> outcome B) (b : B) :
  obind m h = Done b -> exists a, m = Done a /\ h a = Done b.
Proof. destruct m as [a|]; cbn; [eauto | discriminate]. Qed.

Ltac inv_bind H :=
  let x := fresh "x" in
  let E := fresh "E" in
  apply obind_Done in H; destruct H as (x & E & H).

Lemma is_cap_mkFile f pd c :
  capsicum_is_cap (mkFile (f_op f) pd c) = capsicum_is_cap f.
Proof. reflexivity. Qed.

(** [flat_obj] looks at the store only to see which objects are
    capabilities. *)
Lemma flat_obj_ext o o' x :
  (forall b, capsicum_is_cap <$> o' !! b = capsicum_is_cap <$> o !! b) ->
  flat_obj o' x = flat_obj o x.
Proof.
  intros H. unfold flat_obj.
  destruct (capsicum_is_cap x); [|reflexivity].
  destruct (private_data x) as [cap|]; [|reflexivity].
  destruct (underlying cap) as [|b|]; try reflexivity.
  specialize (H b).
  destruct (o' !! b), (o !! b); cbn in H; try discriminate;
    [now injection H as -> | reflexivity].
Qed.

Lemma flat_obj_app o l x : flat_obj o x = true -> flat_obj (o ++ l) x = true.
Proof.
  unfold flat_obj.
  destruct (capsicum_is_cap x); [|reflexivity].
  destruct (private_data x) as [cap|]; [|reflexivity].
  destruct (underlying cap) as [|b|]; try easy.
  destruct (o !! b) as [g|] eqn:E; [|discriminate].
  now rewrite (lookup_app_l_Some _ _ _ _ E).
Qed.

Lemma flat_store_update o a f f' :
  flat_store o -> o !! a = Some f -> f_op f' = f_op f ->
  flat_obj o f' = true -> flat_store (<[a := f']> o).
Proof.
  intros Hflat Ha Hop Hf'. unfold flat_store in *.
  assert (Hext : forall b,
            capsicum_is_cap <$> <[a := f']> o !! b
            = capsicum_is_cap <$> o !! b).
  { intros b. destruct (decide (a = b)) as [<-|Hne].
    - rewrite list_lookup_insert_eq by (now apply lookup_lt_Some in Ha).
      rewrite Ha. cbn. unfold capsicum_is_cap. now rewrite Hop.
    - now rewrite list_lookup_insert_ne. }
  apply Forall_insert.
  - eapply Forall_impl; [exact Hflat|]. intros x Hx.
    now rewrite (flat_obj_ext _ _ _ Hext).
  - now rewrite (flat_obj_ext _ _ _ Hext).
Qed.

Lemma flat_store_app o n :
  flat_store o -> flat_obj (o ++ [n]) n = true -> flat_store (o ++ [n]).
Proof.
  intros Hflat Hn. unfold flat_store in *. apply Forall_app. split.
  - eapply Forall_impl; [exact Hflat|]. intros x Hx.
    now apply flat_obj_app.
  - now constructor.
Qed.

Lemma flat_store_lookup o a f :
  flat_store o -> o !! a = Some f -> flat_obj o f = true.
Proof.
  intros Hflat Ha. unfold flat_store in Hflat.
  rewrite Forall_lookup in Hflat. exact (Hflat a f Ha).
Qed.

(** What a capability of a flat store wraps is no capability. *)
Lemma flat_underlying o a c r b g :
  flat_store o -> o !! a = Some c -> is_capability c r (Addr b) ->
  o !! b = Some g -> capsicum_is_cap g = false.
Proof.
  intros Hflat Ha [Hc Hp] Hb.
  pose proof (flat_store_lookup _ _ _ Hflat Ha) as H.
  unfold flat_obj in H. rewrite Hc, Hp in H. cbn in H. rewrite Hb in H.
  now apply negb_true_iff in H.
Qed.

Lemma flat_objs_eq k k' : objs k' = objs k -> flat k -> flat k'.
Proof. unfold flat. now intros ->. Qed.

Lemma flat_add_ref k p d k' : flat k -> add_ref k p d = Done k' -> flat k'.
Proof.
  intros Hflat H. unfold add_ref in H. inv_bind H.
  apply deref_Done in E. destruct E as (a & -> & Ha).
  injection H as <-. unfold flat. cbn.
  eapply flat_store_update; [exact Hflat | exact Ha | reflexivity |].
  exact (flat_store_lookup _ _ _ Hflat Ha).
Qed.

Lemma flat_cap_alloc k p k' :
  flat k -> capsicum_cap_alloc k = (p, k') -> flat k'.
Proof.
  intros Hflat H. unfold capsicum_cap_alloc in H.
  destruct (kmem k) as [|[|n]]; injection H as <- <-; trivial.
  unfold flat. cbn. now apply flat_store_app.
Qed.

Lemma flat_cap_set k capf b g r k' :
  flat k -> objs k !! b = Some g -> capsicum_is_cap g = false ->
  capsicum_cap_set k capf (Addr b) r = Done k' -> flat k'.
Proof.
  intros Hflat Hb Hg H. unfold capsicum_cap_set in H. inv_bind H.
  apply deref_Done in E. destruct E as (w & -> & Hw).
  destruct (capsicum_is_cap x) eqn:Hc; [|discriminate]. cbn in H.
  destruct (private_data x); [|discriminate]. injection H as <-.
  unfold flat. cbn.
  eapply flat_store_update; [exact Hflat | exact Hw | reflexivity |].
  unfold flat_obj. rewrite is_cap_mkFile, Hc. cbn. now rewrite Hb, Hg.
Qed.

Lemma flat_fd_install k fd p : flat k -> flat (fd_install k fd p).
Proof.
  intros H. unfold fd_install. destruct (decide _); exact H.
Qed.

Lemma flat_install_fd k orig r ret k' :
  flat k -> capsicum_install_fd k orig r = Done (ret, k') -> flat k'.
Proof.
  intros Hflat H. unfold capsicum_install_fd in H.
  destruct (get_unused_fd k) as [fd|e]; [|now injection H as <- <-].
  destruct (capsicum_cap_alloc k) as [file k1] eqn:Ea.
  pose proof (flat_cap_alloc _ _ _ Hflat Ea) as Hflat1.
  assert (Hbody :
    (do o <- deref k1 orig;
     do orig' <-
       (if capsicum_is_cap o
        then do '(u, _) <- capsicum_unwrap o 0; Done u
        else Done orig);
     do k2 <- get_file k1 orig';
     do k3 <- capsicum_cap_set k2 file orig' r;
     Done (Val fd, fd_install k3 fd file)) = Done (ret, k') -> flat k').
  { clear H. intros H. inv_bind H. rename x into o.
    apply deref_Done in E. destruct E as (a & -> & Ha).
    inv_bind H. rename x into orig'. inv_bind H. rename x into k2.
    inv_bind H. rename x into k3. injection H as <- <-.
    apply flat_fd_install.
    pose proof (flat_add_ref _ _ _ _ Hflat1 E0) as Hflat2.
    unfold get_file, add_ref in E0. inv_bind E0.
    apply deref_Done in E2. destruct E2 as (b & -> & Hb).
    injection E0 as <-.
    assert (Hg : capsicum_is_cap x = false).
    { destruct (capsicum_is_cap o) eqn:Hc.
      - inv_bind E. destruct x0 as [u r0]. injection E as ->.
        unfold capsicum_unwrap in E0. rewrite Hc in E0. cbn in E0.
        destruct (private_data o) as [[r1 u1]|] eqn:Hp; [|discriminate].
        injection E0 as -> ->.
        eapply (flat_underlying (objs k1) a o r0 b x); eauto.
        split; assumption.
      - injection E as <-. rewrite Ha in Hb. now injection Hb as <-. }
    eapply flat_cap_set; [exact Hflat2 | | | exact E1].
    + cbn. apply list_lookup_insert_eq. now apply lookup_lt_Some in Hb.
    + exact Hg. }
  destruct file; [now apply Hbody | now apply Hbody |].
  now injection H as <- <-.
Qed.

Lemma flat_do_sys_cap_new k fd r ret k' :
  flat k -> do_sys_cap_new k fd r = Done (ret, k') -> flat k'.
Proof.
  intros Hflat H. unfold do_sys_cap_new in H.
  destruct (is_NULL (fcheck k fd)); [now injection H as <- <-|].
  inv_bind H. inv_bind H. destruct x0 as [file' existing].
  destruct (is_NULL file'); [now injection H as <- <-|].
  inv_bind H. destruct (decide (f_count x0 = 0)); [now injection H as <- <-|].
  inv_bind H.
  eapply flat_install_fd; [|exact H].
  eapply flat_add_ref; [exact Hflat | exact E2].
Qed.

Lemma flat_sys_cap_new k fd r ret k' :
  flat k -> sys_cap_new k fd r = Done (ret, k') -> flat k'.
Proof.
  intros Hflat H. unfold sys_cap_new in H.
  destruct (capsicum_enabled k); cbn in H; [|now injection H as <- <-].
  eapply flat_do_sys_cap_new; eassumption.
Qed.

Lemma flat_sys_cap_getrights k fd p ret k' :
  flat k -> sys_cap_getrights k fd p = Done (ret, k') -> flat k'.
Proof.
  intros Hflat H. unfold sys_cap_getrights in H.
  destruct (is_NULL (fcheck k fd)); [now injection H as <- <-|].
  inv_bind H. destruct (capsicum_is_cap x); cbn in H;
    [|now injection H as <- <-].
  inv_bind H. destruct x0 as [u r]. unfold put_user in H.
  destruct (umem k !! p); injection H as <- <-; exact Hflat.
Qed.

Lemma flat_release k capf ret k' :
  flat k -> capsicum_release k capf = Done (ret, k') -> flat k'.
Proof.
  intros Hflat H. unfold capsicum_release in H. inv_bind H.
  destruct (capsicum_is_cap x); cbn in H; [|now injection H as <- <-].
  destruct (private_data x) as [cap|]; [|discriminate].
  destruct capf as [|a|]; try discriminate.
  inv_bind H. rename x0 into k1. inv_bind H. injection H as <- <-.
  assert (Hflat1 : flat k1).
  { destruct (is_NULL (underlying cap)).
    - now injection E0 as <-.
    - eapply flat_add_ref; [exact Hflat | exact E0]. }
  apply deref_Done in E1. destruct E1 as (a' & [= <-] & Ha).
  unfold flat. cbn.
  eapply flat_store_update; [exact Hflat1 | exact Ha | reflexivity |].
  unfold flat_obj. cbn. now destruct (capsicum_is_cap _).
Qed.

Lemma flat_file_install k file fd file' k' :
  flat k -> capsicum_file_install k file fd = Done (file', k') -> flat k'.
Proof.
  intros Hflat H. unfold capsicum_file_install in H. inv_bind H.
  apply deref_Done in E. destruct E as (b & -> & Hb).
  destruct (capsicum_is_cap x) eqn:Hc; [now injection H as <- <-|].
  destruct (capsicum_get_pending_syscall k) as [pending|];
    [|now injection H as <- <-].
  destruct (_ || _); [now injection H as <- <-|].
  inv_bind H. injection H as <- <-.
  eapply (flat_objs_eq x0); [reflexivity|].
  eapply flat_cap_set; [exact Hflat | exact Hb | exact Hc | exact E].
Qed.

Lemma frame_refl k : frame k k.
Proof. repeat split. Qed.

Lemma frame_set_kmem k n : frame k (set_kmem k n).
Proof. repeat split. Qed.

Lemma frame_trans k1 k2 k3 : frame k1 k2 -> frame k2 k3 -> frame k1 k3.
Proof.
  intros (H1 & H2 & H3) (H4 & H5 & H6). repeat split; congruence.
Qed.

Lemma cred_prepare_frame k old r sec k' :
  capsicum_cred_prepare k old = (r, sec, k') ->
  frame k k' /\
  (forall p, sec = Some p -> pending_wf p /\ next_new_cap p = NULL).
Proof.
  unfold capsicum_cred_prepare, capsicum_cred_alloc_blank. intros H.
  assert (Hnone : (Val 0, None, k) = (r, sec, k') ->
                  frame k k' /\
                  (forall p, sec = Some p ->
                             pending_wf p /\ next_new_cap p = NULL)).
  { intros [= <- <- <-]. split; [apply frame_refl | discriminate]. }
  destruct old as [old_pending|]; [|now apply Hnone].
  destruct (decide (task old_pending = current k)); [|now apply Hnone].
  destruct (kmem k) as [|n]; injection H as <- <- <-.
  - split; [apply frame_refl | discriminate].
  - split; [apply frame_set_kmem|]. intros p [= <-].
    repeat split.
Qed.

Lemma prepare_creds_frame k r k' :
  prepare_creds k = (r, k') ->
  frame k k' /\
  (forall p, r = Some (Some p) -> pending_wf p /\ next_new_cap p = NULL).
Proof.
  unfold prepare_creds. intros H.
  destruct (kmem k) as [|n].
  { injection H as <- <-. split; [apply frame_refl | discriminate]. }
  destruct (capsicum_cred_prepare (set_kmem k n) (security k))
    as [[r0 sec] k1] eqn:E.
  apply cred_prepare_frame in E. destruct E as [Hf Hp].
  destruct r0; injection H as <- <-.
  - split.
    + eapply frame_trans; [apply (frame_set_kmem k n) | exact Hf].
    + intros p [= ->]. now apply Hp.
  - split; [apply frame_refl | discriminate].
Qed.

(** What [capsicum_alloc_pending_syscall] leaves behind: the objects and
    descriptors as they were and, on success, a record of the current
    thread attached to the credentials. *)
Lemma alloc_pending_spec k r k' :
  capsicum_alloc_pending_syscall k = (r, k') ->
  (forall p, capsicum_get_pending_syscall k = Some p ->
             r = inr p /\ k' = k) /\
  frame k k' /\
  (forall p, r = inr p ->
     security k' = Some p /\ task p = current k' /\
     (capsicum_get_pending_syscall k = None ->
      pending_wf p /\ next_new_cap p = NULL)).
Proof.
  unfold capsicum_alloc_pending_syscall, capsicum_get_pending_syscall.
  assert (Hfresh : replace_pending_syscall k = (r, k') ->
            frame k k' /\
            (forall p, r = inr p ->
               security k' = Some p /\ task p = current k' /\
               pending_wf p /\ next_new_cap p = NULL)).
  { unfold replace_pending_syscall. intros H.
    destruct (prepare_creds k) as [[sec|] k1] eqn:E;
      [|injection H as <- <-; split; [apply frame_refl | discriminate]].
    apply prepare_creds_frame in E. destruct E as [Hf Hp].
    destruct sec as [p0|].
    - injection H as <- <-. split; [exact Hf|].
      intros p [= <-]. destruct (Hp p0 eq_refl) as [[H1 H2] _].
      repeat split; assumption.
    - destruct (kmem k1) as [|n];
        [injection H as <- <-; split; [apply frame_refl | discriminate]|].
      injection H as <- <-. split; [exact Hf|].
      intros p [= <-]. repeat split. }
  intros H.
  destruct (security k) as [pending|] eqn:Es.
  - destruct (decide (task pending = current k)) as [Ht|Ht].
    + injection H as <- <-. split; [intros p [= <-]; now split|].
      split; [apply frame_refl|]. intros p [= <-].
      split; [assumption|]. split; [assumption | discriminate].
    + split; [discriminate|]. destruct (Hfresh H) as [Hf Hp].
      split; [exact Hf|]. intros p Hr.
      destruct (Hp p Hr) as (H1 & H2 & H3). auto.
  - split; [discriminate|]. destruct (Hfresh H) as [Hf Hp].
    split; [exact Hf|]. intros p Hr.
    destruct (Hp p Hr) as (H1 & H2 & H3). auto.
Qed.

Lemma flat_intercept tbl nr_openat k arch callnr args ret k' :
  flat k ->
  capsicum_intercept_syscall tbl nr_openat k arch callnr args
    = Done (ret, k') ->
  flat k'.
Proof.
  intros Hflat H. unfold capsicum_intercept_syscall in H.
  destruct (capsicum_enabled k); cbn [negb] in H;
    [|now injection H as <- <-].
  destruct (capsicum_alloc_pending_syscall k) as [[e|pending] k1] eqn:Ea;
    apply alloc_pending_spec in Ea; destruct Ea as (_ & (Ho & _) & _);
    pose proof (flat_objs_eq k k1 Ho Hflat) as Hflat1.
  { now injection H as <- <-. }
  inv_bind H. destruct x as [result pending2].
  destruct (is_zero result && bool_decide (callnr = nr_openat));
    [|now injection H as <- <-].
  inv_bind H. inv_bind H. destruct x0 as [under existing].
  destruct (is_NULL under); [now injection H as <- <-|].
  destruct (is_NULL (next_new_cap pending2));
    [|now injection H as <- <-].
  destruct (capsicum_cap_alloc k1) as [c k2] eqn:Ec.
  pose proof (flat_cap_alloc _ _ _ Hflat1 Ec) as Hflat2.
  destruct c; now injection H as <- <-.
Qed.

Lemma flat_host_install k file ret k' :
  flat k -> host_install k file = Done (ret, k') -> flat k'.
Proof.
  intros Hflat H. unfold host_install in H.
  destruct (get_unused_fd k) as [fd|e]; [|now injection H as <- <-].
  inv_bind H. destruct x as [file' k1]. injection H as <- <-.
  apply flat_fd_install. eapply flat_file_install; eassumption.
Qed.

Lemma flat_step tbl nr_openat k e k' :
  flat k -> step tbl nr_openat k e = Done k' -> flat k'.
Proof.
  intros Hflat H. destruct e; cbn in H; inv_bind H; destruct x as [ret k1];
    injection H as <-.
  - eapply flat_sys_cap_new; eassumption.
  - eapply flat_sys_cap_getrights; eassumption.
  - eapply flat_intercept; eassumption.
  - eapply flat_host_install; [|eassumption].
    unfold flat. cbn. now apply flat_store_app.
  - eapply flat_host_install; eassumption.
  - eapply flat_release; eassumption.
Qed.

Lemma flat_run tbl nr_openat es : forall k k',
  flat k -> run tbl nr_openat k es = Done k' -> flat k'.
Proof.
  induction es as [|e es IH]; intros k k' Hflat H; cbn in H.
  - now injection H as <-.
  - inv_bind H. eapply IH; [|exact H]. eapply flat_step; eassumption.
Qed.

(** C5. Capabilities are flat and stay flat.  From a state in which no
    capability wraps a capability, whatever sequence of cap_new,
    cap_getrights, interceptions, installations through the install hook
    and releases is run, in the resulting state the underlying file of
    every capability is an ordinary file: it is no capability, and
    unwrapping it gives nothing. *)
Theorem capabilities_stay_flat
    (tbl : syscall_table) (nr_openat : Z) (k k' : kernel)
    (es : list event) :
  flat k -> run tbl nr_openat k es = Done k' ->
  flat k' /\
  (forall a c r u g,
     objs k' !! a = Some c -> is_capability c r u ->
     deref k' u = Done g ->
     capsicum_is_cap g = false /\
     forall r0, capsicum_unwrap g r0 = Done (NULL, r0)).
Proof.
  intros Hflat Hrun.
  pose proof (flat_run _ _ _ _ _ Hflat Hrun) as Hflat'.
  split; [exact Hflat'|].
  intros a c r u g Ha Hc Hg.
  apply deref_Done in Hg. destruct Hg as (b & -> & Hb).
  pose proof (flat_underlying _ _ _ _ _ _ Hflat' Ha Hc Hb) as Hord.
  split; [exact Hord|]. intros r0. now apply unwrap_ordinary.
Qed.

Lemma capabilities_stay_flat_witness :
  match run small_table 257 confined busy_day with
  | Done k' =>
      flat k' /\
      fdtab k' !! 2%nat = Some (Addr 3%nat) /\
      objs k' !! 3%nat =
        Some (mkFile capsicum_file_ops (Some (mkCap 1 (Addr 4%nat))) 1) /\
      (f_op <$> objs k' !! 4%nat) = Some host_file_ops
  | Halt _ => False
  end.
Proof.
  assert (Hflat : flat confined)
    by (unfold flat, flat_store; cbn; repeat constructor).
  destruct (run small_table 257 confined busy_day) as [k'|h] eqn:E.
  - split.
    + exact (proj1 (capabilities_stay_flat small_table 257 confined k'
                      busy_day Hflat E)).
    + vm_compute in E. injection E as <-. repeat split.
  - vm_compute in E. discriminate.
Defined.

(** ** Interception of openat and the install hook *)

Lemma require_rights_inv k p fd req r p' :
  capsicum_require_rights k p fd req = Done (r, p') ->
  next_new_cap p' = next_new_cap p /\ task p' = task p /\
  (pending_wf p -> pending_wf p') /\
  next_free p <= next_free p' /\
  (forall i, Z.of_nat i < next_free p -> files_at p' i = files_at p i) /\
  (is_zero r = true ->
   pending_wf p -> 0 <= next_free p ->
   files_at p' (Z.to_nat (next_free p)) = fcheck k fd /\
   next_free p' = next_free p + 1).
Proof.
  unfold capsicum_require_rights. intros H.
  assert (Hsame : Done (r, p') = Done (r, p') -> p' = p -> is_zero r = false ->
    next_new_cap p' = next_new_cap p /\ task p' = task p /\
    (pending_wf p -> pending_wf p') /\
    next_free p <= next_free p' /\
    (forall i, Z.of_nat i < next_free p -> files_at p' i = files_at p i) /\
    (is_zero r = true ->
     pending_wf p -> 0 <= next_free p ->
     files_at p' (Z.to_nat (next_free p)) = fcheck k fd /\
     next_free p' = next_free p + 1)).
  { intros _ -> Hz. split; [reflexivity|]. split; [reflexivity|].
    split; [tauto|]. split; [lia|]. split; [reflexivity|].
    intros Hz'. congruence. }
  destruct (decide (fd = AT_FDCWD)).
  { injection H as <- <-. now apply Hsame. }
  destruct (is_NULL (fcheck k fd)).
  { injection H as <- <-. now apply Hsame. }
  inv_bind H. inv_bind H. destruct x0 as [u actual].
  destruct (decide (fd_count p <= next_free p)).
  { injection H as <- <-. now apply Hsame. }
  assert (Hrec :
    forall r0,
      Done (r0, mkPending (<[Z.to_nat (next_free p) := to_uint fd]> (fds p))
                  (<[Z.to_nat (next_free p) := fcheck k fd]> (files p))
                  (next_free p + 1) (fd_count p) (next_new_cap p)
                  (new_cap_rights p) (task p)) = Done (r, p') ->
    next_new_cap p' = next_new_cap p /\ task p' = task p /\
    (pending_wf p -> pending_wf p') /\
    next_free p <= next_free p' /\
    (forall i, Z.of_nat i < next_free p -> files_at p' i = files_at p i) /\
    (is_zero r = true ->
     pending_wf p -> 0 <= next_free p ->
     files_at p' (Z.to_nat (next_free p)) = fcheck k fd /\
     next_free p' = next_free p + 1)).
  { intros r0 [= <- <-]. cbn. split; [reflexivity|]. split; [reflexivity|].
    split.
    { intros [H1 H2]. unfold pending_wf. cbn. now rewrite !length_insert. }
    split; [lia|]. split.
    { intros i Hi. unfold files_at. cbn.
      rewrite list_lookup_insert_ne by lia. reflexivity. }
    intros _ [H1 H2] H0. split; [|reflexivity].
    unfold files_at. cbn. rewrite list_lookup_insert_eq by lia.
    reflexivity. }
  destruct (decide (Z.land actual req = req)); eapply Hrec; exact H.
Qed.

Lemma check_fd_args_inv k l : forall p r p',
  check_fd_args k p l = Done (r, p') ->
  next_new_cap p' = next_new_cap p /\ task p' = task p /\
  (pending_wf p -> pending_wf p') /\
  next_free p <= next_free p' /\
  (forall i, Z.of_nat i < next_free p -> files_at p' i = files_at p i).
Proof.
  induction l as [|[fd req] l IH]; intros p r p' H; cbn in H.
  - injection H as <- <-. split; [reflexivity|]. split; [reflexivity|].
    split; [tauto|]. split; [lia | reflexivity].
  - inv_bind H. destruct x as [r1 p1].
    apply require_rights_inv in E.
    destruct E as (E1 & E2 & E3 & E4 & E5 & _).
    assert (Hstop : Done (r1, p1) = Done (r, p') ->
      next_new_cap p' = next_new_cap p /\ task p' = task p /\
      (pending_wf p -> pending_wf p') /\
      next_free p <= next_free p' /\
      (forall i, Z.of_nat i < next_free p -> files_at p' i = files_at p i)).
    { intros [= <- <-]. split; [exact E1|]. split; [exact E2|].
      split; [exact E3|]. split; [exact E4 | exact E5]. }
    destruct r1 as [v|e]; [|now apply Hstop].
    destruct v; try now apply Hstop.
    apply IH in H. destruct H as (H1 & H2 & H3 & H4 & H5).
    split; [congruence|]. split; [congruence|]. split; [tauto|].
    split; [lia|]. intros i Hi. rewrite H5 by lia. now apply E5.
Qed.

(** A run of the checks that ends with 0 has recorded its first fd
    argument at position 0. *)
Lemma check_fd_args_first k fd req rest p r p' :
  check_fd_args k p ((fd, req) :: rest) = Done (r, p') ->
  is_zero r = true -> pending_wf p -> next_free p = 0 ->
  files_at p' 0 = fcheck k fd /\
  next_new_cap p' = next_new_cap p /\ task p' = task p.
Proof.
  intros H Hz Hwf H0. cbn in H. inv_bind H. destruct x as [r1 p1].
  pose proof (require_rights_inv _ _ _ _ _ _ E)
    as (E1 & E2 & E3 & E4 & E5 & E6).
  assert (Hr1 : is_zero r1 = true).
  { destruct r1 as [v|e]; [destruct v|]; trivial;
      injection H as <- <-; exact Hz. }
  destruct (E6 Hr1 Hwf ltac:(lia)) as [Hfile Hnext].
  rewrite H0 in Hfile. cbn in Hfile.
  destruct r1 as [v|e]; [|discriminate]. destruct v; try discriminate.
  apply check_fd_args_inv in H. destruct H as (H1 & H2 & _ & _ & H5).
  split; [|split; congruence].
  rewrite H5 by lia. exact Hfile.
Qed.

(** After a successful interception of openat on a capability the record
    carries a wrapper and the capability's rights. *)
Lemma intercept_openat_spec tbl nr_openat k k1 arch args dfd required R
    rest a c u :
  capsicum_enabled k = true ->
  tbl arch nr_openat args = Some ((dfd, required) :: rest) ->
  fcheck k dfd = Addr a -> objs k !! a = Some c ->
  is_capability c R u -> u <> NULL -> pending_ok k ->
  capsicum_intercept_syscall tbl nr_openat k arch nr_openat args
    = Done (Val 0, k1) ->
  exists p w wc,
    capsicum_get_pending_syscall k1 = Some p /\
    next_new_cap p = Addr w /\ new_cap_rights p = R /\
    objs k1 !! w = Some wc /\ capsicum_is_cap wc = true /\
    is_Some (private_data wc).
Proof.
  intros Hen Htbl Hfd Ha Hc Hu Hok H.
  unfold capsicum_intercept_syscall in H. rewrite Hen in H. cbn [negb] in H.
  destruct (capsicum_alloc_pending_syscall k) as [[e|pending] k0] eqn:Ea;
    [discriminate|].
  apply alloc_pending_spec in Ea.
  destruct Ea as (Hold & (Ho & Ht & Hcur) & Hnew).
  destruct (Hnew pending eq_refl) as (Hsec & Htask & Hfresh). clear Hnew.
  (* the record the checks start from *)
  assert (Hp : pending_wf pending /\
               (next_new_cap pending = NULL \/
                exists w wc, next_new_cap pending = Addr w /\
                  objs k0 !! w = Some wc /\ capsicum_is_cap wc = true /\
                  is_Some (private_data wc))).
  { destruct (capsicum_get_pending_syscall k) as [p0|] eqn:Eg.
    - destruct (Hold p0 eq_refl) as [[= ->] ->]. exact (Hok p0 Eg).
    - destruct (Hfresh eq_refl) as [Hwf Hn]. split; [exact Hwf | now left]. }
  destruct Hp as [Hwf Hlinger].
  unfold capsicum_run_syscall_table in H. rewrite Htbl in H.
  inv_bind H. destruct x as [result pending2].
  rewrite bool_decide_eq_true_2 in H by reflexivity.
  rewrite andb_true_r in H.
  destruct (is_zero result) eqn:Hz; cycle 1.
  { injection H as -> _. discriminate. }
  apply check_fd_args_first in E; [|exact Hz | exact Hwf | reflexivity].
  destruct E as (Hfile & Hcap & Htask2). cbn in Hcap, Htask2.
  unfold fcheck in Hfile. rewrite Ht in Hfile. fold (fcheck k dfd) in Hfile.
  rewrite Hfile, Hfd in H.
  erewrite deref_Addr in H by (rewrite Ho; exact Ha). cbn [obind] in H.
  rewrite (unwrap_capability _ _ _ _ Hc) in H. cbn [obind] in H.
  rewrite (is_NULL_false _ Hu) in H.
  assert (Hget : forall kk pp,
            current kk = current k0 -> task pp = task pending2 ->
            capsicum_get_pending_syscall (set_security kk (Some pp))
            = Some pp).
  { intros kk pp Hk Hpp. unfold capsicum_get_pending_syscall. cbn.
    destruct (decide (task pp = current kk)); [reflexivity|].
    congruence. }
  destruct (is_NULL (next_new_cap pending2)) eqn:Hnull.
  - unfold capsicum_cap_alloc in H.
    destruct (kmem k0) as [|[|n]]; try discriminate.
    injection H as _ <-.
    eexists _, (length (objs k0)), _.
    split; [apply Hget; reflexivity|].
    split; [reflexivity|]. split; [reflexivity|]. cbn.
    rewrite lookup_app_r, Nat.sub_diag by lia. cbn.
    split; [reflexivity|]. split; [reflexivity | eauto].
  - injection H as _ <-.
    destruct Hlinger as [Hn|(w & wc & Hw & Hobj & Hwc & Hpd)].
    { rewrite Hcap, Hn in Hnull. discriminate. }
    eexists _, w, wc.
    split; [apply Hget; reflexivity|]. cbn.
    split; [congruence|]. split; [reflexivity|].
    split; [exact Hobj|]. split; assumption.
Qed.

(** The install hook with a wrapper and rights at hand. *)
Lemma file_install_wraps k p w wc b g fd :
  capsicum_get_pending_syscall k = Some p ->
  next_new_cap p = Addr w -> new_cap_rights p <> u64_max ->
  objs k !! w = Some wc -> capsicum_is_cap wc = true ->
  is_Some (private_data wc) ->
  objs k !! b = Some g -> capsicum_is_cap g = false ->
  exists k2 wc',
    capsicum_file_install k (Addr b) fd = Done (Addr w, k2) /\
    objs k2 !! w = Some wc' /\
    is_capability wc' (new_cap_rights p) (Addr b) /\
    (forall p2, capsicum_get_pending_syscall k2 = Some p2 ->
                next_new_cap p2 = NULL).
Proof.
  intros Hp Hw Hr Hobj Hwc Hpd Hb Hg. unfold capsicum_file_install.
  rewrite (deref_Addr _ _ _ Hb). cbn [obind]. rewrite Hg, Hp, Hw.
  rewrite bool_decide_eq_false_2 by assumption. cbn [orb is_NULL].
  rewrite (cap_set_ok _ _ _ _ _ Hobj Hwc Hpd). cbn [obind].
  eexists _, _. split; [reflexivity|]. cbn. split.
  - apply list_lookup_insert_eq. now apply lookup_lt_Some in Hobj.
  - split; [split; [exact Hwc | reflexivity]|].
    intros p2. unfold capsicum_get_pending_syscall. cbn.
    destruct (decide _); [|discriminate]. now intros [= <-].
Qed.

(** The install hook when the rights to apply are all ones. *)
Lemma file_install_sentinel k p b g fd :
  capsicum_get_pending_syscall k = Some p ->
  new_cap_rights p = u64_max ->
  objs k !! b = Some g -> capsicum_is_cap g = false ->
  capsicum_file_install k (Addr b) fd = Done (Addr b, k).
Proof.
  intros Hp Hr Hb Hg. unfold capsicum_file_install.
  rewrite (deref_Addr _ _ _ Hb). cbn [obind]. rewrite Hg, Hp.
  now rewrite bool_decide_eq_true_2 by assumption.
Qed.

Lemma get_pending_same k k' :
  security k' = security k -> current k' = current k ->
  capsicum_get_pending_syscall k' = capsicum_get_pending_syscall k.
Proof.
  intros Hs Hc. unfold capsicum_get_pending_syscall. now rewrite Hs, Hc.
Qed.

(** C3. After a successful interception of openat whose first fd
    argument resolves to a capability with rights R (the record carrying
    no wrapper or a wrapper left by an earlier openat), the record holds a
    pre-allocated wrapper and [new_cap_rights] = R.  When the syscall then
    installs an ordinary file, the record and the wrapper being as the
    interception left them: if R is not all ones, the install hook
    returns that wrapper, initialised to the installed file with rights
    R, and empties [next_new_cap]; if R is all ones, the "no wrap" value,
    the hook installs the file itself, not wrapped. *)
Theorem openat_capability_inherits_rights
    (tbl : syscall_table) (nr_openat : Z) (k k1 : kernel) (arch : Z)
    (args : list Z) (dfd required R : Z) (rest : list (Z * Z)) (a : nat)
    (c : file) (u : fileptr) :
  capsicum_enabled k = true ->
  tbl arch nr_openat args = Some ((dfd, required) :: rest) ->
  fcheck k dfd = Addr a -> objs k !! a = Some c ->
  is_capability c R u -> u <> NULL -> pending_ok k ->
  capsicum_intercept_syscall tbl nr_openat k arch nr_openat args
    = Done (Val 0, k1) ->
  exists p w wc,
    capsicum_get_pending_syscall k1 = Some p /\
    next_new_cap p = Addr w /\ new_cap_rights p = R /\
    objs k1 !! w = Some wc /\ capsicum_is_cap wc = true /\
    forall k' b g fd,
      security k' = security k1 -> current k' = current k1 ->
      objs k' !! w = Some wc ->
      objs k' !! b = Some g -> capsicum_is_cap g = false ->
      (R <> u64_max ->
       exists k2 wc',
         capsicum_file_install k' (Addr b) fd = Done (Addr w, k2) /\
         objs k2 !! w = Some wc' /\ is_capability wc' R (Addr b) /\
         file_rights wc' = R /\
         (forall p2, capsicum_get_pending_syscall k2 = Some p2 ->
                     next_new_cap p2 = NULL)) /\
      (R = u64_max ->
       capsicum_file_install k' (Addr b) fd = Done (Addr b, k')).
Proof.
  intros Hen Htbl Hfd Ha Hc Hu Hok H.
  destruct (intercept_openat_spec _ _ _ _ _ _ _ _ _ _ _ _ _
              Hen Htbl Hfd Ha Hc Hu Hok H)
    as (p & w & wc & Hp & Hw & Hr & Hobj & Hwc & Hpd).
  exists p, w, wc. split; [exact Hp|]. split; [exact Hw|].
  split; [exact Hr|]. split; [exact Hobj|]. split; [exact Hwc|].
  intros k' b g fd Hsec Hcur Hobj' Hb Hg.
  pose proof (get_pending_same k1 k' Hsec Hcur) as Hp'. rewrite Hp in Hp'.
  split.
  - intros HR.
    destruct (file_install_wraps k' p w wc b g fd Hp' Hw) as
      (k2 & wc' & Hi & Hobj2 & Hcap & Hcl); trivial; [congruence|].
    rewrite Hr in Hcap.
    exists k2, wc'. split; [exact Hi|]. split; [exact Hobj2|].
    split; [exact Hcap|]. split; [|exact Hcl].
    exact (file_rights_capability _ _ _ Hcap).
  - intros HR. apply (file_install_sentinel k' p b g fd Hp'); trivial.
    congruence.
Qed.

Lemma pending_ok_no_record k : security k = None -> pending_ok k.
Proof.
  intros H p. unfold capsicum_get_pending_syscall. rewrite H. discriminate.
Qed.

Lemma openat_capability_inherits_rights_witness :
  capsicum_intercept_syscall small_table 257 confined 0 257 [0; 0; 0]
    = Done (Val 0, confined_after_openat) /\
  exists p w,
    capsicum_get_pending_syscall confined_after_openat = Some p /\
    next_new_cap p = Addr w /\ new_cap_rights p = 1 /\
    exists k2 wc,
      capsicum_file_install confined_after_openat (Addr 0%nat) 1
        = Done (Addr w, k2) /\
      objs k2 !! w = Some wc /\ is_capability wc 1 (Addr 0%nat).
Proof.
  assert (E : capsicum_intercept_syscall small_table 257 confined 0 257
                [0; 0; 0] = Done (Val 0, confined_after_openat))
    by (vm_compute; reflexivity).
  split; [exact E|].
  destruct (openat_capability_inherits_rights small_table 257 confined
              confined_after_openat 0 [0; 0; 0] 0 0 1 [] 1 read_capability
              (Addr 0%nat) eq_refl eq_refl eq_refl eq_refl
              (conj eq_refl eq_refl) ltac:(discriminate)
              (pending_ok_no_record confined eq_refl) E)
    as (p & w & wc & Hp & Hw & Hr & Hobj & _ & Hinst).
  exists p, w. split; [exact Hp|]. split; [exact Hw|]. split; [exact Hr|].
  destruct (Hinst confined_after_openat 0%nat ordinary_file 1
              eq_refl eq_refl Hobj) as [Hwrap _];
    [vm_compute; reflexivity | reflexivity |].
  destruct Hwrap as (k2 & wc' & H1 & H2 & H3 & _); [discriminate|].
  exists k2, wc'. split; [exact H1|]. split; [exact H2 | exact H3].
Defined.

(** openat on a capability that carries every right: the interception
    succeeds and sets [new_cap_rights] to all ones, and the install hook
    then hands back the ordinary file itself, not a capability. *)
Lemma openat_all_rights_not_wrapped :
  fcheck generous 0 = Addr 1%nat /\
  (exists c, objs generous !! 1%nat = Some c /\
             is_capability c u64_max (Addr 0%nat)) /\
  capsicum_intercept_syscall small_table 257 generous 0 257
    [0; 0; 0] = Done (Val 0, generous_after_openat) /\
  (new_cap_rights <$> capsicum_get_pending_syscall generous_after_openat)
    = Some u64_max /\
  objs generous_after_openat !! 0%nat = Some ordinary_file /\
  capsicum_is_cap ordinary_file = false /\
  capsicum_file_install generous_after_openat (Addr 0%nat) 1
    = Done (Addr 0%nat, generous_after_openat).
Proof.
  split; [reflexivity|].
  split; [eexists; split; [reflexivity | split; reflexivity]|].
  split; [vm_compute; reflexivity|].
  split; [vm_compute; reflexivity|].
  split; [vm_compute; reflexivity|].
  split; [reflexivity|].
  vm_compute; reflexivity.
Qed.

(** ** The reset at interception *)

(** C2. An openat on the capability at fd 0 has
    left its pre-allocated wrapper (object 2) in the record; the next
    intercepted syscall, dup(0), succeeds and leaves [new_cap_rights] at
    0, which is not the "no wrap" value all ones; the install hook then
    consumes the wrapper and returns it, with rights 0, in place of the
    ordinary file it was given. *)
Theorem intercept_resets_rights_to_zero :
  (next_new_cap <$> capsicum_get_pending_syscall confined_after_openat)
    = Some (Addr 2%nat) /\
  32 <> 257 /\
  capsicum_intercept_syscall small_table 257 confined_after_openat 0 32
    [0; 0; 0] = Done (Val 0, confined_after_dup) /\
  (new_cap_rights <$> capsicum_get_pending_syscall confined_after_dup)
    = Some 0 /\
  0 <> u64_max /\
  (next_new_cap <$> capsicum_get_pending_syscall confined_after_dup)
    = Some (Addr 2%nat) /\
  objs confined_after_dup !! 0%nat = Some ordinary_file /\
  exists k2,
    capsicum_file_install confined_after_dup (Addr 0%nat) 1
      = Done (Addr 2%nat, k2) /\
    objs k2 !! 2%nat =
      Some (mkFile capsicum_file_ops (Some (mkCap 0 (Addr 0%nat))) 1).
Proof.
  split; [vm_compute; reflexivity|].
  split; [discriminate|].
  split; [vm_compute; reflexivity|].
  split; [vm_compute; reflexivity|].
  split; [discriminate|].
  split; [vm_compute; reflexivity|].
  split; [vm_compute; reflexivity|].
  eexists. split; vm_compute; reflexivity.
Qed.

Lemma require_rights_new_cap_rights k p fd req r p' :
  capsicum_require_rights k p fd req = Done (r, p') ->
  new_cap_rights p' = new_cap_rights p.
Proof.
  unfold capsicum_require_rights. intros H.
  destruct (decide (fd = AT_FDCWD)); [now injection H as <- <-|].
  destruct (is_NULL (fcheck k fd)); [now injection H as <- <-|].
  inv_bind H. inv_bind H. destruct x0 as [u actual].
  destruct (decide (fd_count p <= next_free p)); [now injection H as <- <-|].
  destruct (decide (Z.land actual req = req)); now injection H as <- <-.
Qed.

Lemma check_fd_args_new_cap_rights k l : forall p r p',
  check_fd_args k p l = Done (r, p') ->
  new_cap_rights p' = new_cap_rights p.
Proof.
  induction l as [|[fd req] l IH]; intros p r p' H; cbn in H.
  - now injection H as <- <-.
  - inv_bind H. destruct x as [r1 p1].
    apply require_rights_new_cap_rights in E.
    destruct r1 as [v|e]; [destruct v|]; try (injection H as <- <-; exact E).
    apply IH in H. congruence.
Qed.

(** After the interception of any syscall other than openat, the rights
    for the next installation are 0 (unless no record could be had). *)
Lemma intercept_other_leaves_zero tbl nr_openat k arch callnr args r k1 :
  capsicum_enabled k = true -> callnr <> nr_openat ->
  capsicum_intercept_syscall tbl nr_openat k arch callnr args
    = Done (r, k1) ->
  (r = Neg ENOMEM /\ k1 = k) \/
  exists p, capsicum_get_pending_syscall k1 = Some p /\
            new_cap_rights p = 0 /\ new_cap_rights p <> u64_max.
Proof.
  intros Hen Hnr H. unfold capsicum_intercept_syscall in H.
  rewrite Hen in H. cbn [negb] in H.
  destruct (capsicum_alloc_pending_syscall k) as [[e|pending] k0] eqn:Ea.
  - left. injection H as <- <-.
    unfold capsicum_alloc_pending_syscall, replace_pending_syscall in Ea.
    repeat
      match type of Ea with
      | context [match ?x with _ => _ end] => destruct x
      end; try discriminate; injection Ea as <- <-; now split.
  - right. apply alloc_pending_spec in Ea.
    destruct Ea as (_ & (_ & _ & Hcur) & Hnew).
    destruct (Hnew pending eq_refl) as (_ & Htask & _).
    inv_bind H. destruct x as [result pending2].
    rewrite bool_decide_eq_false_2, andb_false_r in H by assumption.
    injection H as <- <-.
    unfold capsicum_run_syscall_table in E.
    assert (Hr : new_cap_rights pending2 = 0 /\ task pending2 = task pending).
    { destruct (tbl arch callnr args) as [l|].
      - pose proof (check_fd_args_new_cap_rights _ _ _ _ _ E) as H1.
        apply check_fd_args_inv in E. destruct E as (_ & H2 & _).
        split; [exact H1 | exact H2].
      - injection E as _ <-. split; reflexivity. }
    destruct Hr as [Hr Ht].
    exists pending2. split; [|split; [exact Hr | rewrite Hr; discriminate]].
    unfold capsicum_get_pending_syscall. cbn.
    destruct (decide (task pending2 = current k0)); [reflexivity|].
    congruence.
Qed.

(** When the wrapper cannot be allocated, the error pointer stays in the
    record; the next openat on a capability takes it for a wrapper, and
    the install hook then dereferences it. *)
Lemma intercept_keeps_error_pointer :
  capsicum_intercept_syscall small_table 257 (set_kmem confined 3)
    0 257 [0; 0; 0] = Done (Neg ENOMEM, starved_after_openat) /\
  (next_new_cap <$> capsicum_get_pending_syscall starved_after_openat)
    = Some (ERR_PTR ENOMEM) /\
  capsicum_intercept_syscall small_table 257 fed_again 0 257 [0; 0; 0]
    = Done (Val 0, fed_after_openat) /\
  (next_new_cap <$> capsicum_get_pending_syscall fed_after_openat)
    = Some (ERR_PTR ENOMEM) /\
  capsicum_file_install fed_after_openat (Addr 0%nat) 1 = Halt OOPS.
Proof.
  repeat split; vm_compute; reflexivity.
Qed.

(** ** When cap_new returns a descriptor *)

(** In a flat state, cap_new returns a descriptor only when the
    subsystem is enabled, [orig_fd] resolves to a live ordinary file or a
    capability of one, a slot is free and memory is at hand. *)
Lemma cap_new_success_conditions k orig_fd new_rights nfd k' :
  flat k ->
  sys_cap_new k orig_fd new_rights = Done (Val nfd, k') ->
  capsicum_enabled k = true /\
  exists a f b g,
    fcheck k orig_fd = Addr a /\ objs k !! a = Some f /\
    wrapped_file a f = Some b /\ objs k !! b = Some g /\
    capsicum_is_cap g = false /\ f_count g <> 0 /\
    get_unused_fd k = Val nfd /\ (2 <= kmem k)%nat.
Proof.
  intros Hflat H. unfold sys_cap_new in H.
  destruct (capsicum_enabled k); [|discriminate]. cbn [negb] in H.
  split; [reflexivity|]. unfold do_sys_cap_new in H.
  destruct (is_NULL (fcheck k orig_fd)) eqn:Hnull; [discriminate|].
  inv_bind H. rename x into f.
  apply deref_Done in E. destruct E as (a & Hfd & Ha).
  inv_bind H. destruct x as [file' existing].
  destruct (is_NULL file'); [discriminate|].
  inv_bind H. rename x into g.
  apply deref_Done in E0. destruct E0 as (b & -> & Hb).
  destruct (decide (f_count g = 0)) as [|Hcnt]; [discriminate|].
  inv_bind H. rename x into k1.
  rewrite (get_file_Addr _ _ _ Hb) in E0. injection E0 as <-.
  assert (Hw : wrapped_file a f = Some b /\ capsicum_is_cap g = false).
  { unfold wrapped_file. destruct (capsicum_is_cap f) eqn:Hc.
    - unfold capsicum_unwrap in E. rewrite Hc in E. cbn in E.
      destruct (private_data f) as [[r0 u0]|] eqn:Hp; [|discriminate].
      cbn in E. injection E as Hu0 Hr0. subst u0. cbn.
      split; [reflexivity|].
      eapply (flat_underlying (objs k) a f r0 b g); eauto.
      split; assumption.
    - injection E as Hb0 Hr0. rewrite Hfd in Hb0. injection Hb0 as <-.
      rewrite Ha in Hb. injection Hb as <-.
      split; [reflexivity | exact Hc]. }
  destruct Hw as [Hw Hg].
  exists a, f, b, g. split; [exact Hfd|]. split; [exact Ha|].
  split; [exact Hw|]. split; [exact Hb|]. split; [exact Hg|].
  split; [exact Hcnt|].
  unfold capsicum_install_fd in H.
  change (get_unused_fd (set_objs k _)) with (get_unused_fd k) in H.
  destruct (get_unused_fd k) as [fd0|e] eqn:Hslot; [|discriminate].
  unfold capsicum_cap_alloc in H. cbn [kmem set_objs] in H.
  destruct (kmem k) as [|[|n]]; try discriminate.
  split; [|lia].
  inv_bind H. inv_bind H. inv_bind H. inv_bind H.
  injection H as Hv Hk. now rewrite Hv.
Qed.

(** * Further properties *)

(** ** The record of the thread *)

Lemma get_pending_None_cases k :
  capsicum_get_pending_syscall k = None ->
  security k = None \/
  exists q, security k = Some q /\ task q <> current k.
Proof.
  unfold capsicum_get_pending_syscall.
  destruct (security k) as [q|]; [|now left].
  destruct (decide (task q = current k)); [discriminate|].
  intros _. right. eauto.
Qed.

Lemma cred_prepare_foreign k old :
  (forall q, old = Some q -> task q <> current k) ->
  capsicum_cred_prepare k old = (Val 0, None, k).
Proof.
  intros H. unfold capsicum_cred_prepare.
  destruct old as [q|]; [|reflexivity].
  destruct (decide (task q = current k)) as [E|]; [|reflexivity].
  now destruct (H q eq_refl).
Qed.

Lemma replace_pending_result k :
  capsicum_get_pending_syscall k = None ->
  replace_pending_syscall k =
  match kmem k with
  | S (S n) =>
      (inr (first_record (current k)),
       set_security (set_kmem k n) (Some (first_record (current k))))
  | _ => (inl ENOMEM, k)
  end.
Proof.
  intros Hnone. unfold replace_pending_syscall, prepare_creds.
  destruct (kmem k) as [|n] eqn:Hk; [reflexivity|].
  rewrite cred_prepare_foreign; cycle 1.
  { intros q Hq. apply get_pending_None_cases in Hnone.
    destruct Hnone as [Hn|(q' & Hq' & Hne)]; cbn in *; congruence. }
  cbn. destruct n as [|n]; reflexivity.
Qed.

Lemma alloc_pending_None k :
  capsicum_get_pending_syscall k = None ->
  capsicum_alloc_pending_syscall k = replace_pending_syscall k.
Proof.
  unfold capsicum_get_pending_syscall, capsicum_alloc_pending_syscall.
  destruct (security k) as [q|]; [|reflexivity].
  destruct (decide (task q = current k)); [discriminate | reflexivity].
Qed.

Lemma alloc_pending_Some k p :
  capsicum_get_pending_syscall k = Some p ->
  capsicum_alloc_pending_syscall k = (inr p, k).
Proof.
  unfold capsicum_get_pending_syscall, capsicum_alloc_pending_syscall.
  destruct (security k) as [q|]; [|discriminate].
  destruct (decide (task q = current k)); [|discriminate].
  now intros [= ->].
Qed.

Lemma get_pending_attached k p :
  task p = current k ->
  capsicum_get_pending_syscall (set_security k (Some p)) = Some p.
Proof.
  intros H. unfold capsicum_get_pending_syscall. cbn.
  destruct (decide (task p = current k)); [reflexivity | contradiction].
Qed.

(** What [capsicum_alloc_pending_syscall] returns, case by case. *)
Lemma alloc_pending_result k :
  capsicum_alloc_pending_syscall k =
  match capsicum_get_pending_syscall k with
  | Some p => (inr p, k)
  | None =>
      match kmem k with
      | S (S n) =>
          (inr (first_record (current k)),
           set_security (set_kmem k n) (Some (first_record (current k))))
      | _ => (inl ENOMEM, k)
      end
  end.
Proof.
  destruct (capsicum_get_pending_syscall k) as [p|] eqn:E.
  - now apply alloc_pending_Some.
  - rewrite (alloc_pending_None _ E). now apply replace_pending_result.
Qed.

(** X1. The record of the current thread, if there is one, is returned
    as it is, wrapper and all, and nothing changes.  Without one, and with
    memory for fewer than two allocations, the call fails with ENOMEM and
    nothing changes; with memory for two, a record of six free entries, no
    wrapper and "no wrap" rights is attached to the thread.  After a
    success the record is the thread's own, and asking again returns the
    same record without a further change. *)
Theorem alloc_pending_attaches_record (k : kernel) :
  (forall p, capsicum_get_pending_syscall k = Some p ->
             capsicum_alloc_pending_syscall k = (inr p, k)) /\
  (capsicum_get_pending_syscall k = None -> (kmem k < 2)%nat ->
   capsicum_alloc_pending_syscall k = (inl ENOMEM, k)) /\
  (capsicum_get_pending_syscall k = None -> (2 <= kmem k)%nat ->
   capsicum_alloc_pending_syscall k =
   (inr (first_record (current k)),
    set_security (set_kmem k (kmem k - 2))
      (Some (first_record (current k))))) /\
  (forall p k',
     capsicum_alloc_pending_syscall k = (inr p, k') ->
     capsicum_get_pending_syscall k' = Some p /\
     capsicum_alloc_pending_syscall k' = (inr p, k')).
Proof.
  split; [apply alloc_pending_Some|]. split; [|split].
  - intros Hn Hm. rewrite alloc_pending_result, Hn.
    destruct (kmem k) as [|[|n]]; [reflexivity | reflexivity | lia].
  - intros Hn Hm. rewrite alloc_pending_result, Hn.
    destruct (kmem k) as [|[|n]]; try lia.
    now replace (S (S n) - 2)%nat with n by lia.
  - intros p k' H.
    assert (Hg : capsicum_get_pending_syscall k' = Some p).
    { rewrite alloc_pending_result in H.
      destruct (capsicum_get_pending_syscall k) as [q|] eqn:E.
      - now injection H as <- <-.
      - destruct (kmem k) as [|[|n]]; try discriminate.
        injection H as <- <-. now apply get_pending_attached. }
    split; [exact Hg | now apply alloc_pending_Some].
Qed.

Lemma alloc_pending_attaches_record_witness :
  capsicum_alloc_pending_syscall (confined_with empty_record)
    = (inr empty_record, confined_with empty_record) /\
  capsicum_alloc_pending_syscall (set_kmem confined 1)
    = (inl ENOMEM, set_kmem confined 1) /\
  capsicum_alloc_pending_syscall confined
    = (inr (first_record 7),
       set_security (set_kmem confined 8) (Some (first_record 7))).
Proof.
  split; [|split].
  - apply (proj1 (alloc_pending_attaches_record (confined_with empty_record))).
    reflexivity.
  - apply (proj1 (proj2 (alloc_pending_attaches_record (set_kmem confined 1)))).
    + reflexivity.
    + cbn. lia.
  - apply (proj1 (proj2 (proj2 (alloc_pending_attaches_record confined)))).
    + reflexivity.
    + cbn. lia.
Defined.

(** X2. Growing the record: a request that fits the present arrays, or
    one made with memory for fewer than two allocations, changes nothing;
    otherwise the record gets arrays of the requested size.  The arrays
    never shrink, keep the length [fd_count] says, and the count of
    entries in use, the wrapper, the rights for the next installation and
    the owner stay as they were; descriptors and objects are not
    touched. *)
Theorem realloc_pending_grows_or_keeps
    (k k' : kernel) (p p' : capsicum_pending_syscall) (numfds : Z) :
  capsicum_realloc_pending_syscall k p numfds = (p', k') ->
  (numfds <= fd_count p \/ (kmem k < 2)%nat -> p' = p /\ k' = k) /\
  (fd_count p < numfds -> (2 <= kmem k)%nat -> fd_count p' = numfds) /\
  fd_count p <= fd_count p' /\
  (pending_wf p -> pending_wf p') /\
  next_free p' = next_free p /\ next_new_cap p' = next_new_cap p /\
  new_cap_rights p' = new_cap_rights p /\ task p' = task p /\
  same_env k k' /\ objs k' = objs k /\ security k' = security k.
Proof.
  unfold capsicum_realloc_pending_syscall. intros H.
  assert (Hkeep : (p, k) = (p', k') ->
    (numfds <= fd_count p \/ (kmem k < 2)%nat -> p' = p /\ k' = k) /\
    fd_count p <= fd_count p' /\
    (pending_wf p -> pending_wf p') /\
    next_free p' = next_free p /\ next_new_cap p' = next_new_cap p /\
    new_cap_rights p' = new_cap_rights p /\ task p' = task p /\
    same_env k k' /\ objs k' = objs k /\ security k' = security k).
  { intros [= <- <-]. split; [now split|]. split; [lia|].
    split; [tauto|]. repeat split. }
  destruct (decide (numfds <= fd_count p)) as [Hle|Hgt].
  { destruct (Hkeep H) as (H1 & H2). split; [exact H1|].
    split; [lia | exact H2]. }
  destruct (kmem k) as [|[|n]] eqn:Hk.
  { destruct (Hkeep H) as (H1 & H2). split; [exact H1|].
    split; [lia | exact H2]. }
  { destruct (Hkeep H) as (H1 & H2). split; [exact H1|].
    split; [lia | exact H2]. }
  injection H as <- <-. cbn.
  split; [intros [?|?]; lia|]. split; [reflexivity|]. split; [lia|].
  split.
  { intros [Hl _]. unfold pending_wf. cbn.
    rewrite !length_replicate. lia. }
  repeat split.
Qed.

Lemma realloc_pending_grows_or_keeps_witness :
  capsicum_realloc_pending_syscall confined empty_record 4
    = (empty_record, confined) /\
  fd_count (fst (capsicum_realloc_pending_syscall confined empty_record 9))
    = 9.
Proof.
  split.
  - destruct (capsicum_realloc_pending_syscall confined empty_record 4)
      as [p' k'] eqn:E.
    destruct (proj1 (realloc_pending_grows_or_keeps _ _ _ _ _ E))
      as [-> ->]; [left; cbn; lia | reflexivity].
  - destruct (capsicum_realloc_pending_syscall confined empty_record 9)
      as [p' k'] eqn:E.
    apply (proj1 (proj2 (realloc_pending_grows_or_keeps _ _ _ _ _ E)));
      cbn; lia.
Defined.

(** ** One rights check, and a run of them *)

Lemma to_uint_idem x : to_uint (to_uint x) = to_uint x.
Proof. unfold to_uint. apply Z.mod_mod. lia. Qed.

Lemma fcheck_to_uint k fd : fcheck k (to_uint fd) = fcheck k fd.
Proof. unfold fcheck. now rewrite to_uint_idem. Qed.

(** Either the check leaves the record alone and fails, or it writes the
    pair at [next_free] and decides by the rights. *)
Lemma require_rights_step k p fd req r p' :
  capsicum_require_rights k p fd req = Done (r, p') ->
  (p' = p /\ is_zero r = false /\
   (r = Neg ENOMEM -> fd_count p <= next_free p)) \/
  (p' = record_push p (to_uint fd) (fcheck k fd) /\
   next_free p < fd_count p /\ fd <> AT_FDCWD /\
   exists a f, fcheck k fd = Addr a /\ objs k !! a = Some f /\
     ((is_zero r = true /\ Z.land (file_rights f) req = req) \/
      (r = Neg ENOTCAPABLE /\ Z.land (file_rights f) req <> req))).
Proof.
  unfold capsicum_require_rights. intros H.
  destruct (decide (fd = AT_FDCWD)).
  { injection H as <- <-. left. repeat split. discriminate. }
  destruct (is_NULL (fcheck k fd)) eqn:Hn.
  { injection H as <- <-. left. repeat split. discriminate. }
  inv_bind H. rename x into f. apply deref_Done in E.
  destruct E as (a & Hfd & Ha).
  inv_bind H. destruct x as [u actual].
  assert (Hact : actual = file_rights f).
  { unfold capsicum_unwrap, file_rights in *.
    destruct (capsicum_is_cap f); cbn in E; [|congruence].
    destruct (private_data f); [|discriminate]. congruence. }
  subst actual.
  destruct (decide (fd_count p <= next_free p)).
  { injection H as <- <-. left. repeat split. trivial. }
  right.
  destruct (decide (Z.land (file_rights f) req = req));
    injection H as <- <-; (split; [reflexivity|]); (split; [lia|]);
    (split; [assumption|]); exists a, f; (split; [assumption|]);
    (split; [assumption|]); [left | right]; split; trivial.
Qed.

Lemma fds_at_push p fd file i :
  pending_wf p -> 0 <= next_free p < fd_count p ->
  fds_at (record_push p fd file) i =
  if decide (i = Z.to_nat (next_free p)) then fd else fds_at p i.
Proof.
  intros [H1 _] Hb. unfold fds_at, record_push. cbn.
  destruct (decide (i = Z.to_nat (next_free p))) as [->|Hne].
  - now rewrite list_lookup_insert_eq by lia.
  - now rewrite list_lookup_insert_ne by congruence.
Qed.

Lemma files_at_push p fd file i :
  pending_wf p -> 0 <= next_free p < fd_count p ->
  files_at (record_push p fd file) i =
  if decide (i = Z.to_nat (next_free p)) then file else files_at p i.
Proof.
  intros [_ H2] Hb. unfold files_at, record_push. cbn.
  destruct (decide (i = Z.to_nat (next_free p))) as [->|Hne].
  - now rewrite list_lookup_insert_eq by lia.
  - now rewrite list_lookup_insert_ne by congruence.
Qed.

Lemma record_bounded_push p fd file :
  record_bounded p -> next_free p < fd_count p ->
  record_bounded (record_push p fd file).
Proof.
  intros [[H1 H2] Hb] Hlt. unfold record_bounded, pending_wf, record_push.
  cbn. rewrite !length_insert. lia.
Qed.

Lemma record_matches_push k p fd :
  record_bounded p -> next_free p < fd_count p -> record_matches k p ->
  record_matches k (record_push p (to_uint fd) (fcheck k fd)).
Proof.
  intros [Hwf Hb] Hlt Hm i Hi.
  rewrite fds_at_push, files_at_push by (trivial; lia).
  destruct (decide (i = Z.to_nat (next_free p))).
  - now rewrite fcheck_to_uint.
  - apply Hm. cbn in Hi. lia.
Qed.

Lemma recorded_push p fd file i fd0 file0 :
  record_bounded p -> next_free p < fd_count p ->
  recorded p i fd0 file0 -> recorded (record_push p fd file) i fd0 file0.
Proof.
  intros [Hwf Hb] Hlt (Hi & Hfd & Hfile). unfold recorded.
  rewrite fds_at_push, files_at_push by (trivial; lia).
  destruct (decide (i = Z.to_nat (next_free p))); [lia|].
  cbn. repeat split; trivial. lia.
Qed.

Lemma recorded_push_new p fd file :
  record_bounded p -> next_free p < fd_count p ->
  recorded (record_push p fd file) (Z.to_nat (next_free p)) fd file.
Proof.
  intros [Hwf Hb] Hlt. unfold recorded.
  rewrite fds_at_push, files_at_push by (trivial; lia).
  destruct (decide _); [|contradiction]. cbn. repeat split. lia.
Qed.

(** A run of checks keeps the record within its arrays and leaves the
    wrapper, the rights for the next installation and the owner alone. *)
Lemma check_fd_args_bounds k l : forall p r p',
  check_fd_args k p l = Done (r, p') -> record_bounded p ->
  record_bounded p' /\ fd_count p' = fd_count p /\
  next_new_cap p' = next_new_cap p /\
  new_cap_rights p' = new_cap_rights p /\ task p' = task p.
Proof.
  induction l as [|[fd req] l IH]; intros p r p' H Hb; cbn in H.
  - injection H as <- <-. repeat split; apply Hb.
  - inv_bind H. destruct x as [r1 p1].
    assert (H1 : record_bounded p1 /\ fd_count p1 = fd_count p /\
                 next_new_cap p1 = next_new_cap p /\
                 new_cap_rights p1 = new_cap_rights p /\ task p1 = task p).
    { apply require_rights_step in E.
      destruct E as [(-> & _)|(-> & Hlt & _)].
      - repeat split; apply Hb.
      - split; [now apply record_bounded_push|]. repeat split. }
    destruct H1 as (Hb1 & Hc1 & Hn1 & Hr1 & Ht1).
    assert (Hstop : Done (r1, p1) = Done (r, p') ->
      record_bounded p' /\ fd_count p' = fd_count p /\
      next_new_cap p' = next_new_cap p /\
      new_cap_rights p' = new_cap_rights p /\ task p' = task p).
    { intros [= <- <-]. auto. }
    destruct r1 as [v|e]; [|now apply Hstop].
    destruct v; try now apply Hstop.
    destruct (IH _ _ _ H Hb1) as (H2 & H3 & H4 & H5 & H6).
    split; [exact H2|]. repeat split; congruence.
Qed.

(** A run of checks that ends with 0 has found every fd argument to
    resolve to a file whose rights cover what is required, and has
    recorded it; the record still matches the descriptor table. *)
Lemma check_fd_args_success k l : forall p r p',
  check_fd_args k p l = Done (r, p') -> is_zero r = true ->
  record_bounded p -> record_matches k p ->
  record_matches k p' /\
  next_free p' = next_free p + Z.of_nat (length l) /\
  (forall i fd file, recorded p i fd file -> recorded p' i fd file) /\
  Forall (fun '(fd, req) =>
            fd <> AT_FDCWD /\
            exists a f, fcheck k fd = Addr a /\ objs k !! a = Some f /\
              Z.land (file_rights f) req = req /\
              exists i, recorded p' i (to_uint fd) (Addr a)) l.
Proof.
  induction l as [|[fd req] l IH]; intros p r p' H Hz Hb Hm; cbn in H.
  - injection H as <- <-. split; [exact Hm|]. split; [cbn; lia|].
    split; [auto | constructor].
  - inv_bind H. destruct x as [r1 p1].
    assert (Hr1 : is_zero r1 = true).
    { destruct r1 as [v|e]; [destruct v|]; trivial;
        injection H as <- <-; exact Hz. }
    apply require_rights_step in E.
    destruct E as [(_ & Hf & _)|(-> & Hlt & Hne & a & f & Hfd & Ha & Hr)];
      [congruence|].
    destruct Hr as [[_ Hland]|[-> _]]; [|discriminate].
    destruct r1 as [v|e]; [|discriminate]. destruct v; try discriminate.
    pose proof (record_bounded_push p (to_uint fd) (fcheck k fd) Hb Hlt)
      as Hb1.
    pose proof (record_matches_push k p fd Hb Hlt Hm) as Hm1.
    destruct (IH _ _ _ H Hz Hb1 Hm1) as (H1 & H2 & H3 & H4).
    split; [exact H1|]. split.
    { rewrite H2. cbn [record_push next_free length].
      rewrite Nat2Z.inj_succ. lia. }
    split.
    { intros i fd0 file0 Hrec. apply H3. now apply recorded_push. }
    constructor; [|exact H4].
    split; [exact Hne|]. exists a, f. split; [exact Hfd|].
    split; [exact Ha|]. split; [exact Hland|].
    exists (Z.to_nat (next_free p)). apply H3. rewrite <- Hfd.
    now apply recorded_push_new.
Qed.

(** ** The interceptor, taken apart *)

Lemma same_env_refl k : same_env k k.
Proof. repeat split. Qed.

Lemma same_env_trans k1 k2 k3 :
  same_env k1 k2 -> same_env k2 k3 -> same_env k1 k3.
Proof.
  intros (A1 & A2 & A3 & A4 & A5 & A6 & A7) (B1 & B2 & B3 & B4 & B5 & B6 & B7).
  repeat split; congruence.
Qed.

Lemma same_env_cap_mode k k' :
  same_env k k' -> capsicum_in_cap_mode k' = capsicum_in_cap_mode k.
Proof.
  intros (_ & _ & H1 & H2 & _). unfold capsicum_in_cap_mode.
  now rewrite H1, H2.
Qed.

Lemma same_env_fcheck k k' fd : same_env k k' -> fcheck k' fd = fcheck k fd.
Proof. intros (H & _). unfold fcheck. now rewrite H. Qed.

Lemma alloc_pending_env k r k' :
  capsicum_alloc_pending_syscall k = (r, k') ->
  same_env k k' /\ objs k' = objs k /\
  (forall e, r = inl e ->
     e = ENOMEM /\ k' = k /\ capsicum_get_pending_syscall k = None) /\
  (forall p, r = inr p ->
     security k' = Some p /\ task p = current k' /\
     (capsicum_get_pending_syscall k = Some p /\ k' = k \/
      capsicum_get_pending_syscall k = None /\
      p = first_record (current k))).
Proof.
  rewrite alloc_pending_result.
  destruct (capsicum_get_pending_syscall k) as [q|] eqn:Eg.
  - intros [= <- <-]. split; [apply same_env_refl|].
    split; [reflexivity|]. split; [discriminate|].
    intros p [= <-]. unfold capsicum_get_pending_syscall in Eg.
    destruct (security k) as [q'|]; [|discriminate].
    destruct (decide (task q' = current k)); [|discriminate].
    injection Eg as ->. split; [reflexivity|]. split; [assumption|].
    now left.
  - destruct (kmem k) as [|[|n]]; intros [= <- <-].
    + split; [apply same_env_refl|]. split; [reflexivity|].
      split; [now intros e [= <-] | discriminate].
    + split; [apply same_env_refl|]. split; [reflexivity|].
      split; [now intros e [= <-] | discriminate].
    + split; [repeat split|]. split; [reflexivity|].
      split; [discriminate|]. intros p [= <-].
      split; [reflexivity|]. split; [reflexivity|]. now right.
Qed.

(** An interception of an enabled subsystem: either no record could be
    had, or the checks ran on the reset record and the result went back
    into the credentials, with at most one wrapper allocated. *)
Lemma intercept_inv tbl nr k arch callnr args r k1 :
  capsicum_enabled k = true ->
  capsicum_intercept_syscall tbl nr k arch callnr args = Done (r, k1) ->
  (r = Neg ENOMEM /\ k1 = k /\ capsicum_get_pending_syscall k = None) \/
  exists pending k0 result p2 c rr,
    capsicum_alloc_pending_syscall k = (inr pending, k0) /\
    capsicum_run_syscall_table tbl k0 (reset_record pending) arch callnr
      args = Done (result, p2) /\
    same_env k0 k1 /\
    security k1 =
      Some (mkPending (fds p2) (files p2) (next_free p2) (fd_count p2)
              c rr (task p2)) /\
    (rr = new_cap_rights p2 \/
     exists f0, deref k0 (files_at p2 0) = Done f0 /\
                capsicum_is_cap f0 = true) /\
    ((objs k1 = objs k0 /\ c = next_new_cap p2 /\ r = result) \/
     (next_new_cap p2 = NULL /\ is_zero result = true /\
      (exists f0, deref k0 (files_at p2 0) = Done f0 /\
                  capsicum_is_cap f0 = true) /\
      ((objs k1 = objs k0 ++ [blank_wrapper] /\
        c = Addr (length (objs k0)) /\ r = result) \/
       (objs k1 = objs k0 /\ c = ERR_PTR ENOMEM /\ r = Neg ENOMEM)))).
Proof.
  intros Hen H. unfold capsicum_intercept_syscall in H.
  rewrite Hen in H. cbn [negb] in H.
  destruct (capsicum_alloc_pending_syscall k) as [[e|pending] k0] eqn:Ea.
  { left. injection H as <- <-.
    destruct (alloc_pending_env _ _ _ Ea) as (_ & _ & He & _).
    destruct (He e eq_refl) as (-> & -> & Hn). auto. }
  right. fold (reset_record pending) in H.
  inv_bind H. destruct x as [result p2].
  exists pending, k0, result, p2.
  assert (Hplain :
    forall rr, (rr = new_cap_rights p2 \/
                exists f0, deref k0 (files_at p2 0) = Done f0 /\
                           capsicum_is_cap f0 = true) ->
    Done (result,
          set_security k0
            (Some (mkPending (fds p2) (files p2) (next_free p2)
                     (fd_count p2) (next_new_cap p2) rr (task p2))))
      = Done (r, k1) ->
    exists c rr0,
      same_env k0 k1 /\
      security k1 =
        Some (mkPending (fds p2) (files p2) (next_free p2) (fd_count p2)
                c rr0 (task p2)) /\
      (rr0 = new_cap_rights p2 \/
       exists f0, deref k0 (files_at p2 0) = Done f0 /\
                  capsicum_is_cap f0 = true) /\
      ((objs k1 = objs k0 /\ c = next_new_cap p2 /\ r = result) \/
       (next_new_cap p2 = NULL /\ is_zero result = true /\
        (exists f0, deref k0 (files_at p2 0) = Done f0 /\
                    capsicum_is_cap f0 = true) /\
        ((objs k1 = objs k0 ++ [blank_wrapper] /\
          c = Addr (length (objs k0)) /\ r = result) \/
         (objs k1 = objs k0 /\ c = ERR_PTR ENOMEM /\ r = Neg ENOMEM))))).
  { intros rr Hrr [= <- <-]. exists (next_new_cap p2), rr.
    split; [repeat split|]. split; [reflexivity|]. split; [exact Hrr|].
    left. repeat split. }
  assert (Hsame : set_security k0 (Some p2) =
                  set_security k0
                    (Some (mkPending (fds p2) (files p2) (next_free p2)
                             (fd_count p2) (next_new_cap p2)
                             (new_cap_rights p2) (task p2))))
    by (now destruct p2).
  destruct (is_zero result && bool_decide (callnr = nr)) eqn:Hcond.
  2:{ rewrite Hsame in H. apply Hplain in H; [|now left].
      destruct H as (c & rr & H). exists c, rr.
      split; [reflexivity|]. split; [exact E | exact H]. }
  apply andb_true_iff in Hcond. destruct Hcond as [Hz _].
  inv_bind H. rename x into f0. inv_bind H. destruct x as [under existing].
  destruct (is_NULL under) eqn:Hu.
  { rewrite Hsame in H. apply Hplain in H; [|now left].
    destruct H as (c & rr & H). exists c, rr.
    split; [reflexivity|]. split; [exact E | exact H]. }
  assert (Hcap : exists f1, deref k0 (files_at p2 0) = Done f1 /\
                            capsicum_is_cap f1 = true).
  { exists f0. split; [exact E0|]. unfold capsicum_unwrap in E1.
    destruct (capsicum_is_cap f0); [reflexivity|]. cbn in E1.
    injection E1 as <- _. discriminate. }
  destruct (is_NULL (next_new_cap p2)) eqn:Hn.
  2:{ apply Hplain in H; [|now right].
      destruct H as (c & rr & H). exists c, rr.
      split; [reflexivity|]. split; [exact E | exact H]. }
  assert (Hnull : next_new_cap p2 = NULL)
    by (destruct (next_new_cap p2); [reflexivity | discriminate..]).
  unfold capsicum_cap_alloc in H.
  destruct (kmem k0) as [|[|n]]; injection H as <- <-.
  - exists (ERR_PTR ENOMEM), (new_cap_rights p2).
    split; [reflexivity|]. split; [exact E|]. split; [repeat split|].
    split; [reflexivity|]. split; [now left|]. right.
    split; [exact Hnull|]. split; [exact Hz|]. split; [exact Hcap|].
    right. repeat split.
  - exists (ERR_PTR ENOMEM), (new_cap_rights p2).
    split; [reflexivity|]. split; [exact E|]. split; [repeat split|].
    split; [reflexivity|]. split; [now left|]. right.
    split; [exact Hnull|]. split; [exact Hz|]. split; [exact Hcap|].
    right. repeat split.
  - exists (Addr (length (objs k0))), existing.
    split; [reflexivity|]. split; [exact E|]. split; [repeat split|].
    split; [reflexivity|]. split; [now right|]. right.
    split; [exact Hnull|]. split; [exact Hz|]. split; [exact Hcap|].
    left. repeat split.
Qed.

Lemma run_table_cases tbl k p arch callnr args result p2 :
  capsicum_run_syscall_table tbl k p arch callnr args = Done (result, p2) ->
  (tbl arch callnr args = None /\ result = Neg ECAPMODE /\ p2 = p) \/
  exists l, tbl arch callnr args = Some l /\
            check_fd_args k p l = Done (result, p2).
Proof.
  unfold capsicum_run_syscall_table.
  destruct (tbl arch callnr args) as [l|]; [eauto|].
  intros [= <- <-]. now left.
Qed.

Lemma alloc_pending_bounded k pending k0 :
  record_arrays_ok k ->
  capsicum_alloc_pending_syscall k = (inr pending, k0) ->
  record_bounded (reset_record pending) /\ task pending = current k0.
Proof.
  intros Hok Ha.
  destruct (alloc_pending_env _ _ _ Ha) as (_ & _ & _ & Hp).
  destruct (Hp pending eq_refl) as (_ & Ht & Hcase). split; [|exact Ht].
  assert (Hwf : pending_wf pending).
  { destruct Hcase as [[Hg _]|[_ ->]]; [exact (Hok _ Hg)|].
    split; reflexivity. }
  destruct Hwf as [H1 H2]. unfold record_bounded, pending_wf. cbn. lia.
Qed.

Lemma get_pending_of_security k p :
  security k = Some p -> task p = current k ->
  capsicum_get_pending_syscall k = Some p.
Proof.
  intros Hs Ht. unfold capsicum_get_pending_syscall. rewrite Hs.
  destruct (decide (task p = current k)); [reflexivity | contradiction].
Qed.

(** The record an interception leaves, seen through its entries. *)
Lemma intercept_record tbl nr k arch callnr args r k1 :
  capsicum_enabled k = true -> record_arrays_ok k ->
  capsicum_intercept_syscall tbl nr k arch callnr args = Done (r, k1) ->
  (r = Neg ENOMEM /\ k1 = k /\ capsicum_get_pending_syscall k = None) \/
  exists pending k0 result p2 p1,
    capsicum_alloc_pending_syscall k = (inr pending, k0) /\
    capsicum_run_syscall_table tbl k0 (reset_record pending) arch callnr
      args = Done (result, p2) /\
    same_env k k0 /\ objs k0 = objs k /\ same_env k0 k1 /\
    record_bounded (reset_record pending) /\
    capsicum_get_pending_syscall k1 = Some p1 /\
    fds p1 = fds p2 /\ files p1 = files p2 /\
    next_free p1 = next_free p2 /\ fd_count p1 = fd_count p2 /\
    (r = Val 0 -> result = Val 0) /\
    (objs k1 = objs k0 \/ objs k1 = objs k0 ++ [blank_wrapper]).
Proof.
  intros Hen Hok H.
  destruct (intercept_inv _ _ _ _ _ _ _ _ Hen H)
    as [Hfail|(pending & k0 & result & p2 & c & rr & Ha & Hrun & Henv
               & Hsec & _ & Hcase)]; [now left|].
  right.
  destruct (alloc_pending_env _ _ _ Ha) as (Henv0 & Hobj0 & _ & _).
  destruct (alloc_pending_bounded _ _ _ Hok Ha) as [Hb Ht].
  exists pending, k0, result, p2,
    (mkPending (fds p2) (files p2) (next_free p2) (fd_count p2) c rr
       (task p2)).
  split; [exact Ha|]. split; [exact Hrun|]. split; [exact Henv0|].
  split; [exact Hobj0|]. split; [exact Henv|]. split; [exact Hb|].
  split.
  { apply get_pending_of_security; [exact Hsec|]. cbn.
    assert (Htask : task p2 = task pending).
    { apply run_table_cases in Hrun.
      destruct Hrun as [(_ & _ & ->)|(l & _ & Hl)]; [reflexivity|].
      now destruct (check_fd_args_bounds _ _ _ _ _ Hl Hb)
        as (_ & _ & _ & _ & ->). }
    destruct Henv as (_ & Hcur & _). congruence. }
  cbn. repeat split; trivial.
  - intros ->.
    destruct Hcase as [(_ & _ & <-)|(_ & _ & _ & [(_ & _ & <-)|(_ & _ & ?)])];
      trivial; discriminate.
  - destruct Hcase as [(Ho & _)|(_ & _ & _ & [(Ho & _)|(Ho & _)])]; auto.
Qed.

(** X3. With the subsystem enabled and the arrays of the thread's record
    (if it has one) as long as [fd_count] says, after an interception the
    record of the thread is well formed: its arrays have the length
    [fd_count] says and the number of entries in use lies between 0 and
    [fd_count], so no check has written beyond the arrays.  Nothing is
    asked of [next_new_cap]. *)
Theorem intercept_keeps_record_bounded
    (tbl : syscall_table) (nr_openat : Z) (k k1 : kernel)
    (arch callnr : Z) (args : list Z) (r : sysret) :
  capsicum_enabled k = true -> record_arrays_ok k ->
  capsicum_intercept_syscall tbl nr_openat k arch callnr args
    = Done (r, k1) ->
  forall p, capsicum_get_pending_syscall k1 = Some p -> record_bounded p.
Proof.
  intros Hen Hok H p Hp.
  destruct (intercept_record _ _ _ _ _ _ _ _ Hen Hok H)
    as [(_ & -> & Hn)|(pending & k0 & result & p2 & p1 & Ha & Hrun & _ & _
                       & _ & Hb & Hp1 & Hfds & Hfiles & Hnf & Hfc & _)].
  { congruence. }
  rewrite Hp1 in Hp. injection Hp as <-.
  assert (Hb2 : record_bounded p2).
  { apply run_table_cases in Hrun.
    destruct Hrun as [(_ & _ & ->)|(l & _ & Hl)]; [exact Hb|].
    exact (proj1 (check_fd_args_bounds _ _ _ _ _ Hl Hb)). }
  destruct Hb2 as [[H1 H2] H3]. unfold record_bounded, pending_wf.
  rewrite Hfds, Hfiles, Hnf, Hfc. auto.
Qed.

Lemma intercept_keeps_record_bounded_witness :
  record_arrays_ok fed_again /\
  exists p, capsicum_get_pending_syscall fed_after_openat = Some p /\
            next_new_cap p = ERR_PTR ENOMEM /\ record_bounded p.
Proof.
  assert (Hok : record_arrays_ok fed_again).
  { intros q Hq. vm_compute in Hq. injection Hq as <-. split; reflexivity. }
  split; [exact Hok|].
  destruct (capsicum_intercept_syscall small_table 257 fed_again 0 257
              [0; 0; 0]) as [[r k1]|h] eqn:E;
    [|vm_compute in E; discriminate].
  assert (Hafter : fed_after_openat = k1)
    by (unfold fed_after_openat; now rewrite E).
  destruct (capsicum_get_pending_syscall fed_after_openat) as [p|] eqn:Ep;
    [|vm_compute in Ep; discriminate].
  exists p. split; [reflexivity|].
  split; [vm_compute in Ep; now injection Ep as <-|].
  rewrite Hafter in Ep.
  exact (intercept_keeps_record_bounded small_table 257 fed_again k1 0 257
           [0; 0; 0] r eq_refl Hok E p Ep).
Defined.

(** X4. An interception touches no descriptor and no existing object:
    the descriptor table, the thread and its mode are as before, and the
    object store is as before or has one uninitialised wrapper more. *)
Theorem intercept_touches_no_descriptor
    (tbl : syscall_table) (nr_openat : Z) (k k1 : kernel)
    (arch callnr : Z) (args : list Z) (r : sysret) :
  capsicum_intercept_syscall tbl nr_openat k arch callnr args
    = Done (r, k1) ->
  same_env k k1 /\
  (objs k1 = objs k \/ objs k1 = objs k ++ [blank_wrapper]).
Proof.
  intros H. destruct (capsicum_enabled k) eqn:Hen.
  2:{ unfold capsicum_intercept_syscall in H. rewrite Hen in H.
      injection H as <- <-. split; [apply same_env_refl | now left]. }
  destruct (intercept_inv _ _ _ _ _ _ _ _ Hen H)
    as [(_ & -> & _)|(pending & k0 & result & p2 & c & rr & Ha & _ & Henv
                      & _ & _ & Hcase)].
  { split; [apply same_env_refl | now left]. }
  destruct (alloc_pending_env _ _ _ Ha) as (Henv0 & Hobj0 & _ & _).
  split; [exact (same_env_trans _ _ _ Henv0 Henv)|].
  rewrite <- Hobj0.
  destruct Hcase as [(Ho & _)|(_ & _ & _ & [(Ho & _)|(Ho & _)])]; auto.
Qed.

Lemma intercept_touches_no_descriptor_witness :
  fdtab confined_after_openat = fdtab confined /\
  objs confined_after_openat = objs confined ++ [blank_wrapper].
Proof.
  destruct (intercept_touches_no_descriptor small_table 257 confined
              confined_after_openat 0 257 [0; 0; 0] (Val 0))
    as [(Hfd & _) _]; [vm_compute; reflexivity|].
  split; [exact Hfd | vm_compute; reflexivity].
Defined.

Lemma recorded_same_fields p q i fd file :
  fds q = fds p -> files q = files p -> next_free q = next_free p ->
  recorded p i fd file -> recorded q i fd file.
Proof.
  unfold recorded, fds_at, files_at. now intros -> -> ->.
Qed.

Lemma record_matches_nothing k p : next_free p = 0 -> record_matches k p.
Proof. intros H i Hi. lia. Qed.

Lemma deref_grown k k' a f :
  objs k' = objs k \/ objs k' = objs k ++ [blank_wrapper] ->
  objs k !! a = Some f -> deref k' (Addr a) = Done f.
Proof.
  intros [Ho|Ho] Ha; apply deref_Addr; rewrite Ho; [exact Ha|].
  now apply lookup_app_l_Some.
Qed.

(** X5. Check, then use.  With the subsystem enabled and the arrays of
    the thread's record (if it has one) as long as [fd_count] says: after
    a successful interception, while the thread is in capability mode,
    the lookup of a checked fd that held a capability at entry returns
    the underlying file of that capability;
    if the fd has meanwhile come to hold another capability the lookup is
    denied; an ordinary file, whatever fd it is found at, is returned as
    it is, without any comparison with the record. *)
Theorem checked_fd_resolves
    (tbl : syscall_table) (nr_openat : Z) (k k1 : kernel)
    (arch callnr : Z) (args : list Z) (l : list (Z * Z)) (fd req : Z)
    (a : nat) (f : file) (R : Z) (u : fileptr) :
  capsicum_enabled k = true -> record_arrays_ok k ->
  capsicum_in_cap_mode k = true ->
  capsicum_intercept_syscall tbl nr_openat k arch callnr args
    = Done (Val 0, k1) ->
  tbl arch callnr args = Some l -> (fd, req) ∈ l ->
  fcheck k fd = Addr a -> objs k !! a = Some f ->
  is_capability f R u -> u <> NULL ->
  capsicum_file_lookup k1 (Addr a) (to_uint fd) = Done u /\
  (forall a' f' R' u',
     a' <> a -> objs k1 !! a' = Some f' -> is_capability f' R' u' ->
     u' <> NULL ->
     capsicum_file_lookup k1 (Addr a') (to_uint fd) = Done NULL) /\
  (forall a' g fd',
     objs k1 !! a' = Some g -> capsicum_is_cap g = false ->
     capsicum_file_lookup k1 (Addr a') fd' = Done (Addr a')).
Proof.
  intros Hen Hok Hmode H Htbl Hin Hfd Ha Hc Hu.
  destruct (intercept_record _ _ _ _ _ _ _ _ Hen Hok H)
    as [(Hr & _)|(pending & k0 & result & p2 & p1 & Halloc & Hrun & Henv0
                  & Hobj0 & Henv & Hb & Hp1 & Hfds & Hfiles & Hnf & _
                  & Hres & Hobj)]; [discriminate|].
  rewrite (Hres eq_refl) in Hrun.
  apply run_table_cases in Hrun.
  destruct Hrun as [(_ & Hr & _)|(l' & Hl' & Hl)]; [discriminate|].
  rewrite Htbl in Hl'. injection Hl' as <-.
  destruct (check_fd_args_success _ _ _ _ _ Hl eq_refl Hb
              (record_matches_nothing k0 (reset_record pending) eq_refl))
    as (Hm & _ & _ & Hall).
  rewrite Forall_forall in Hall. specialize (Hall _ Hin). cbn in Hall.
  destruct Hall as (_ & a0 & f0 & Hfd0 & _ & _ & i & Hrec).
  rewrite (same_env_fcheck _ _ _ Henv0), Hfd in Hfd0.
  injection Hfd0 as <-.
  assert (Hrec1 : recorded p1 i (to_uint fd) (Addr a))
    by (eapply recorded_same_fields; eauto).
  assert (Hmode1 : capsicum_in_cap_mode k1 = true).
  { rewrite (same_env_cap_mode _ _ Henv), (same_env_cap_mode _ _ Henv0).
    exact Hmode. }
  assert (Hall1 : forall j,
            (0 <= j < 0 + Z.to_nat (next_free p1))%nat ->
            fds_at p1 j = to_uint fd -> files_at p1 j = Addr a).
  { intros j Hj Hjfd. unfold fds_at, files_at in *.
    rewrite Hfds in Hjfd. rewrite Hfiles.
    fold (files_at p2 j). fold (fds_at p2 j) in Hjfd.
    rewrite Hm by lia. rewrite Hjfd, fcheck_to_uint.
    now rewrite (same_env_fcheck _ _ _ Henv0). }
  apply recorded_range in Hrec1. destruct Hrec1 as (Hi & Hifd & Hifile).
  split; [|split].
  - rewrite (file_lookup_in_cap_mode k1 p1 (Addr a) (to_uint fd) f R u);
      trivial.
    + rewrite lookup_loop_found; [reflexivity | exact Hall1 |].
      right. exists i. split; [lia | exact Hifd].
    + eapply deref_grown; [|rewrite Hobj0; exact Ha].
      exact Hobj.
  - intros a' f' R' u' Hne Ha' Hc' Hu'.
    rewrite (file_lookup_in_cap_mode k1 p1 (Addr a') (to_uint fd) f' R' u');
      trivial; [|now apply deref_Addr].
    rewrite lookup_loop_mismatch; [reflexivity|].
    exists i. split; [lia|]. split; [exact Hifd|]. rewrite Hifile.
    congruence.
  - intros a' g fd' Ha' Hg. unfold capsicum_file_lookup.
    rewrite (deref_Addr _ _ _ Ha'). cbn [obind].
    now rewrite (unwrap_ordinary _ _ Hg).
Qed.

Lemma checked_fd_resolves_witness :
  capsicum_file_lookup confined_after_openat (Addr 1%nat) 0
    = Done (Addr 0%nat).
Proof.
  refine (proj1 (checked_fd_resolves small_table 257 confined
                   confined_after_openat 0 257 [0; 0; 0] [(0, 0)] 0 0 1
                   read_capability 1 (Addr 0%nat) eq_refl _ eq_refl _
                   eq_refl _ eq_refl eq_refl (conj eq_refl eq_refl) _)).
  - intros p Hp. discriminate Hp.
  - vm_compute. reflexivity.
  - apply list_elem_of_In. left. reflexivity.
  - discriminate.
Defined.

(** X6. With the subsystem enabled (with it disabled every syscall is
    let through) and the arrays of the thread's record (if it has one) as
    long as [fd_count] says, the interceptor lets a syscall through only
    if the table knows it and every (fd, rights) pair the table lists for
    it passed its check: the fd is not the current-directory value, it resolves to a
    file, and the rights of that file cover the required rights. *)
Theorem intercept_allows_only_covered
    (tbl : syscall_table) (nr_openat : Z) (k k1 : kernel)
    (arch callnr : Z) (args : list Z) :
  capsicum_enabled k = true -> record_arrays_ok k ->
  capsicum_intercept_syscall tbl nr_openat k arch callnr args
    = Done (Val 0, k1) ->
  exists l,
    tbl arch callnr args = Some l /\
    Forall (fun '(fd, req) =>
              fd <> AT_FDCWD /\
              exists a f, fcheck k fd = Addr a /\ objs k !! a = Some f /\
                          Z.land (file_rights f) req = req) l.
Proof.
  intros Hen Hok H.
  destruct (intercept_record _ _ _ _ _ _ _ _ Hen Hok H)
    as [(Hr & _)|(pending & k0 & result & p2 & p1 & Halloc & Hrun & Henv0
                  & Hobj0 & _ & Hb & _ & _ & _ & _ & _ & Hres & _)];
    [discriminate|].
  rewrite (Hres eq_refl) in Hrun.
  apply run_table_cases in Hrun.
  destruct Hrun as [(_ & Hr & _)|(l & Hl' & Hl)]; [discriminate|].
  exists l. split; [exact Hl'|].
  destruct (check_fd_args_success _ _ _ _ _ Hl eq_refl Hb
              (record_matches_nothing k0 (reset_record pending) eq_refl))
    as (_ & _ & _ & Hall).
  eapply Forall_impl; [exact Hall|].
  intros [fd req] (Hne & a & f & Hfd & Ha & Hland & _).
  split; [exact Hne|]. exists a, f.
  rewrite (same_env_fcheck _ _ _ Henv0) in Hfd. rewrite Hobj0 in Ha.
  auto.
Qed.

Lemma intercept_allows_only_covered_witness :
  exists l,
    small_table 0 257 [0; 0; 0] = Some l /\
    Forall (fun '(fd, req) =>
              fd <> AT_FDCWD /\
              exists a f, fcheck confined fd = Addr a /\
                          objs confined !! a = Some f /\
                          Z.land (file_rights f) req = req) l.
Proof.
  apply (intercept_allows_only_covered small_table 257 confined
           confined_after_openat 0 257 [0; 0; 0]).
  - reflexivity.
  - intros p Hp. discriminate Hp.
  - vm_compute. reflexivity.
Defined.

(** X7. A wrapper (or whatever else is not NULL) that the thread's record
    holds in [next_new_cap] survives an interception: nothing is
    allocated and the record still holds the same pointer afterwards. *)
Theorem intercept_keeps_held_wrapper
    (tbl : syscall_table) (nr_openat : Z) (k k1 : kernel)
    (arch callnr : Z) (args : list Z) (r : sysret)
    (p : capsicum_pending_syscall) :
  capsicum_enabled k = true ->
  capsicum_get_pending_syscall k = Some p -> next_new_cap p <> NULL ->
  capsicum_intercept_syscall tbl nr_openat k arch callnr args
    = Done (r, k1) ->
  objs k1 = objs k /\
  exists p1, capsicum_get_pending_syscall k1 = Some p1 /\
             next_new_cap p1 = next_new_cap p.
Proof.
  intros Hen Hp Hheld H.
  destruct (intercept_inv _ _ _ _ _ _ _ _ Hen H)
    as [(_ & _ & Hn)|(pending & k0 & result & p2 & c & rr & Ha & Hrun
                      & Henv & Hsec & _ & Hcase)]; [congruence|].
  rewrite (alloc_pending_Some _ _ Hp) in Ha. injection Ha as <- <-.
  assert (Hp2 : next_new_cap p2 = next_new_cap p /\ task p2 = task p).
  { apply run_table_cases in Hrun.
    destruct Hrun as [(_ & _ & ->)|(l & _ & Hl)]; [now split|].
    apply check_fd_args_inv in Hl. destruct Hl as (H1 & H2 & _).
    now split. }
  destruct Hp2 as [Hc2 Ht2].
  destruct Hcase as [(Ho & -> & _)|(Hnull & _)]; [|congruence].
  split; [exact Ho|].
  exists (mkPending (fds p2) (files p2) (next_free p2) (fd_count p2)
            (next_new_cap p2) rr (task p2)).
  split; [|exact Hc2].
  apply get_pending_of_security; [exact Hsec|]. cbn.
  destruct Henv as (_ & Hcur & _). rewrite Ht2, Hcur.
  unfold capsicum_get_pending_syscall in Hp.
  destruct (security k) as [q|]; [|discriminate].
  destruct (decide (task q = current k)); [|discriminate]. congruence.
Qed.

Lemma intercept_keeps_held_wrapper_witness :
  objs confined_after_dup = objs confined_after_openat /\
  exists p1, capsicum_get_pending_syscall confined_after_dup = Some p1 /\
             next_new_cap p1 = Addr 2%nat.
Proof.
  destruct (capsicum_get_pending_syscall confined_after_openat)
    as [p|] eqn:Ep; [|vm_compute in Ep; discriminate].
  assert (Hn : next_new_cap p = Addr 2%nat)
    by (vm_compute in Ep; injection Ep as <-; reflexivity).
  destruct (intercept_keeps_held_wrapper small_table 257
              confined_after_openat confined_after_dup 0 32 [0; 0; 0]
              (Val 0) p eq_refl Ep)
    as (Ho & p1 & Hp1 & Hc).
  - rewrite Hn. discriminate.
  - vm_compute. reflexivity.
  - split; [exact Ho|]. exists p1. split; [exact Hp1 | congruence].
Defined.

(** X8. openat relative to an ordinary directory fd, with the subsystem
    enabled and the arrays of the thread's record (if it has one) as long
    as [fd_count] says: after the successful interception the thread has
    a record, nothing has been allocated, the rights for
    the next installation are 0 and [next_new_cap] is what it was (NULL
    for a thread that had no record); with [next_new_cap] NULL the install
    hook hands every file back as it is. *)
Theorem openat_ordinary_directory
    (tbl : syscall_table) (nr_openat : Z) (k k1 : kernel) (arch : Z)
    (args : list Z) (dfd required : Z) (rest : list (Z * Z)) (a : nat)
    (f : file) :
  capsicum_enabled k = true -> record_arrays_ok k ->
  tbl arch nr_openat args = Some ((dfd, required) :: rest) ->
  fcheck k dfd = Addr a -> objs k !! a = Some f ->
  capsicum_is_cap f = false ->
  capsicum_intercept_syscall tbl nr_openat k arch nr_openat args
    = Done (Val 0, k1) ->
  objs k1 = objs k /\
  exists p1,
    capsicum_get_pending_syscall k1 = Some p1 /\
    new_cap_rights p1 = 0 /\
    (capsicum_get_pending_syscall k = None -> next_new_cap p1 = NULL) /\
    (forall p, capsicum_get_pending_syscall k = Some p ->
               next_new_cap p1 = next_new_cap p) /\
    (next_new_cap p1 = NULL ->
     forall b g fd, objs k1 !! b = Some g ->
       capsicum_file_install k1 (Addr b) fd = Done (Addr b, k1)).
Proof.
  intros Hen Hok Htbl Hfd Ha Hf H.
  destruct (intercept_inv _ _ _ _ _ _ _ _ Hen H)
    as [(Hr & _)|(pending & k0 & result & p2 & c & rr & Halloc & Hrun
                  & Henv & Hsec & Hrr & Hcase)]; [discriminate|].
  destruct (alloc_pending_env _ _ _ Halloc) as (Henv0 & Hobj0 & _ & Hpend).
  destruct (Hpend pending eq_refl) as (_ & Htask & Hwhich).
  destruct (alloc_pending_bounded _ _ _ Hok Halloc) as [[Hwf _] _].
  unfold capsicum_run_syscall_table in Hrun. rewrite Htbl in Hrun.
  assert (Hres : is_zero result = true).
  { destruct Hcase as [(_ & _ & <-)|(_ & Hz & _)]; trivial. }
  pose proof (check_fd_args_new_cap_rights _ _ _ _ _ Hrun) as Hncr.
  pose proof (check_fd_args_first _ _ _ _ _ _ _ Hrun Hres Hwf eq_refl)
    as (Hfile0 & Hcap2 & Htask2).
  cbn in Hncr, Hcap2, Htask2.
  rewrite (same_env_fcheck _ _ _ Henv0), Hfd in Hfile0.
  assert (Hnocap : ~ exists f0, deref k0 (files_at p2 0) = Done f0 /\
                                capsicum_is_cap f0 = true).
  { intros (f0 & Hd & Hc0). rewrite Hfile0 in Hd.
    erewrite deref_Addr in Hd by (rewrite Hobj0; exact Ha).
    injection Hd as <-. congruence. }
  destruct Hcase as [(Ho & -> & _)|(_ & _ & Hcap0 & _)]; [|contradiction].
  destruct Hrr as [->|Hcap0]; [|contradiction].
  split; [congruence|].
  eexists. split.
  { apply get_pending_of_security; [exact Hsec|]. cbn.
    destruct Henv as (_ & Hcur & _). congruence. }
  cbn. split; [exact Hncr|]. split; [|split].
  - intros Hnone. rewrite Hcap2.
    destruct Hwhich as [[Hsome _]|[_ ->]]; [congruence | reflexivity].
  - intros p Hp. rewrite Hcap2.
    destruct Hwhich as [[Hsome _]|[Hnone _]]; congruence.
  - intros Hnull b g fd Hb. unfold capsicum_file_install.
    rewrite (deref_Addr _ _ _ Hb). cbn [obind].
    destruct (capsicum_is_cap g); [reflexivity|].
    erewrite get_pending_of_security;
      [|exact Hsec|cbn; destruct Henv as (_ & Hcur & _); congruence].
    cbn. rewrite Hnull. cbn. now rewrite orb_true_r.
Qed.

Lemma openat_ordinary_directory_witness :
  exists k1,
    capsicum_intercept_syscall small_table 257 confined 0 257 [3; 0; 0]
      = Done (Val 0, k1) /\
    objs k1 = objs confined /\
    capsicum_file_install k1 (Addr 0%nat) 1 = Done (Addr 0%nat, k1).
Proof.
  destruct (capsicum_intercept_syscall small_table 257 confined 0 257
              [3; 0; 0]) as [[r k1]|h] eqn:E;
    [|vm_compute in E; discriminate].
  assert (Hr : r = Val 0) by (vm_compute in E; now injection E as <- _).
  subst r. exists k1. split; [reflexivity|].
  destruct (openat_ordinary_directory small_table 257 confined k1 0
              [3; 0; 0] 3 0 [] 0 ordinary_file eq_refl)
    as (Ho & p1 & Hp1 & _ & Hnone & _ & Hinst); try reflexivity.
  - intros p Hp. discriminate Hp.
  - exact E.
  - split; [exact Ho|]. apply (Hinst (Hnone eq_refl) 0%nat ordinary_file).
    rewrite Ho. reflexivity.
Defined.

(** ** cap_new, in detail *)

Lemma get_unused_fd_free k nfd :
  get_unused_fd k = Val nfd ->
  exists i, nfd = Z.of_nat i /\ (i <= length (fdtab k))%nat /\
            (i < nofile k)%nat /\ slot k i = NULL.
Proof.
  unfold get_unused_fd, slot.
  destruct (list_find _ (fdtab k)) as [[i x]|] eqn:E.
  - apply list_find_Some in E. destruct E as (Hi & Hx & _).
    pose proof (lookup_lt_Some _ _ _ Hi).
    destruct (decide (i < nofile k)%nat); [|discriminate].
    intros [= <-]. exists i. rewrite Hi. cbn. repeat split; trivial; lia.
  - destruct (decide (length (fdtab k) < nofile k)%nat); [|discriminate].
    intros [= <-]. exists (length (fdtab k)).
    rewrite lookup_ge_None_2 by lia. repeat split; trivial; lia.
Qed.

Lemma fd_install_other k i p j :
  (i <= length (fdtab k))%nat -> j <> i ->
  slot (fd_install k (Z.of_nat i) p) j = slot k j.
Proof.
  intros Hi Hne. unfold slot, fd_install. rewrite Nat2Z.id.
  destruct (decide (i < length (fdtab k))%nat); cbn.
  - now rewrite list_lookup_insert_ne by congruence.
  - replace (i - length (fdtab k))%nat with 0%nat by lia. cbn.
    destruct (decide (j < length (fdtab k))%nat).
    + now rewrite lookup_app_l by lia.
    + rewrite (lookup_ge_None_2 (fdtab k)) by lia.
      rewrite lookup_ge_None_2; [reflexivity|].
      rewrite length_app. cbn. lia.
Qed.

Lemma fd_install_fields k fd p :
  objs (fd_install k fd p) = objs k /\
  security (fd_install k fd p) = security k /\
  umem (fd_install k fd p) = umem k /\
  kmem (fd_install k fd p) = kmem k /\
  nofile (fd_install k fd p) = nofile k /\
  capsicum_enabled (fd_install k fd p) = capsicum_enabled k.
Proof. unfold fd_install. destruct (decide _); repeat split. Qed.

(** The state [capsicum_install_fd] leaves on an ordinary file. *)
Lemma install_fd_post k b g r nfd :
  objs k !! b = Some g -> capsicum_is_cap g = false ->
  get_unused_fd k = Val nfd -> (2 <= kmem k)%nat ->
  capsicum_install_fd k (Addr b) r =
  Done (Val nfd,
        fd_install
          (set_kmem
             (set_objs k
                (<[length (objs k) :=
                     mkFile capsicum_file_ops (Some (mkCap r (Addr b))) 1]>
                   (<[b := mkFile (f_op g) (private_data g) (f_count g + 1)]>
                      (objs k ++ [blank_wrapper]))))
             (kmem k - 2))
          nfd (Addr (length (objs k)))).
Proof.
  intros Hb Hg Hfd Hmem.
  pose proof (lookup_lt_Some _ _ _ Hb) as Hlt.
  unfold capsicum_install_fd. rewrite Hfd, (cap_alloc_ok _ Hmem).
  erewrite deref_Addr by (cbn; rewrite lookup_app_l by lia; exact Hb).
  cbn [obind]. rewrite Hg. cbn [obind].
  erewrite get_file_Addr by (cbn; rewrite lookup_app_l by lia; exact Hb).
  cbn [obind].
  erewrite cap_set_ok; cycle 1.
  { cbn. rewrite list_lookup_insert_ne by lia.
    rewrite lookup_app_r by lia. rewrite Nat.sub_diag. reflexivity. }
  { reflexivity. }
  { cbn. eauto. }
  reflexivity.
Qed.

(** What a successful cap_new leaves behind. *)
Lemma sys_cap_new_post k f g orig_fd new_rights nfd a b :
  capsicum_enabled k = true ->
  fcheck k orig_fd = Addr a -> objs k !! a = Some f ->
  wrapped_file a f = Some b -> objs k !! b = Some g ->
  capsicum_is_cap g = false -> f_count g <> 0 ->
  get_unused_fd k = Val nfd -> (2 <= kmem k)%nat ->
  exists k',
    sys_cap_new k orig_fd new_rights = Done (Val nfd, k') /\
    length (objs k') = S (length (objs k)) /\
    objs k' !! length (objs k) =
      Some (mkFile capsicum_file_ops
              (Some (mkCap (Z.land new_rights (file_rights f)) (Addr b))) 1) /\
    objs k' !! b = Some (mkFile (f_op g) (private_data g) (f_count g + 2)) /\
    (forall c, c <> b -> (c < length (objs k))%nat ->
               objs k' !! c = objs k !! c) /\
    fdtab k' = fdtab (fd_install k nfd (Addr (length (objs k)))) /\
    security k' = security k /\ umem k' = umem k /\
    kmem k' = (kmem k - 2)%nat /\ nofile k' = nofile k /\
    capsicum_enabled k' = true.
Proof.
  intros Hen Hfd Ha Hw Hb Hg Hcnt Hslot Hmem.
  unfold sys_cap_new, do_sys_cap_new. rewrite Hen, Hfd. cbn [negb is_NULL].
  rewrite (deref_Addr _ _ _ Ha). cbn [obind].
  assert (Hun : (if capsicum_is_cap f
                 then capsicum_unwrap f u64_max
                 else Done (Addr a, u64_max)) = Done (Addr b, file_rights f)).
  { unfold wrapped_file in Hw. unfold capsicum_unwrap, file_rights.
    destruct (capsicum_is_cap f); cbn [negb].
    - destruct (private_data f) as [[r0 u0]|]; [|discriminate].
      cbn in *. destruct u0; try discriminate. now injection Hw as ->.
    - now injection Hw as ->. }
  rewrite Hun. cbn [obind is_NULL].
  rewrite (deref_Addr _ _ _ Hb). cbn [obind].
  destruct (decide (f_count g = 0)); [contradiction|].
  rewrite (get_file_Addr _ _ _ Hb). cbn [obind].
  pose proof (lookup_lt_Some _ _ _ Hb) as Hlt.
  rewrite (install_fd_post _ b
             (mkFile (f_op g) (private_data g) (f_count g + 1)) _ nfd);
    [| cbn; now apply list_lookup_insert_eq | exact Hg | exact Hslot
     | exact Hmem].
  match goal with
  | |- context [fd_install ?KK ?fd ?W] =>
      destruct (fd_install_fields KK fd W) as (Ho & Hs & Hu & Hk & Hn & He);
      assert (Ht : fdtab (fd_install KK fd W)
                   = fdtab (fd_install k fd W))
        by (unfold fd_install; cbn; destruct (decide _); reflexivity);
      remember (fd_install KK fd W) as K' eqn:HK'
  end.
  clear HK'. cbn in Ho, Hs, Hu, Hk, Hn, He, Ht.
  rewrite (length_insert (objs k)) in Ho, Ht.
  exists K'. split; [reflexivity|].
  rewrite Ho, Hs, Hu, Hk, Hn, He, Ht.
  split; [rewrite length_insert, length_insert, length_app, length_insert;
          cbn; lia|].
  split.
  { apply list_lookup_insert_eq.
    rewrite length_insert, length_app, length_insert. cbn. lia. }
  split.
  { rewrite list_lookup_insert_ne by lia.
    rewrite list_lookup_insert_eq
      by (rewrite length_app, length_insert; lia).
    do 2 f_equal. lia. }
  split.
  { intros c Hc1 Hc2. rewrite !list_lookup_insert_ne by lia.
    rewrite lookup_app_l by (rewrite length_insert; lia).
    now rewrite list_lookup_insert_ne by congruence. }
  repeat split; trivial.
Qed.

Lemma get_unused_fd_error k e : get_unused_fd k = Neg e -> e = EMFILE.
Proof.
  unfold get_unused_fd. destruct (decide _); [discriminate|].
  now intros [= <-].
Qed.

(** X9. A cap_new that fails installs nothing: the descriptor table, the
    number of objects, the record and the memory are as before.  With the
    subsystem disabled it fails with ENOSYS and the state is unchanged.
    With it enabled, either it fails with EBADF and the state is
    unchanged, or [orig_fd] named a live file and the installation failed
    for want of a descriptor or of a wrapper: then the ordinary file
    underneath [orig_fd] (the file itself, or the one its capability
    wraps) has kept the reference taken before the installation was
    tried, and nothing else has changed. *)
Theorem cap_new_failure_installs_nothing
    (k k' : kernel) (orig_fd new_rights : Z) (e : errno) :
  sys_cap_new k orig_fd new_rights = Done (Neg e, k') ->
  fdtab k' = fdtab k /\ length (objs k') = length (objs k) /\
  security k' = security k /\ kmem k' = kmem k /\
  (capsicum_enabled k = false -> e = ENOSYS /\ k' = k) /\
  (capsicum_enabled k = true ->
   (e = EBADF /\ k' = k) \/
   exists a f b g,
     fcheck k orig_fd = Addr a /\ objs k !! a = Some f /\
     wrapped_file a f = Some b /\ objs k !! b = Some g /\
     f_count g <> 0 /\
     (get_unused_fd k = Neg e \/
      (exists fd, get_unused_fd k = Val fd) /\
      fst (capsicum_cap_alloc k) = ERR_PTR e) /\
     k' = set_objs k
            (<[b := mkFile (f_op g) (private_data g) (f_count g + 1)]>
               (objs k))).
Proof.
  intros H. unfold sys_cap_new in H.
  destruct (capsicum_enabled k) eqn:Hen; cbn [negb] in H.
  2:{ injection H as <- <-. repeat split; trivial; discriminate. }
  assert (Hsame : Done (Neg EBADF, k) = Done (Neg e, k') ->
            fdtab k' = fdtab k /\ length (objs k') = length (objs k) /\
            security k' = security k /\ kmem k' = kmem k /\
            e = EBADF /\ k' = k).
  { intros [= <- <-]. repeat split; trivial. }
  assert (Hbadf : Done (Neg EBADF, k) = Done (Neg e, k') ->
            fdtab k' = fdtab k /\ length (objs k') = length (objs k) /\
            security k' = security k /\ kmem k' = kmem k /\
            (true = false -> e = ENOSYS /\ k' = k) /\
            (true = true ->
             (e = EBADF /\ k' = k) \/
             exists a f b g,
               fcheck k orig_fd = Addr a /\ objs k !! a = Some f /\
               wrapped_file a f = Some b /\ objs k !! b = Some g /\
               f_count g <> 0 /\
               (get_unused_fd k = Neg e \/
                (exists fd, get_unused_fd k = Val fd) /\
                fst (capsicum_cap_alloc k) = ERR_PTR e) /\
               k' = set_objs k
                      (<[b := mkFile (f_op g) (private_data g)
                                (f_count g + 1)]> (objs k)))).
  { intros Heq. destruct (Hsame Heq) as (H1 & H2 & H3 & H4 & H5 & H6).
    do 4 (split; [assumption|]). split; [discriminate|].
    intros _. now left. }
  unfold do_sys_cap_new in H.
  destruct (is_NULL (fcheck k orig_fd)) eqn:Hnull; [now apply Hbadf|].
  inv_bind H. rename x into f. inv_bind H. destruct x as [file' existing].
  destruct (is_NULL file'); [now apply Hbadf|].
  inv_bind H. rename x into g.
  destruct (decide (f_count g = 0)) as [|Hcnt]; [now apply Hbadf|].
  inv_bind H. rename x into k1.
  apply deref_Done in E. destruct E as (a & Hfd & Ha).
  apply deref_Done in E1. destruct E1 as (b & -> & Hb).
  assert (Hw : wrapped_file a f = Some b).
  { unfold wrapped_file. unfold capsicum_unwrap in E0.
    destruct (capsicum_is_cap f); cbn [negb] in E0.
    - destruct (private_data f) as [cap|]; [|discriminate].
      injection E0 as E0 _. now rewrite E0.
    - injection E0 as E0 _. rewrite Hfd in E0. now injection E0 as ->. }
  rewrite (get_file_Addr _ _ _ Hb) in E2. injection E2 as <-.
  assert (Hleak : forall e0,
    get_unused_fd k = Neg e0 \/
    (exists fd, get_unused_fd k = Val fd) /\
    fst (capsicum_cap_alloc k) = ERR_PTR e0 ->
    Done (Neg e0,
          set_objs k
            (<[b := mkFile (f_op g) (private_data g) (f_count g + 1)]>
               (objs k))) = Done (Neg e, k') ->
    fdtab k' = fdtab k /\ length (objs k') = length (objs k) /\
    security k' = security k /\ kmem k' = kmem k /\
    (true = false -> e = ENOSYS /\ k' = k) /\
    (true = true ->
     (e = EBADF /\ k' = k) \/
     exists a0 f0 b0 g0,
       fcheck k orig_fd = Addr a0 /\ objs k !! a0 = Some f0 /\
       wrapped_file a0 f0 = Some b0 /\ objs k !! b0 = Some g0 /\
       f_count g0 <> 0 /\
       (get_unused_fd k = Neg e \/
        (exists fd, get_unused_fd k = Val fd) /\
        fst (capsicum_cap_alloc k) = ERR_PTR e) /\
       k' = set_objs k
              (<[b0 := mkFile (f_op g0) (private_data g0)
                         (f_count g0 + 1)]> (objs k)))).
  { intros e0 Hwhy [= <- <-]. cbn [fdtab objs security kmem set_objs].
    rewrite length_insert. do 4 (split; [reflexivity|]).
    split; [discriminate|].
    intros _. right. exists a, f, b, g. repeat split; trivial. }
  assert (Hal : (kmem k < 2)%nat ->
                fst (capsicum_cap_alloc k) = ERR_PTR ENOMEM).
  { unfold capsicum_cap_alloc. destruct (kmem k) as [|[|m]];
      [reflexivity | reflexivity | lia]. }
  clear Hsame Hbadf. unfold capsicum_install_fd in H.
  change (get_unused_fd (set_objs k _)) with (get_unused_fd k) in H.
  remember (get_unused_fd k) as s eqn:Hslot in H. symmetry in Hslot.
  destruct s as [fd0|e0].
  2:{ apply (Hleak e0); [now left | exact H]. }
  unfold capsicum_cap_alloc in H. cbn [kmem set_objs] in H.
  remember (kmem k) as n eqn:Hk in H.
  destruct n as [|[|m]].
  - apply (Hleak ENOMEM); [|exact H].
    right. split; [now exists fd0 | apply Hal; lia].
  - apply (Hleak ENOMEM); [|exact H].
    right. split; [now exists fd0 | apply Hal; lia].
  - inv_bind H. inv_bind H. inv_bind H. inv_bind H. discriminate.
Qed.

Lemma cap_new_failure_installs_nothing_witness :
  exists k',
    sys_cap_new (set_kmem confined 1) 0 1 = Done (Neg ENOMEM, k') /\
    fdtab k' = fdtab confined /\
    k' = set_objs (set_kmem confined 1)
           (<[0%nat := mkFile (f_op ordinary_file)
                         (private_data ordinary_file)
                         (f_count ordinary_file + 1)]>
              (objs confined)).
Proof.
  destruct (sys_cap_new (set_kmem confined 1) 0 1) as [[r k']|h] eqn:E;
    [|vm_compute in E; discriminate].
  assert (Hr : r = Neg ENOMEM) by (vm_compute in E; now injection E as <- _).
  subst r. exists k'. split; [reflexivity|].
  destruct (cap_new_failure_installs_nothing _ _ _ _ _ E)
    as (Hfd & _ & _ & _ & _ & Hon).
  split; [exact Hfd|].
  destruct (Hon eq_refl) as [[Hbad _]|(a & f & b & g & Ha & Hf & Hw & Hg
                                       & _ & _ & Hk)];
    [discriminate|].
  vm_compute in Ha. injection Ha as <-.
  vm_compute in Hf. injection Hf as <-.
  vm_compute in Hw. injection Hw as <-.
  vm_compute in Hg. injection Hg as <-.
  exact Hk.
Defined.

(** X10. References.  A successful cap_new leaves the wrapped file with
    two references more than before; the release of the new capability
    then drops one, so that after cap_new and release the file holds one
    reference more than it had. *)
Theorem cap_new_then_release
    (k : kernel) (f g : file) (orig_fd new_rights nfd : Z) (a b : nat) :
  capsicum_enabled k = true ->
  fcheck k orig_fd = Addr a -> objs k !! a = Some f ->
  wrapped_file a f = Some b -> objs k !! b = Some g ->
  capsicum_is_cap g = false -> f_count g <> 0 ->
  get_unused_fd k = Val nfd -> (2 <= kmem k)%nat ->
  exists k' w k'',
    sys_cap_new k orig_fd new_rights = Done (Val nfd, k') /\
    fdtab k' !! Z.to_nat nfd = Some (Addr w) /\
    (f_count <$> objs k' !! b) = Some (f_count g + 2) /\
    capsicum_release k' (Addr w) = Done (Val 0, k'') /\
    (f_count <$> objs k'' !! b) = Some (f_count g + 1).
Proof.
  intros Hen Hfd Ha Hw Hb Hg Hcnt Hslot Hmem.
  destruct (sys_cap_new_post k f g orig_fd new_rights nfd a b)
    as (k' & Hnew & Hlen & Hcap & Hb' & _ & Htab & _); trivial.
  destruct (get_unused_fd_slot _ _ Hslot) as (i & -> & Hi & _).
  pose proof (lookup_lt_Some _ _ _ Hb) as Hlt.
  exists k', (length (objs k)). eexists.
  split; [exact Hnew|]. split.
  { rewrite Htab, Nat2Z.id. now apply fd_install_lookup. }
  split; [now rewrite Hb'|].
  unfold capsicum_release. rewrite (deref_Addr _ _ _ Hcap). cbn.
  unfold fput, add_ref. rewrite (deref_Addr _ _ _ Hb'). cbn.
  erewrite deref_Addr
    by (cbn; rewrite list_lookup_insert_ne by lia; exact Hcap).
  cbn. split; [reflexivity|]. cbn [objs set_kmem set_objs].
  rewrite list_lookup_insert_ne by lia.
  rewrite list_lookup_insert_eq by (rewrite Hlen; lia).
  cbn. f_equal. lia.
Qed.

Lemma cap_new_then_release_witness :
  exists k' w k'',
    sys_cap_new confined 3 1 = Done (Val 1, k') /\
    fdtab k' !! 1%nat = Some (Addr w) /\
    (f_count <$> objs k' !! 0%nat) = Some 3 /\
    capsicum_release k' (Addr w) = Done (Val 0, k'') /\
    (f_count <$> objs k'' !! 0%nat) = Some 2.
Proof.
  apply (cap_new_then_release confined ordinary_file ordinary_file 3 1 1
           0 0); try reflexivity; try discriminate. cbn. lia.
Defined.

(** X11. A successful cap_new changes one descriptor only: the slot it
    returns was free, every other slot holds what it held, every object
    that existed keeps its kind and, if it is a capability, its rights and
    underlying file, and the thread's record is untouched. *)
Theorem cap_new_changes_one_slot
    (k : kernel) (f g : file) (orig_fd new_rights nfd : Z) (a b : nat) :
  capsicum_enabled k = true ->
  fcheck k orig_fd = Addr a -> objs k !! a = Some f ->
  wrapped_file a f = Some b -> objs k !! b = Some g ->
  capsicum_is_cap g = false -> f_count g <> 0 ->
  get_unused_fd k = Val nfd -> (2 <= kmem k)%nat ->
  exists k',
    sys_cap_new k orig_fd new_rights = Done (Val nfd, k') /\
    slot k (Z.to_nat nfd) = NULL /\
    (forall i, i <> Z.to_nat nfd -> slot k' i = slot k i) /\
    (forall c o, objs k !! c = Some o ->
       exists o', objs k' !! c = Some o' /\ f_op o' = f_op o /\
                  private_data o' = private_data o) /\
    security k' = security k.
Proof.
  intros Hen Hfd Ha Hw Hb Hg Hcnt Hslot Hmem.
  destruct (sys_cap_new_post k f g orig_fd new_rights nfd a b)
    as (k' & Hnew & _ & _ & Hb' & Hother & Htab & Hsec & _); trivial.
  destruct (get_unused_fd_free _ _ Hslot) as (i & -> & Hi & _ & Hfree).
  exists k'. split; [exact Hnew|]. rewrite Nat2Z.id.
  split; [exact Hfree|]. split; [|split; [|exact Hsec]].
  - intros j Hj. unfold slot at 1. rewrite Htab.
    now apply fd_install_other.
  - intros c o Hc. destruct (decide (c = b)) as [->|Hne].
    + rewrite Hb in Hc. injection Hc as <-. eexists. split; [exact Hb'|].
      split; reflexivity.
    + exists o. rewrite Hother; [auto | exact Hne |].
      now apply lookup_lt_Some in Hc.
Qed.

Lemma cap_new_changes_one_slot_witness :
  exists k',
    sys_cap_new confined 0 3 = Done (Val 1, k') /\
    slot confined 1 = NULL /\
    slot k' 0 = Addr 1%nat /\ slot k' 3 = Addr 0%nat.
Proof.
  destruct (cap_new_changes_one_slot confined read_capability ordinary_file
              0 3 1 1 0)
    as (k' & H1 & H2 & H3 & _); try reflexivity; try discriminate;
    [cbn; lia|].
  exists k'. split; [exact H1|]. split; [exact H2|].
  split; rewrite H3 by (cbn; lia); reflexivity.
Defined.

Lemma to_uint_small x : 0 <= x < 2 ^ 32 -> to_uint x = x.
Proof. intros H. unfold to_uint. now apply Z.mod_small. Qed.

Lemma fcheck_new_fd k k' i p :
  (i <= length (fdtab k))%nat -> Z.of_nat i < 2 ^ 32 ->
  fdtab k' = fdtab (fd_install k (Z.of_nat i) p) ->
  fcheck k' (Z.of_nat i) = p.
Proof.
  intros Hi Hsmall Htab. unfold fcheck.
  rewrite to_uint_small by lia. rewrite Nat2Z.id, Htab.
  now rewrite fd_install_lookup.
Qed.

(** X12. cap_new, then cap_getrights: when the descriptor limit fits an
    unsigned int and [rightsp] is writable, asking for the rights of the
    descriptor cap_new has just returned stores [new_rights] intersected
    with the rights of the original descriptor at [rightsp], and
    returns 0. *)
Theorem cap_new_then_getrights
    (k : kernel) (f g : file) (orig_fd new_rights nfd rightsp old : Z)
    (a b : nat) :
  capsicum_enabled k = true ->
  fcheck k orig_fd = Addr a -> objs k !! a = Some f ->
  wrapped_file a f = Some b -> objs k !! b = Some g ->
  capsicum_is_cap g = false -> f_count g <> 0 ->
  get_unused_fd k = Val nfd -> (2 <= kmem k)%nat ->
  Z.of_nat (nofile k) <= 2 ^ 32 -> umem k !! rightsp = Some old ->
  exists k' k'',
    sys_cap_new k orig_fd new_rights = Done (Val nfd, k') /\
    sys_cap_getrights k' nfd rightsp = Done (Val 0, k'') /\
    umem k'' !! rightsp = Some (Z.land new_rights (file_rights f)).
Proof.
  intros Hen Hfd Ha Hw Hb Hg Hcnt Hslot Hmem Hlim Hu.
  destruct (sys_cap_new_post k f g orig_fd new_rights nfd a b)
    as (k' & Hnew & _ & Hcap & _ & _ & Htab & _ & Humem & _); trivial.
  destruct (get_unused_fd_free _ _ Hslot) as (i & -> & Hi & Hno & _).
  exists k'. eexists. split; [exact Hnew|].
  rewrite (cap_getrights_copies k' (Z.of_nat i) rightsp (length (objs k))
             (mkFile capsicum_file_ops
                (Some (mkCap (Z.land new_rights (file_rights f)) (Addr b)))
                1)
             (Z.land new_rights (file_rights f)) (Addr b) old).
  - split; [reflexivity|]. cbn. apply lookup_insert_eq.
  - eapply fcheck_new_fd; [exact Hi | lia | exact Htab].
  - exact Hcap.
  - split; reflexivity.
  - now rewrite Humem.
Qed.

Lemma cap_new_then_getrights_witness :
  exists k' k'',
    sys_cap_new confined 0 3 = Done (Val 1, k') /\
    sys_cap_getrights k' 1 1000 = Done (Val 0, k'') /\
    umem k'' !! 1000 = Some 1.
Proof.
  apply (cap_new_then_getrights confined read_capability ordinary_file
           0 3 1 1000 0 1 0); try reflexivity; try discriminate;
    cbn; lia.
Defined.

(** X13. cap_new of cap_new.  A capability made from the descriptor a
    first cap_new returned wraps the same ordinary file, and its rights
    are the second request intersected with the first request and with
    the rights of the original descriptor. *)
Theorem cap_new_twice
    (k k1 : kernel) (f g : file) (orig_fd r1 r2 nfd nfd2 : Z)
    (a b : nat) :
  capsicum_enabled k = true ->
  fcheck k orig_fd = Addr a -> objs k !! a = Some f ->
  wrapped_file a f = Some b -> objs k !! b = Some g ->
  capsicum_is_cap g = false -> 0 < f_count g ->
  get_unused_fd k = Val nfd -> (4 <= kmem k)%nat ->
  Z.of_nat (nofile k) <= 2 ^ 32 ->
  sys_cap_new k orig_fd r1 = Done (Val nfd, k1) ->
  get_unused_fd k1 = Val nfd2 ->
  exists k2 w2 c2,
    sys_cap_new k1 nfd r2 = Done (Val nfd2, k2) /\
    fdtab k2 !! Z.to_nat nfd2 = Some (Addr w2) /\
    objs k2 !! w2 = Some c2 /\
    is_capability c2 (Z.land r2 (Z.land r1 (file_rights f))) (Addr b).
Proof.
  intros Hen Hfd Ha Hw Hb Hg Hcnt Hslot Hmem Hlim Hfirst Hslot2.
  destruct (sys_cap_new_post k f g orig_fd r1 nfd a b)
    as (k1' & Hnew & Hlen & Hcap & Hb' & _ & Htab & _ & _ & Hkmem & Hnof
        & Hen1); trivial; [lia | lia |].
  rewrite Hfirst in Hnew. injection Hnew as <-.
  destruct (get_unused_fd_free _ _ Hslot) as (i & -> & Hi & Hno & _).
  destruct (sys_cap_new_post k1
              (mkFile capsicum_file_ops
                 (Some (mkCap (Z.land r1 (file_rights f)) (Addr b))) 1)
              (mkFile (f_op g) (private_data g) (f_count g + 2))
              (Z.of_nat i) r2 nfd2 (length (objs k)) b)
    as (k2 & Hnew2 & _ & Hcap2 & _ & _ & Htab2 & _); trivial.
  - eapply fcheck_new_fd; [exact Hi | lia | exact Htab].
  - cbn. lia.
  - lia.
  - destruct (get_unused_fd_slot _ _ Hslot2) as (j & -> & Hj & _).
    exists k2, (length (objs k1)). eexists.
    split; [exact Hnew2|]. split.
    { rewrite Htab2, Nat2Z.id. now apply fd_install_lookup. }
    split; [exact Hcap2|]. split; reflexivity.
Qed.

Lemma cap_new_twice_witness :
  exists k1 k2 w2 c2,
    sys_cap_new confined 3 3 = Done (Val 1, k1) /\
    sys_cap_new k1 1 6 = Done (Val 2, k2) /\
    fdtab k2 !! 2%nat = Some (Addr w2) /\
    objs k2 !! w2 = Some c2 /\ is_capability c2 2 (Addr 0%nat).
Proof.
  destruct (sys_cap_new confined 3 3) as [[r k1]|h] eqn:E;
    [|vm_compute in E; discriminate].
  assert (Hr : r = Val 1) by (vm_compute in E; now injection E as <- _).
  subst r.
  assert (Hslot : get_unused_fd k1 = Val 2)
    by (vm_compute in E; injection E as <-; reflexivity).
  destruct (cap_new_twice confined k1 ordinary_file ordinary_file 3 3 6 1 2
              0 0)
    as (k2 & w2 & c2 & H1 & H2 & H3 & H4); try reflexivity; trivial;
    try (cbn; lia).
  exists k1, k2, w2, c2. repeat split; trivial; apply H4.
Defined.

(** ** The hooks, composed *)

(** X14. The pre-allocated wrapper is used once.  With a wrapper and
    rights other than all ones in the record, the install hook returns
    the wrapper for the first ordinary file it is given, having made it a
    capability for that file with the rights of the record; the wrapper
    keeps its reference count, no other object and no descriptor changes,
    and the record is left without a wrapper and with rights 0.  For the
    next file it is given the hook returns that file itself. *)
Theorem file_install_wraps_once
    (k : kernel) (p : capsicum_pending_syscall) (w b1 b2 : nat)
    (wc g1 g2 : file) (fd1 fd2 : Z) :
  capsicum_get_pending_syscall k = Some p ->
  next_new_cap p = Addr w -> new_cap_rights p <> u64_max ->
  objs k !! w = Some wc -> capsicum_is_cap wc = true ->
  is_Some (private_data wc) ->
  objs k !! b1 = Some g1 -> capsicum_is_cap g1 = false ->
  objs k !! b2 = Some g2 -> capsicum_is_cap g2 = false ->
  exists k2 wc' p2,
    capsicum_file_install k (Addr b1) fd1 = Done (Addr w, k2) /\
    objs k2 !! w = Some wc' /\
    is_capability wc' (new_cap_rights p) (Addr b1) /\
    f_op wc' = f_op wc /\ f_count wc' = f_count wc /\
    (forall c, c <> w -> objs k2 !! c = objs k !! c) /\
    fdtab k2 = fdtab k /\
    capsicum_get_pending_syscall k2 = Some p2 /\
    next_new_cap p2 = NULL /\ new_cap_rights p2 = 0 /\
    fds p2 = fds p /\ files p2 = files p /\
    next_free p2 = next_free p /\
    capsicum_file_install k2 (Addr b2) fd2 = Done (Addr b2, k2).
Proof.
  intros Hp Hw Hr Hobj Hwc Hpd Hb1 Hg1 Hb2 Hg2.
  assert (Hne : b2 <> w) by (intros ->; congruence).
  assert (Htask : task p = current k).
  { unfold capsicum_get_pending_syscall in Hp.
    destruct (security k) as [q|]; [|discriminate].
    destruct (decide (task q = current k)); [|discriminate]. congruence. }
  unfold capsicum_file_install at 1.
  rewrite (deref_Addr _ _ _ Hb1). cbn [obind]. rewrite Hg1, Hp, Hw.
  rewrite bool_decide_eq_false_2 by assumption. cbn [orb is_NULL].
  rewrite (cap_set_ok _ _ _ _ _ Hobj Hwc Hpd). cbn [obind].
  eexists _, _, _. split; [reflexivity|].
  split.
  { cbn. apply list_lookup_insert_eq. now apply lookup_lt_Some in Hobj. }
  split; [split; [exact Hwc | reflexivity]|].
  split; [reflexivity|]. split; [reflexivity|].
  split.
  { intros c Hc. cbn. now rewrite list_lookup_insert_ne by congruence. }
  split; [reflexivity|].
  split; [now rewrite get_pending_attached by exact Htask|].
  do 5 (split; [reflexivity|]).
  unfold capsicum_file_install.
  erewrite deref_Addr
    by (cbn; rewrite list_lookup_insert_ne by congruence; exact Hb2).
  cbn [obind]. rewrite Hg2.
  rewrite get_pending_attached by exact Htask. cbn.
  now rewrite orb_true_r.
Qed.

Lemma file_install_wraps_once_witness :
  exists k2 wc',
    capsicum_file_install confined_after_openat (Addr 0%nat) 1
      = Done (Addr 2%nat, k2) /\
    objs k2 !! 2%nat = Some wc' /\ is_capability wc' 1 (Addr 0%nat) /\
    capsicum_file_install k2 (Addr 0%nat) 2 = Done (Addr 0%nat, k2).
Proof.
  destruct (capsicum_get_pending_syscall confined_after_openat)
    as [p|] eqn:Ep; [|vm_compute in Ep; discriminate].
  assert (Hn : next_new_cap p = Addr 2%nat /\ new_cap_rights p = 1)
    by (vm_compute in Ep; injection Ep as <-; split; reflexivity).
  destruct Hn as [Hn Hr].
  assert (Hr' : new_cap_rights p <> u64_max) by (rewrite Hr; discriminate).
  assert (Hw : objs confined_after_openat !! 2%nat = Some blank_wrapper)
    by (vm_compute; reflexivity).
  assert (Hb : objs confined_after_openat !! 0%nat = Some ordinary_file)
    by (vm_compute; reflexivity).
  destruct (file_install_wraps_once confined_after_openat p 2 0 0
              blank_wrapper ordinary_file ordinary_file 1 2 Ep Hn Hr' Hw
              eq_refl (ex_intro _ _ eq_refl) Hb eq_refl Hb eq_refl)
    as (k2 & wc' & p2 & H1 & H2 & H3 & _ & _ & _ & _ & _ & _ & _ & _ & _
        & _ & H4).
  exists k2, wc'. rewrite Hr in H3. auto.
Defined.

(** X15. What the lookup hook hands out.  In a flat state, the lookup of
    an ordinary file or of a capability with an underlying file returns
    NULL or an ordinary file, never a capability.  The one capability the
    hook does hand out is a wrapper whose underlying file is still NULL:
    that one is returned as it is. *)
Theorem file_lookup_never_capability
    (k : kernel) (f : file) (file : fileptr) (fd : Z) :
  flat k -> deref k file = Done f ->
  (forall r, is_capability f r NULL ->
             capsicum_file_lookup k file fd = Done file) /\
  ((capsicum_is_cap f = true ->
    exists r u, is_capability f r u /\ u <> NULL) ->
   forall p, capsicum_file_lookup k file fd = Done p ->
     p = NULL \/
     exists g, deref k p = Done g /\ capsicum_is_cap g = false).
Proof.
  intros Hflat Hd. split.
  - intros r Hc. unfold capsicum_file_lookup. rewrite Hd. cbn [obind].
    now rewrite (unwrap_capability _ _ _ _ Hc).
  - intros Hinit p Hp. unfold capsicum_file_lookup in Hp.
    rewrite Hd in Hp. cbn [obind] in Hp.
    destruct (capsicum_is_cap f) eqn:Hc.
    + destruct (Hinit eq_refl) as (r & u & Hcap & Hu).
      rewrite (unwrap_capability _ _ _ _ Hcap) in Hp. cbn [obind] in Hp.
      rewrite (is_NULL_false _ Hu) in Hp.
      assert (Hunder : exists g, deref k u = Done g /\
                                 capsicum_is_cap g = false).
      { apply deref_Done in Hd. destruct Hd as (a & -> & Ha).
        pose proof (flat_store_lookup _ _ _ Hflat Ha) as Hf.
        unfold flat_obj in Hf. destruct Hcap as [_ Hpd].
        rewrite Hc, Hpd in Hf. cbn in Hf.
        destruct u as [|b|]; [contradiction| |discriminate].
        destruct (objs k !! b) as [g|] eqn:Hb; [|discriminate].
        exists g. split; [now apply deref_Addr|].
        now apply negb_true_iff in Hf. }
      destruct (capsicum_get_pending_syscall k) as [pending|];
        [|injection Hp as <-; now right].
      destruct (capsicum_in_cap_mode k); [|injection Hp as <-; now right].
      destruct (lookup_loop _ _ _ _ _ _) as [[|]|];
        try discriminate; injection Hp as <-; auto.
    + rewrite (unwrap_ordinary _ _ Hc) in Hp. injection Hp as <-.
      right. eauto.
Qed.

Lemma file_lookup_never_capability_witness :
  capsicum_file_lookup confined_after_openat (Addr 2%nat) 5
    = Done (Addr 2%nat) /\
  capsicum_file_lookup confined_after_openat (Addr 1%nat) 0
    = Done (Addr 0%nat) /\
  exists g, deref confined_after_openat (Addr 0%nat) = Done g /\
            capsicum_is_cap g = false.
Proof.
  assert (Hflat : flat confined_after_openat)
    by (unfold flat, flat_store; vm_compute; repeat constructor).
  assert (Hl : capsicum_file_lookup confined_after_openat (Addr 1%nat) 0
               = Done (Addr 0%nat)) by (vm_compute; reflexivity).
  split; [|split; [exact Hl|]].
  - apply (proj1 (file_lookup_never_capability confined_after_openat
                    blank_wrapper (Addr 2%nat) 5 Hflat
                    ltac:(vm_compute; reflexivity)) 0).
    split; reflexivity.
  - assert (Hd : deref confined_after_openat (Addr 1%nat)
                 = Done read_capability) by (vm_compute; reflexivity).
    assert (Hc : capsicum_is_cap read_capability = true ->
                 exists r u, is_capability read_capability r u /\
                             u <> NULL).
    { intros _. exists 1, (Addr 0%nat).
      split; [split; reflexivity | discriminate]. }
    destruct (proj2 (file_lookup_never_capability confined_after_openat
                       read_capability (Addr 1%nat) 0 Hflat Hd)
                Hc (Addr 0%nat) Hl) as [Hn|Hg];
      [discriminate Hn | exact Hg].
Defined.

(** ** The capability object *)

(** X16. Allocate, set, unwrap.  With memory for two allocations
    [capsicum_cap_alloc] returns a pointer that named no object before;
    setting that capability to a file and rights and unwrapping it gives
    the file and the rights back, and the objects that existed are as
    they were.  With less memory it returns the error pointer for ENOMEM
    and changes nothing. *)
Theorem cap_alloc_set_unwrap
    (k : kernel) (under : fileptr) (r r0 : Z) :
  ((kmem k < 2)%nat -> capsicum_cap_alloc k = (ERR_PTR ENOMEM, k)) /\
  ((2 <= kmem k)%nat ->
   exists w k1 k2 c,
     capsicum_cap_alloc k = (Addr w, k1) /\
     objs k !! w = None /\
     capsicum_cap_set k1 (Addr w) under r = Done k2 /\
     deref k2 (Addr w) = Done c /\
     capsicum_unwrap c r0 = Done (under, r) /\
     (forall a o, objs k !! a = Some o -> objs k2 !! a = Some o)).
Proof.
  split.
  - intros H. unfold capsicum_cap_alloc.
    destruct (kmem k) as [|[|n]]; [reflexivity | reflexivity | lia].
  - intros H. rewrite (cap_alloc_ok _ H).
    exists (length (objs k)). eexists. eexists. eexists.
    split; [reflexivity|].
    split; [apply lookup_ge_None_2; lia|].
    split.
    { apply (cap_set_ok _ _ blank_wrapper); [|reflexivity|cbn; eauto].
      cbn. rewrite lookup_app_r, Nat.sub_diag by lia. reflexivity. }
    split.
    { apply deref_Addr. cbn. apply list_lookup_insert_eq.
      rewrite length_app. cbn. lia. }
    split; [reflexivity|].
    intros a o Ha. cbn. pose proof (lookup_lt_Some _ _ _ Ha).
    rewrite list_lookup_insert_ne by lia.
    now apply lookup_app_l_Some.
Qed.

Lemma cap_alloc_set_unwrap_witness :
  capsicum_cap_alloc (set_kmem confined 1)
    = (ERR_PTR ENOMEM, set_kmem confined 1) /\
  exists w k1 k2 c,
    capsicum_cap_alloc confined = (Addr w, k1) /\
    capsicum_cap_set k1 (Addr w) (Addr 0%nat) 5 = Done k2 /\
    deref k2 (Addr w) = Done c /\
    capsicum_unwrap c 0 = Done (Addr 0%nat, 5).
Proof.
  split.
  - apply (proj1 (cap_alloc_set_unwrap (set_kmem confined 1) NULL 0 0)).
    cbn. lia.
  - destruct (proj2 (cap_alloc_set_unwrap confined (Addr 0%nat) 5 0))
      as (w & k1 & k2 & c & H1 & _ & H2 & H3 & H4 & _); [cbn; lia|].
    exists w, k1, k2, c. auto.
Defined.

(** ** Credentials *)

(** X17. Credentials prepared for a new owner never share the record:
    only when the old credentials carried a record of the current thread
    do the new ones get a record, and then an empty one of the current
    thread with six free entries and no wrapper, at the cost of one
    allocation (ENOMEM, and no record, when there is no memory); with
    such a record the install hook hands every file back as it is. *)
Theorem cred_prepare_gives_empty_record
    (k k' : kernel) (old sec : option capsicum_pending_syscall)
    (r : sysret) :
  capsicum_cred_prepare k old = (r, sec, k') ->
  (forall p, sec = Some p ->
     r = Val 0 /\ (exists q, old = Some q /\ task q = current k) /\
     task p = current k /\ next_free p = 0 /\ next_new_cap p = NULL /\
     fd_count p = 6 /\ record_bounded p /\ kmem k = S (kmem k') /\
     forall b g fd, objs k !! b = Some g ->
       capsicum_file_install (set_security k' (Some p)) (Addr b) fd
       = Done (Addr b, set_security k' (Some p))) /\
  ((forall q, old = Some q -> task q <> current k) ->
   r = Val 0 /\ sec = None /\ k' = k) /\
  (forall e, r = Neg e ->
     e = ENOMEM /\ sec = None /\ k' = k /\ kmem k = 0%nat).
Proof.
  intros H. split; [|split].
  - intros p ->. unfold capsicum_cred_prepare, capsicum_cred_alloc_blank in H.
    destruct old as [q|]; [|discriminate].
    destruct (decide (task q = current k)) as [Hq|]; [|discriminate].
    destruct (kmem k) as [|n] eqn:Hk; [discriminate|].
    injection H as <- <- <-.
    split; [reflexivity|]. split; [eauto|]. repeat split; cbn; try lia.
    intros b g fd Hb. unfold capsicum_file_install.
    erewrite deref_Addr by (cbn; exact Hb). cbn [obind].
    destruct (capsicum_is_cap g); [reflexivity|].
    rewrite get_pending_attached by reflexivity. reflexivity.
  - intros Hforeign. rewrite (cred_prepare_foreign _ _ Hforeign) in H.
    now injection H as <- <- <-.
  - intros e ->. unfold capsicum_cred_prepare, capsicum_cred_alloc_blank in H.
    destruct old as [q|]; [|discriminate].
    destruct (decide (task q = current k)); [|discriminate].
    destruct (kmem k) as [|n]; [|discriminate].
    now injection H as <- <- <-.
Qed.

Lemma cred_prepare_gives_empty_record_witness :
  capsicum_cred_prepare (confined_with full_record) (Some full_record)
    = (Val 0, Some (blank_pending 7),
       set_kmem (confined_with full_record) 9) /\
  next_free (blank_pending 7) = 0.
Proof.
  split; [reflexivity|].
  apply (proj1 (cred_prepare_gives_empty_record
                  (confined_with full_record)
                  (set_kmem (confined_with full_record) 9)
                  (Some full_record) (Some (blank_pending 7)) (Val 0)
                  eq_refl) (blank_pending 7) eq_refl).
Defined.

Lemma put_filp_Addr k w wc :
  objs k !! w = Some wc ->
  put_filp k (Addr w) =
  Done (set_objs k
          (<[w := mkFile (f_op wc) (private_data wc) (f_count wc + -1)]>
             (objs k))).
Proof.
  intros H. unfold put_filp, add_ref. now rewrite (deref_Addr _ _ _ H).
Qed.

(** X18. Freeing the credentials detaches the record, and touches no
    descriptor.  Without a wrapper in the record the objects are as
    before; a wrapper that was never installed loses exactly one
    reference and no other object changes; an error pointer left in
    [next_new_cap] is dereferenced. *)
Theorem cred_free_drops_wrapper
    (k : kernel) (p : capsicum_pending_syscall) :
  security k = Some p ->
  (next_new_cap p = NULL ->
   exists k', capsicum_cred_free k = Done k' /\ security k' = None /\
              fdtab k' = fdtab k /\ objs k' = objs k) /\
  (forall w wc,
     next_new_cap p = Addr w -> objs k !! w = Some wc ->
     exists k', capsicum_cred_free k = Done k' /\ security k' = None /\
                fdtab k' = fdtab k /\
                objs k' !! w =
                  Some (mkFile (f_op wc) (private_data wc) (f_count wc - 1))
                /\
                forall a, a <> w -> objs k' !! a = objs k !! a) /\
  (forall e, next_new_cap p = ERR_PTR e -> capsicum_cred_free k = Halt OOPS).
Proof.
  intros Hs. unfold capsicum_cred_free. rewrite Hs. split; [|split].
  - intros ->. cbn [is_NULL obind]. eexists. split; [reflexivity|].
    destruct (uses_inline_arrays p); repeat split.
  - intros w wc -> Hw. cbn [is_NULL].
    destruct (uses_inline_arrays p);
      (erewrite put_filp_Addr by (cbn; exact Hw)); cbn [obind];
      (eexists; split; [reflexivity|]); cbn;
      (split; [reflexivity|]); (split; [reflexivity|]);
      (split; [apply list_lookup_insert_eq; now apply lookup_lt_Some in Hw|]);
      intros a Ha; now rewrite list_lookup_insert_ne by congruence.
  - intros e ->. cbn [is_NULL].
    destruct (uses_inline_arrays p); reflexivity.
Qed.

Lemma cred_free_drops_wrapper_witness :
  exists k',
    capsicum_cred_free confined_after_openat = Done k' /\
    security k' = None /\
    objs k' !! 2%nat = Some (mkFile capsicum_file_ops (Some (mkCap 0 NULL)) 0).
Proof.
  destruct (security confined_after_openat) as [p|] eqn:Ep;
    [|vm_compute in Ep; discriminate].
  assert (Hn : next_new_cap p = Addr 2%nat)
    by (vm_compute in Ep; injection Ep as <-; reflexivity).
  destruct (proj1 (proj2 (cred_free_drops_wrapper confined_after_openat p Ep))
              2%nat blank_wrapper Hn ltac:(vm_compute; reflexivity))
    as (k' & H1 & H2 & _ & H3 & _).
  exists k'. split; [exact H1|]. split; [exact H2 | exact H3].
Defined.

(** ** Room in the record *)

(** X19. After the record was asked to grow to [numfds] entries and the
    request was met (it fitted, or there was memory for two allocations),
    a rights check made while fewer than [numfds] entries are in use never
    fails with ENOMEM.  When it could not be met for want of memory and
    the record is full, the check of an fd that resolves fails with
    ENOMEM and writes nothing. *)
Theorem grown_record_has_room
    (k k' : kernel) (p p' : capsicum_pending_syscall)
    (numfds fd req : Z) :
  capsicum_realloc_pending_syscall k p numfds = (p', k') ->
  (numfds <= fd_count p \/ (2 <= kmem k)%nat ->
   next_free p < numfds ->
   forall r p'', capsicum_require_rights k' p' fd req = Done (r, p'') ->
                 r <> Neg ENOMEM) /\
  ((kmem k < 2)%nat -> fd_count p <= next_free p ->
   forall a f, fd <> AT_FDCWD -> fcheck k fd = Addr a ->
     objs k !! a = Some f -> capsicum_is_cap f = false ->
     capsicum_require_rights k' p' fd req = Done (Neg ENOMEM, p)).
Proof.
  intros H. split.
  - intros Hmet Hlt r p'' Hreq ->.
    assert (Hroom : next_free p' < fd_count p').
    { unfold capsicum_realloc_pending_syscall in H.
      destruct (decide (numfds <= fd_count p)).
      - injection H as <- <-. lia.
      - destruct (kmem k) as [|[|m]]; try (destruct Hmet; lia).
        injection H as <- <-. cbn. lia. }
    apply require_rights_step in Hreq.
    destruct Hreq as [(_ & _ & Hfull)|(_ & _ & _ & a & f & _ & _ & Hr)].
    + specialize (Hfull eq_refl). lia.
    + destruct Hr as [[Hz _]|[Hr _]]; discriminate.
  - intros Hmem Hfull a f Hne Hfd Ha Hf.
    assert (Hsame : p' = p /\ k' = k).
    { unfold capsicum_realloc_pending_syscall in H.
      destruct (decide (numfds <= fd_count p));
        [now injection H as <- <-|].
      destruct (kmem k) as [|[|m]]; try lia; now injection H as <- <-. }
    destruct Hsame as [-> ->]. unfold capsicum_require_rights.
    destruct (decide (fd = AT_FDCWD)); [contradiction|].
    rewrite Hfd. cbn [is_NULL]. rewrite (deref_Addr _ _ _ Ha).
    cbn [obind]. rewrite (unwrap_ordinary _ _ Hf). cbn [obind].
    destruct (decide (fd_count p <= next_free p)); [reflexivity | lia].
Qed.

Lemma grown_record_has_room_witness :
  exists p' k' p'',
    capsicum_realloc_pending_syscall confined full_record 9 = (p', k') /\
    capsicum_require_rights k' p' 3 0 = Done (Val 0, p'') /\
    Val 0 <> Neg ENOMEM.
Proof.
  destruct (capsicum_realloc_pending_syscall confined full_record 9)
    as [p' k'] eqn:E.
  destruct (capsicum_require_rights k' p' 3 0) as [[r p'']|h] eqn:Er;
    [|vm_compute in E; injection E as <- <-; vm_compute in Er;
      discriminate].
  assert (Hr : r = Val 0)
    by (vm_compute in E; injection E as <- <-; vm_compute in Er;
        now injection Er as <- _).
  subst r. exists p', k', p''. split; [reflexivity|].
  split; [exact Er|].
  apply (proj1 (grown_record_has_room confined k' full_record p' 9 3 0 E))
    with (p'' := p'').
  - right. cbn. lia.
  - cbn. lia.
  - exact Er.
Defined.

(** ** When the wrapper cannot be allocated *)

(** X20. openat on a capability when no wrapper is at hand and memory is
    short: the checks having passed, the interception fails with ENOMEM
    and leaves the error pointer in [next_new_cap], with the rights for
    the next installation at 0.  The install hook, given an ordinary file
    in that state, dereferences the error pointer. *)
Theorem failed_wrapper_allocation_leaves_error_pointer
    (tbl : syscall_table) (nr_openat : Z) (k : kernel)
    (p p2 : capsicum_pending_syscall) (arch : Z) (args : list Z)
    (dfd required R : Z) (rest : list (Z * Z)) (a : nat) (c : file)
    (u : fileptr) :
  capsicum_enabled k = true ->
  capsicum_get_pending_syscall k = Some p -> pending_wf p ->
  next_new_cap p = NULL -> (kmem k < 2)%nat ->
  tbl arch nr_openat args = Some ((dfd, required) :: rest) ->
  check_fd_args k (reset_record p) ((dfd, required) :: rest)
    = Done (Val 0, p2) ->
  fcheck k dfd = Addr a -> objs k !! a = Some c ->
  is_capability c R u -> u <> NULL ->
  exists k1 p1,
    capsicum_intercept_syscall tbl nr_openat k arch nr_openat args
      = Done (Neg ENOMEM, k1) /\
    capsicum_get_pending_syscall k1 = Some p1 /\
    next_new_cap p1 = ERR_PTR ENOMEM /\ new_cap_rights p1 = 0 /\
    objs k1 = objs k /\
    forall b g fd, objs k !! b = Some g -> capsicum_is_cap g = false ->
      capsicum_file_install k1 (Addr b) fd = Halt OOPS.
Proof.
  intros Hen Hp Hwf Hnull Hmem Htbl Hrun Hfd Ha Hc Hu.
  pose proof (check_fd_args_first _ _ _ _ _ _ _ Hrun eq_refl Hwf eq_refl)
    as (Hfile0 & Hcap2 & Htask2).
  pose proof (check_fd_args_new_cap_rights _ _ _ _ _ Hrun) as Hncr.
  cbn in Hcap2, Htask2, Hncr.
  assert (Htask : task p = current k).
  { unfold capsicum_get_pending_syscall in Hp.
    destruct (security k) as [q|]; [|discriminate].
    destruct (decide (task q = current k)); [|discriminate]. congruence. }
  unfold capsicum_intercept_syscall. rewrite Hen. cbn [negb].
  rewrite (alloc_pending_Some _ _ Hp). fold (reset_record p).
  unfold capsicum_run_syscall_table. rewrite Htbl, Hrun. cbn [obind].
  rewrite bool_decide_eq_true_2 by reflexivity. cbn [is_zero andb].
  rewrite Hfile0, Hfd, (deref_Addr _ _ _ Ha). cbn [obind].
  rewrite (unwrap_capability _ _ _ _ Hc). cbn [obind].
  rewrite (is_NULL_false _ Hu), Hcap2, Hnull. cbn [is_NULL].
  assert (Halloc : capsicum_cap_alloc k = (ERR_PTR ENOMEM, k)).
  { unfold capsicum_cap_alloc.
    destruct (kmem k) as [|[|n]]; [reflexivity | reflexivity | lia]. }
  rewrite Halloc.
  eexists. eexists. split; [reflexivity|].
  split; [apply get_pending_attached; cbn; congruence|].
  cbn. split; [reflexivity|]. split; [exact Hncr|].
  split; [reflexivity|].
  intros b g fd Hb Hg. unfold capsicum_file_install.
  erewrite deref_Addr by (cbn; exact Hb). cbn [obind]. rewrite Hg.
  rewrite get_pending_attached by (cbn; congruence). cbn.
  rewrite Hncr. reflexivity.
Qed.

Lemma failed_wrapper_allocation_leaves_error_pointer_witness :
  exists k1 p1,
    capsicum_intercept_syscall small_table 257
      (set_kmem (confined_with empty_record) 1) 0 257 [0; 0; 0]
      = Done (Neg ENOMEM, k1) /\
    capsicum_get_pending_syscall k1 = Some p1 /\
    next_new_cap p1 = ERR_PTR ENOMEM /\
    capsicum_file_install k1 (Addr 0%nat) 1 = Halt OOPS.
Proof.
  destruct (check_fd_args (set_kmem (confined_with empty_record) 1)
              (reset_record empty_record) [(0, 0)])
    as [[r p2]|h] eqn:E; [|vm_compute in E; discriminate].
  assert (Hr : r = Val 0) by (vm_compute in E; now injection E as <- _).
  subst r.
  destruct (failed_wrapper_allocation_leaves_error_pointer small_table 257
              (set_kmem (confined_with empty_record) 1) empty_record p2 0
              [0; 0; 0] 0 0 1 [] 1 read_capability (Addr 0%nat)
              eq_refl eq_refl (conj eq_refl eq_refl) eq_refl
              ltac:(cbn; lia) eq_refl E eq_refl eq_refl
              (conj eq_refl eq_refl) ltac:(discriminate))
    as (k1 & p1 & H1 & H2 & H3 & _ & _ & H4).
  exists k1, p1. split; [exact H1|]. split; [exact H2|].
  split; [exact H3|]. apply (H4 0%nat ordinary_file); reflexivity.
Defined.
